(** * A shallow embedding of the ledger engine (blockchain.js)

    The development follows the JavaScript source class by class:
    [CryptoJS] (the digest and keyed-MAC the code calls), [JS] (the pieces of
    the language runtime the code relies on: truthiness, number to string,
    JSON.stringify of strings), [Transaction], [Block] and [Blockchain].

    Conventions.
    - JS numbers that the ledger manipulates (amounts, timestamps, nonces,
      rewards, durations) are integers and are modelled by [Z]; ratios that
      the code forms by division are modelled by exact rationals [Q].  With
      the ledger's constants (a window of 5 blocks, a target of 10000 ms) a
      ratio that is not exactly 1/2 or 2 is at least 1/100000 away from
      them, far more than double precision loses, so the comparisons come
      out as in the code.
    - The digests are computed: SHA-256 and HMAC-SHA-256 are defined here
      and checked against published test vectors.
    - [null] is [None]; a JS string is a [string] of UTF-8 bytes.
    - Calls to the environment ([uuidv4()], [Date.now()], [Math.random()])
      become explicit arguments, in the order in which the code makes them.
    - A method that can [throw] returns a [Completion]; a method that mutates
      [this] returns the new object next to its completion, so that a throw
      keeps whatever was mutated before it. *)

From Stdlib Require Import ZArith QArith String Ascii List Lia Lqa Bool.
From Stdlib Require Import DecimalString.
From Corelib Require PrimInt63.
From stdpp Require Import base option list strings gmap.

Local Open Scope string_scope.
Local Open Scope Z_scope.

(* ===================================================================== *)
(** ** crypto-js: SHA-256 and HMAC-SHA-256 over UTF-8 strings, hex output *)
(* ===================================================================== *)

Module CryptoJS.

Import PrimInt63.
Local Open Scope uint63_scope.

(** 32-bit words live in the low half of a 63-bit machine integer; every
    operation that can overflow 32 bits is masked back. *)
Definition mask32 : int := 4294967295.
Definition w32 (x : int) : int := land x mask32.
Definition add32 (x y : int) : int := w32 (add x y).
Definition rotr (n x : int) : int := lor (lsr x n) (w32 (lsl x (sub 32 n))).
Definition not32 (x : int) : int := lxor x mask32.

Definition Ch (x y z : int) : int := lxor (land x y) (land (not32 x) z).
Definition Maj (x y z : int) : int := lxor (lxor (land x y) (land x z)) (land y z).
Definition Sigma0 (x : int) : int := lxor (lxor (rotr 2 x) (rotr 13 x)) (rotr 22 x).
Definition Sigma1 (x : int) : int := lxor (lxor (rotr 6 x) (rotr 11 x)) (rotr 25 x).
Definition sigma0 (x : int) : int := lxor (lxor (rotr 7 x) (rotr 18 x)) (lsr x 3).
Definition sigma1 (x : int) : int := lxor (lxor (rotr 17 x) (rotr 19 x)) (lsr x 10).

(** The round constants: the first 32 bits of the fractional parts of the
    cube roots of the first 64 primes (crypto-js computes them on load). *)
Definition K : list int :=
  [ 1116352408; 1899447441; 3049323471; 3921009573; 961987163; 1508970993;
    2453635748; 2870763221; 3624381080; 310598401; 607225278; 1426881987;
    1925078388; 2162078206; 2614888103; 3248222580; 3835390401; 4022224774;
    264347078; 604807628; 770255983; 1249150122; 1555081692; 1996064986;
    2554220882; 2821834349; 2952996808; 3210313671; 3336571891; 3584528711;
    113926993; 338241895; 666307205; 773529912; 1294757372; 1396182291;
    1695183700; 1986661051; 2177026350; 2456956037; 2730485921; 2820302411;
    3259730800; 3345764771; 3516065817; 3600352804; 4094571909; 275423344;
    430227734; 506948616; 659060556; 883997877; 958139571; 1322822218;
    1537002063; 1747873779; 1955562222; 2024104815; 2227730452; 2361852424;
    2428436474; 2756734187; 3204031479; 3329325298 ].

(** The eight working words. *)
Record state := St { sa : int; sb : int; sc : int; sd : int; se : int; sf : int; sg : int; sh : int }.

(** The initial hash value: the same bits of the square roots of the first
    eight primes. *)
Definition H0 : state :=
  St 1779033703 3144134277 1013904242 2773480762
     1359893119 2600822924 528734635 1541459225.

(** Message schedule.  [rev_w] holds W[t-1], W[t-2], ... (newest first). *)
Fixpoint extend (n : nat) (rev_w : list int) : list int :=
  match n with
  | O => rev_w
  | S n' =>
      let w2 := nth 1 rev_w 0 in
      let w7 := nth 6 rev_w 0 in
      let w15 := nth 14 rev_w 0 in
      let w16 := nth 15 rev_w 0 in
      extend n' (add32 (add32 (sigma1 w2) w7) (add32 (sigma0 w15) w16) :: rev_w)
  end.

Definition schedule (block : list int) : list int := rev (extend 48 (rev block)).

Definition round (s : state) (kw : int * int) : state :=
  let '(k, w) := kw in
  let t1 := add32 (add32 (add32 (sh s) (Sigma1 (se s))) (Ch (se s) (sf s) (sg s))) (add32 k w) in
  let t2 := add32 (Sigma0 (sa s)) (Maj (sa s) (sb s) (sc s)) in
  St (add32 t1 t2) (sa s) (sb s) (sc s) (add32 (sd s) t1) (se s) (sf s) (sg s).

Definition compress (s : state) (block : list int) : state :=
  let r := fold_left round (combine K (schedule block)) s in
  St (add32 (sa s) (sa r)) (add32 (sb s) (sb r)) (add32 (sc s) (sc r)) (add32 (sd s) (sd r))
     (add32 (se s) (se r)) (add32 (sf s) (sf r)) (add32 (sg s) (sg r)) (add32 (sh s) (sh r)).

Definition bit (b : bool) (v : int) : int := if b then v else 0.

Definition int_of_ascii (c : ascii) : int :=
  let 'Ascii b0 b1 b2 b3 b4 b5 b6 b7 := c in
  lor (lor (lor (bit b0 1) (bit b1 2)) (lor (bit b2 4) (bit b3 8)))
      (lor (lor (bit b4 16) (bit b5 32)) (lor (bit b6 64) (bit b7 128))).

(** Bytes of a string (Utf8.parse: the string is taken as its UTF-8 bytes). *)
Fixpoint bytes_of (s : string) : list int :=
  match s with
  | EmptyString => []
  | String c r => int_of_ascii c :: bytes_of r
  end.

Fixpoint int_of_nat (n : nat) : int :=
  match n with
  | O => 0
  | S k => add 1 (int_of_nat k)
  end.

Definition byte_at (x : int) (shift : int) : int := land (lsr x shift) 0xFF.

Definition be_bytes4 (x : int) : list int :=
  [byte_at x 24; byte_at x 16; byte_at x 8; byte_at x 0].

Definition be_bytes8 (x : int) : list int :=
  [byte_at x 56; byte_at x 48; byte_at x 40; byte_at x 32] ++ be_bytes4 x.

(** Padding: 0x80, zeros up to 56 mod 64, then the bit length on 8 bytes. *)
Definition pad (msg : list int) : list int :=
  let len := length msg in
  let zeros := ((119 - len mod 64) mod 64)%nat in
  msg ++ 0x80 :: repeat 0 zeros ++ be_bytes8 (mul 8 (int_of_nat len)).

Fixpoint words_of (fuel : nat) (bs : list int) : list int :=
  match fuel, bs with
  | S f, b0 :: b1 :: b2 :: b3 :: r =>
      lor (lor (lsl b0 24) (lsl b1 16)) (lor (lsl b2 8) b3) :: words_of f r
  | _, _ => []
  end.

Fixpoint blocks_of (fuel : nat) (ws : list int) : list (list int) :=
  match fuel, ws with
  | S f, _ :: _ => firstn 16 ws :: blocks_of f (skipn 16 ws)
  | _, _ => []
  end.

Definition digest (msg : list int) : state :=
  let p := pad msg in
  let ws := words_of (length p) p in
  fold_left compress (blocks_of (length ws) ws) H0.

Definition state_bytes (s : state) : list int :=
  be_bytes4 (sa s) ++ be_bytes4 (sb s) ++ be_bytes4 (sc s) ++ be_bytes4 (sd s) ++
  be_bytes4 (se s) ++ be_bytes4 (sf s) ++ be_bytes4 (sg s) ++ be_bytes4 (sh s).

Definition hex_digits : list ascii :=
  list_ascii_of_string "0123456789abcdef".

Fixpoint pick (ds : list ascii) (i d : int) : ascii :=
  match ds with
  | [] => "0"%char
  | c :: r => if eqb i d then c else pick r (add i 1) d
  end.

Definition hex_digit (x shift : int) : ascii :=
  pick hex_digits 0 (land (lsr x shift) 15).

(** WordArray.toString(): lower-case hexadecimal, eight digits per word. *)
Definition hex_word (x : int) (rest : string) : string :=
  String (hex_digit x 28) (String (hex_digit x 24)
 (String (hex_digit x 20) (String (hex_digit x 16)
 (String (hex_digit x 12) (String (hex_digit x 8)
 (String (hex_digit x 4) (String (hex_digit x 0) rest))))))).

Definition hex_state (s : state) : string :=
  hex_word (sa s) (hex_word (sb s) (hex_word (sc s) (hex_word (sd s)
 (hex_word (se s) (hex_word (sf s) (hex_word (sg s) (hex_word (sh s) ""))))))).

(** [crypto.SHA256(message).toString()] *)
Definition SHA256 (message : string) : string :=
  hex_state (digest (bytes_of message)).

(** A key longer than one block is hashed first; then it is zero-padded. *)
Definition hmac_key (key : list int) : list int :=
  let k := if Nat.ltb 64 (length key) then state_bytes (digest key) else key in
  k ++ repeat 0 (64 - length k)%nat.

(** [crypto.HmacSHA256(message, key).toString()] *)
Definition HmacSHA256 (message key : string) : string :=
  let k := hmac_key (bytes_of key) in
  let ipad := map (fun b => lxor b 0x36) k in
  let opad := map (fun b => lxor b 0x5c) k in
  hex_state (digest (opad ++ state_bytes (digest (ipad ++ bytes_of message)))).

End CryptoJS.

(* ===================================================================== *)
(** ** The JavaScript runtime, as far as the ledger relies on it        *)
(* ===================================================================== *)

Module JS.

(** How a call ends: it returns, it throws [new Error(msg)], or (for the
    proof-of-work search only) the fuel given to the model ran out before
    the loop did. *)
Inductive Completion (A : Type) : Type :=
| Normal (a : A)
| Throw (msg : string)
| OutOfFuel.
Arguments Normal {A} a.
Arguments Throw {A} msg.
Arguments OutOfFuel {A}.

(** Truthiness of a string-or-null and of a number-or-undefined. *)
Definition truthy_str (o : option string) : bool :=
  match o with
  | Some s => negb (String.eqb s "")
  | None => false
  end.

Definition truthy_num (o : option Z) : bool :=
  match o with
  | Some n => negb (n =? 0)
  | None => false
  end.

(** [o || ''] *)
Definition or_empty (o : option string) : string :=
  match o with
  | Some s => s
  | None => ""
  end.

(** Number::toString on an integer: the plain decimal numeral, which is
    what JavaScript prints below 10^21 in magnitude (from there on it
    prints an exponent). *)
Definition Number_toString (n : Z) : string := NilZero.string_of_int (Z.to_int n).

(** ToString of a string-or-null operand of [+]. *)
Definition String_of (o : option string) : string :=
  match o with
  | Some s => s
  | None => "null"
  end.

(** [Array(n + 1).join("0")]: [n] zeros; an array length that is negative
    or above 2^32 - 1 is a RangeError. *)
Definition zeros (n : Z) : Completion string :=
  if (n + 1 <? 0) || (4294967295 <? n + 1) then Throw "Invalid array length"
  else Normal (string_of_list_ascii (repeat "0"%char (Z.to_nat n))).

(** [s.substring(0, n)] *)
Definition substring0 (n : Z) (s : string) : string := String.substring 0 (Z.to_nat n) s.

(** The result of a division of two finite numbers. *)
Inductive number : Type :=
| Finite (q : Q)
| PosInfinity
| NegInfinity
| NaN.

Definition div (a b : Q) : number :=
  if Qeq_bool b 0 then
    match Qcompare a 0 with
    | Gt => PosInfinity
    | Lt => NegInfinity
    | Eq => NaN
    end
  else Finite (a / b)%Q.

Definition Qlt_bool (a b : Q) : bool := negb (Qle_bool b a).

(** [x < c] and [x > c] for a finite constant [c]; false on NaN. *)
Definition lt (x : number) (c : Q) : bool :=
  match x with
  | Finite q => Qlt_bool q c
  | NegInfinity => true
  | PosInfinity | NaN => false
  end.

Definition gt (x : number) (c : Q) : bool :=
  match x with
  | Finite q => Qlt_bool c q
  | PosInfinity => true
  | NegInfinity | NaN => false
  end.

(** *** JSON.stringify *)

Definition hex4 (n : N) : ascii :=
  match nth_error (list_ascii_of_string "0123456789abcdef") (N.to_nat n) with
  | Some c => c
  | None => "0"%char
  end.

Definition dquote : string := String (ascii_of_nat 34) "".

(** QuoteJSONString, one character at a time. *)
Definition escape_char (c : ascii) : string :=
  let n := N_of_ascii c in
  if (n =? 34)%N then String "\" dquote
  else if (n =? 92)%N then "\\"
  else if (n =? 8)%N then "\b"
  else if (n =? 9)%N then "\t"
  else if (n =? 10)%N then "\n"
  else if (n =? 12)%N then "\f"
  else if (n =? 13)%N then "\r"
  else if (n <? 32)%N then
    String "\" (String "u" (String "0" (String "0"
      (String (hex4 (n / 16)) (String (hex4 (n mod 16)) "")))))
  else String c "".

Fixpoint escape (s : string) : string :=
  match s with
  | EmptyString => ""
  | String c r => escape_char c ++ escape r
  end.

Definition JSON_string (s : string) : string := dquote ++ escape s ++ dquote.

(** The inverse reading, used to tell two serialisations apart: the text
    up to the closing quote, unescaped, and what follows the quote. *)
Definition hex_value (c : ascii) : option N :=
  let n := N_of_ascii c in
  if ((48 <=? n) && (n <=? 57))%N then Some (n - 48)%N
  else if ((97 <=? n) && (n <=? 102))%N then Some (n - 87)%N
  else None.

Definition push (c : ascii) (p : option (string * string)) : option (string * string) :=
  (fun '(body, after) => (String c body, after)) <$> p.

Fixpoint unquote (s : string) : option (string * string) :=
  match s with
  | EmptyString => None
  | String c r =>
      if (N_of_ascii c =? 34)%N then Some ("", r)
      else if (N_of_ascii c =? 92)%N then
        match r with
        | String d r' =>
            let n := N_of_ascii d in
            if (n =? 34)%N then push d (unquote r')
            else if (n =? 92)%N then push d (unquote r')
            else if (n =? 98)%N then push (ascii_of_N 8) (unquote r')
            else if (n =? 116)%N then push (ascii_of_N 9) (unquote r')
            else if (n =? 110)%N then push (ascii_of_N 10) (unquote r')
            else if (n =? 102)%N then push (ascii_of_N 12) (unquote r')
            else if (n =? 114)%N then push (ascii_of_N 13) (unquote r')
            else if (n =? 117)%N then
              match r' with
              | String _ (String _ (String h1 (String h2 r''))) =>
                  match hex_value h1, hex_value h2 with
                  | Some a, Some b => push (ascii_of_N (16 * a + b)) (unquote r'')
                  | _, _ => None
                  end
              | _ => None
              end
            else None
        | EmptyString => None
        end
      else push c (unquote r)
  end.

Definition JSON_string_or_null (o : option string) : string :=
  match o with
  | Some s => JSON_string s
  | None => "null"
  end.

Fixpoint join (sep : string) (l : list string) : string :=
  match l with
  | [] => ""
  | [x] => x
  | x :: r => x ++ sep ++ join sep r
  end.

Definition JSON_array (items : list string) : string := "[" ++ join "," items ++ "]".

(** A non-finite number is serialised as [null]; the digits of a finite
    one that is not an integer are those of the engine's shortest
    round-trip printing, which the caller supplies. *)
Definition JSON_number (fmt : Q -> string) (x : number) : string :=
  match x with
  | Finite q => fmt q
  | _ => "null"
  end.

End JS.

(* ===================================================================== *)
(** ** class Transaction                                                  *)
(* ===================================================================== *)

Module Transaction.

Record t : Type := mk {
  id : string;
  from : option string;          (* null marks a system transaction *)
  to : option string;
  amount : Z;
  type : string;
  timestamp : Z;
  signature : option string
}.

(** [new Transaction(from, to, amount, type)]; [uuid] is what [uuidv4()]
    returns and [now] what [Date.now()] returns. *)
Definition new (uuid : string) (now : Z) (from to : option string) (amount : Z)
    (type : string) : t :=
  mk uuid from to amount type now None.

Definition set_from (v : option string) (tx : t) : t :=
  mk (id tx) v (to tx) (amount tx) (type tx) (timestamp tx) (signature tx).
Definition set_to (v : option string) (tx : t) : t :=
  mk (id tx) (from tx) v (amount tx) (type tx) (timestamp tx) (signature tx).
Definition set_signature (v : option string) (tx : t) : t :=
  mk (id tx) (from tx) (to tx) (amount tx) (type tx) (timestamp tx) v.

(** [this.from + this.to + this.amount + this.timestamp + this.type], left
    to right: as soon as one operand is a string the rest is concatenation;
    [null + null] is the number 0, so with both endpoints null the two
    numbers are added before the type is appended. *)
Definition fingerprint_input (tx : t) : string :=
  match from tx, to tx with
  | None, None => JS.Number_toString (0 + amount tx + timestamp tx) ++ type tx
  | f, o =>
      JS.String_of f ++ JS.String_of o ++ JS.Number_toString (amount tx)
        ++ JS.Number_toString (timestamp tx) ++ type tx
  end.

Definition calculateHash (tx : t) : string := CryptoJS.SHA256 (fingerprint_input tx).

Definition signTransaction (signingKey : string) (tx : t) : t :=
  let hashTx := calculateHash tx in
  set_signature (Some (CryptoJS.HmacSHA256 hashTx signingKey)) tx.

Definition MissingSignature : string := "No signature in this transaction".

Definition isValid (tx : t) : JS.Completion bool :=
  match from tx with
  | None => JS.Normal true
  | Some sender =>
      match signature tx with
      | None => JS.Throw MissingSignature
      | Some sig =>
          if String.eqb sig "" then JS.Throw MissingSignature
          else
            let hashTx := calculateHash tx in
            let expectedSignature := CryptoJS.HmacSHA256 hashTx sender in
            JS.Normal (String.eqb sig expectedSignature)
      end
  end.

(** JSON.stringify of a transaction: own properties in creation order. *)
Definition toJSON (tx : t) : string :=
  "{" ++ JS.JSON_string "id" ++ ":" ++ JS.JSON_string (id tx)
  ++ "," ++ JS.JSON_string "from" ++ ":" ++ JS.JSON_string_or_null (from tx)
  ++ "," ++ JS.JSON_string "to" ++ ":" ++ JS.JSON_string_or_null (to tx)
  ++ "," ++ JS.JSON_string "amount" ++ ":" ++ JS.Number_toString (amount tx)
  ++ "," ++ JS.JSON_string "type" ++ ":" ++ JS.JSON_string (type tx)
  ++ "," ++ JS.JSON_string "timestamp" ++ ":" ++ JS.Number_toString (timestamp tx)
  ++ "," ++ JS.JSON_string "signature" ++ ":" ++ JS.JSON_string_or_null (signature tx)
  ++ "}".

End Transaction.

(* ===================================================================== *)
(** ** class Block                                                        *)
(* ===================================================================== *)

Module Block.

Record t : Type := mk {
  timestamp : Z;
  transactions : list Transaction.t;
  previousHash : string;
  hash : string;
  nonce : Z;
  miner : option string;
  reward : Z;
  (* attached by minePendingTransactions, absent before *)
  miningTime : option Z;
  hashRate : option JS.number
}.

Definition set_hash (v : string) (b : t) : t :=
  mk (timestamp b) (transactions b) (previousHash b) v (nonce b) (miner b) (reward b)
     (miningTime b) (hashRate b).
Definition set_nonce (v : Z) (b : t) : t :=
  mk (timestamp b) (transactions b) (previousHash b) (hash b) v (miner b) (reward b)
     (miningTime b) (hashRate b).
Definition set_miner (v : option string) (b : t) : t :=
  mk (timestamp b) (transactions b) (previousHash b) (hash b) (nonce b) v (reward b)
     (miningTime b) (hashRate b).
Definition set_reward (v : Z) (b : t) : t :=
  mk (timestamp b) (transactions b) (previousHash b) (hash b) (nonce b) (miner b) v
     (miningTime b) (hashRate b).
Definition set_stats (mt : Z) (hr : JS.number) (b : t) : t :=
  mk (timestamp b) (transactions b) (previousHash b) (hash b) (nonce b) (miner b) (reward b)
     (Some mt) (Some hr).

Definition JSON_transactions (txs : list Transaction.t) : string :=
  JS.JSON_array (map Transaction.toJSON txs).

(** The string that calculateHash digests.  [nonce = None] is the
    property still being undefined, which [+] prints as "undefined". *)
Definition hash_input (previousHash : string) (timestamp : Z)
    (transactions : list Transaction.t) (nonce : option Z) (miner : option string) : string :=
  previousHash ++ JS.Number_toString timestamp ++ JSON_transactions transactions
  ++ match nonce with Some n => JS.Number_toString n | None => "undefined" end
  ++ JS.or_empty miner.

Definition calculateHash (b : t) : string :=
  CryptoJS.SHA256
    (hash_input (previousHash b) (timestamp b) (transactions b) (Some (nonce b)) (miner b)).

(** The constructor calls calculateHash before it assigns nonce and miner. *)
Definition new (timestamp : Z) (transactions : list Transaction.t) (previousHash : string) : t :=
  mk timestamp transactions previousHash
     (CryptoJS.SHA256 (hash_input previousHash timestamp transactions None None))
     0 None 0 None None.

(** The while loop of mineBlock; [None] when [fuel] iterations did not
    reach a hash with the wanted prefix. *)
Fixpoint search (fuel : nat) (difficulty : Z) (target : string) (b : t) : option t :=
  if String.eqb (JS.substring0 difficulty (hash b)) target then Some b
  else
    match fuel with
    | O => None
    | S fuel' =>
        let b1 := set_nonce (nonce b + 1) b in
        let b2 := set_hash (calculateHash b1) b1 in
        search fuel' difficulty target b2
    end.

Definition mineBlock (fuel : nat) (difficulty : Z) (minerAddress : string) (b : t)
    : JS.Completion t :=
  match JS.zeros difficulty with
  | JS.Normal target =>
      match search fuel difficulty target b with
      | Some b' => JS.Normal (set_reward 10 (set_miner (Some minerAddress) b'))
      | None => JS.OutOfFuel
      end
  | JS.Throw msg => JS.Throw msg
  | JS.OutOfFuel => JS.OutOfFuel
  end.

Fixpoint all_valid (txs : list Transaction.t) : JS.Completion bool :=
  match txs with
  | [] => JS.Normal true
  | tx :: rest =>
      match Transaction.isValid tx with
      | JS.Normal true => all_valid rest
      | JS.Normal false => JS.Normal false
      | JS.Throw msg => JS.Throw msg
      | JS.OutOfFuel => JS.OutOfFuel
      end
  end.

Definition hasValidTransactions (b : t) : JS.Completion bool := all_valid (transactions b).

(** JSON.stringify of a block: own properties in creation order. *)
Definition toJSON (fmt : Q -> string) (b : t) : string :=
  "{" ++ JS.JSON_string "timestamp" ++ ":" ++ JS.Number_toString (timestamp b)
  ++ "," ++ JS.JSON_string "transactions" ++ ":" ++ JSON_transactions (transactions b)
  ++ "," ++ JS.JSON_string "previousHash" ++ ":" ++ JS.JSON_string (previousHash b)
  ++ "," ++ JS.JSON_string "hash" ++ ":" ++ JS.JSON_string (hash b)
  ++ "," ++ JS.JSON_string "nonce" ++ ":" ++ JS.Number_toString (nonce b)
  ++ "," ++ JS.JSON_string "miner" ++ ":" ++ JS.JSON_string_or_null (miner b)
  ++ "," ++ JS.JSON_string "reward" ++ ":" ++ JS.Number_toString (reward b)
  ++ match miningTime b with
     | Some mt => "," ++ JS.JSON_string "miningTime" ++ ":" ++ JS.Number_toString mt
     | None => ""
     end
  ++ match hashRate b with
     | Some hr => "," ++ JS.JSON_string "hashRate" ++ ":" ++ JS.JSON_number fmt hr
     | None => ""
     end
  ++ "}".

End Block.

(* ===================================================================== *)
(** ** class Blockchain                                                   *)
(* ===================================================================== *)

(** A JS [Map] with string keys, in insertion order (the order in which
    [entries()] iterates). *)
Module JSMap.

Definition t (V : Type) : Type := list (string * V).

Definition get {V} (k : string) (m : t V) : option V :=
  snd <$> find (fun kv => String.eqb (fst kv) k) m.

Definition has {V} (k : string) (m : t V) : bool :=
  match get k m with Some _ => true | None => false end.

(** [set] keeps the position of a key that is already there. *)
Fixpoint set {V} (k : string) (v : V) (m : t V) : t V :=
  match m with
  | [] => [(k, v)]
  | (k', v') :: r => if String.eqb k' k then (k, v) :: r else (k', v') :: set k v r
  end.

End JSMap.

Module Account.
Record t : Type := mk {
  address : string;
  alias : option string;
  balance : Z;                         (* written once as 0, never read *)
  transactions : list Transaction.t;   (* written once as [], never read *)
  createdAt : Z
}.
End Account.

Module Miner.
Record t : Type := mk {
  address : string;
  alias : option string;
  hashPower : Q;
  isActive : bool;
  joinedAt : Z;
  blocksMined : Z;
  totalRewards : Z
}.
End Miner.

Module MiningStats.
Record t : Type := mk {
  totalBlocksMined : Z;
  totalRewardsPaid : Z;
  averageMiningTime : Z;
  networkHashRate : Z
}.
End MiningStats.

Module Blockchain.

Record t : Type := mk {
  chain : list Block.t;
  difficulty : Z;
  pendingTransactions : list Transaction.t;
  miningReward : Z;
  accounts : JSMap.t Account.t;
  targetBlockTime : Z;
  difficultyAdjustmentInterval : Z;
  faucetAmount : Z;
  faucetCooldown : Z;
  faucetHistory : gmap string Z;
  faucetAddress : string;
  autoMining : bool;
  miners : list Miner.t;
  miningInterval : option Z;
  minTransactionsToMine : Z;
  maxBlockTime : Z;
  lastBlockTime : Z;
  miningStats : MiningStats.t;
  autoMineInterval : option Z
}.

Definition set_chain (v : list Block.t) (bc : t) : t :=
  mk v (difficulty bc) (pendingTransactions bc) (miningReward bc) (accounts bc)
     (targetBlockTime bc) (difficultyAdjustmentInterval bc) (faucetAmount bc)
     (faucetCooldown bc) (faucetHistory bc) (faucetAddress bc) (autoMining bc) (miners bc)
     (miningInterval bc) (minTransactionsToMine bc) (maxBlockTime bc) (lastBlockTime bc)
     (miningStats bc) (autoMineInterval bc).
Definition set_difficulty (v : Z) (bc : t) : t :=
  mk (chain bc) v (pendingTransactions bc) (miningReward bc) (accounts bc)
     (targetBlockTime bc) (difficultyAdjustmentInterval bc) (faucetAmount bc)
     (faucetCooldown bc) (faucetHistory bc) (faucetAddress bc) (autoMining bc) (miners bc)
     (miningInterval bc) (minTransactionsToMine bc) (maxBlockTime bc) (lastBlockTime bc)
     (miningStats bc) (autoMineInterval bc).
Definition set_pendingTransactions (v : list Transaction.t) (bc : t) : t :=
  mk (chain bc) (difficulty bc) v (miningReward bc) (accounts bc) (targetBlockTime bc)
     (difficultyAdjustmentInterval bc) (faucetAmount bc) (faucetCooldown bc)
     (faucetHistory bc) (faucetAddress bc) (autoMining bc) (miners bc) (miningInterval bc)
     (minTransactionsToMine bc) (maxBlockTime bc) (lastBlockTime bc) (miningStats bc)
     (autoMineInterval bc).
Definition set_accounts (v : JSMap.t Account.t) (bc : t) : t :=
  mk (chain bc) (difficulty bc) (pendingTransactions bc) (miningReward bc) v
     (targetBlockTime bc) (difficultyAdjustmentInterval bc) (faucetAmount bc)
     (faucetCooldown bc) (faucetHistory bc) (faucetAddress bc) (autoMining bc) (miners bc)
     (miningInterval bc) (minTransactionsToMine bc) (maxBlockTime bc) (lastBlockTime bc)
     (miningStats bc) (autoMineInterval bc).
Definition set_faucetHistory (v : gmap string Z) (bc : t) : t :=
  mk (chain bc) (difficulty bc) (pendingTransactions bc) (miningReward bc) (accounts bc)
     (targetBlockTime bc) (difficultyAdjustmentInterval bc) (faucetAmount bc)
     (faucetCooldown bc) v (faucetAddress bc) (autoMining bc) (miners bc) (miningInterval bc)
     (minTransactionsToMine bc) (maxBlockTime bc) (lastBlockTime bc) (miningStats bc)
     (autoMineInterval bc).
Definition set_autoMining (v : bool) (bc : t) : t :=
  mk (chain bc) (difficulty bc) (pendingTransactions bc) (miningReward bc) (accounts bc)
     (targetBlockTime bc) (difficultyAdjustmentInterval bc) (faucetAmount bc)
     (faucetCooldown bc) (faucetHistory bc) (faucetAddress bc) v (miners bc)
     (miningInterval bc) (minTransactionsToMine bc) (maxBlockTime bc) (lastBlockTime bc)
     (miningStats bc) (autoMineInterval bc).
Definition set_miners (v : list Miner.t) (bc : t) : t :=
  mk (chain bc) (difficulty bc) (pendingTransactions bc) (miningReward bc) (accounts bc)
     (targetBlockTime bc) (difficultyAdjustmentInterval bc) (faucetAmount bc)
     (faucetCooldown bc) (faucetHistory bc) (faucetAddress bc) (autoMining bc) v
     (miningInterval bc) (minTransactionsToMine bc) (maxBlockTime bc) (lastBlockTime bc)
     (miningStats bc) (autoMineInterval bc).
Definition set_miningInterval (v : option Z) (bc : t) : t :=
  mk (chain bc) (difficulty bc) (pendingTransactions bc) (miningReward bc) (accounts bc)
     (targetBlockTime bc) (difficultyAdjustmentInterval bc) (faucetAmount bc)
     (faucetCooldown bc) (faucetHistory bc) (faucetAddress bc) (autoMining bc) (miners bc) v
     (minTransactionsToMine bc) (maxBlockTime bc) (lastBlockTime bc) (miningStats bc)
     (autoMineInterval bc).
Definition set_minTransactionsToMine (v : Z) (bc : t) : t :=
  mk (chain bc) (difficulty bc) (pendingTransactions bc) (miningReward bc) (accounts bc)
     (targetBlockTime bc) (difficultyAdjustmentInterval bc) (faucetAmount bc)
     (faucetCooldown bc) (faucetHistory bc) (faucetAddress bc) (autoMining bc) (miners bc)
     (miningInterval bc) v (maxBlockTime bc) (lastBlockTime bc) (miningStats bc)
     (autoMineInterval bc).
Definition set_maxBlockTime (v : Z) (bc : t) : t :=
  mk (chain bc) (difficulty bc) (pendingTransactions bc) (miningReward bc) (accounts bc)
     (targetBlockTime bc) (difficultyAdjustmentInterval bc) (faucetAmount bc)
     (faucetCooldown bc) (faucetHistory bc) (faucetAddress bc) (autoMining bc) (miners bc)
     (miningInterval bc) (minTransactionsToMine bc) v (lastBlockTime bc) (miningStats bc)
     (autoMineInterval bc).
Definition set_lastBlockTime (v : Z) (bc : t) : t :=
  mk (chain bc) (difficulty bc) (pendingTransactions bc) (miningReward bc) (accounts bc)
     (targetBlockTime bc) (difficultyAdjustmentInterval bc) (faucetAmount bc)
     (faucetCooldown bc) (faucetHistory bc) (faucetAddress bc) (autoMining bc) (miners bc)
     (miningInterval bc) (minTransactionsToMine bc) (maxBlockTime bc) v (miningStats bc)
     (autoMineInterval bc).
Definition set_miningStats (v : MiningStats.t) (bc : t) : t :=
  mk (chain bc) (difficulty bc) (pendingTransactions bc) (miningReward bc) (accounts bc)
     (targetBlockTime bc) (difficultyAdjustmentInterval bc) (faucetAmount bc)
     (faucetCooldown bc) (faucetHistory bc) (faucetAddress bc) (autoMining bc) (miners bc)
     (miningInterval bc) (minTransactionsToMine bc) (maxBlockTime bc) (lastBlockTime bc) v
     (autoMineInterval bc).
Definition set_autoMineInterval (v : option Z) (bc : t) : t :=
  mk (chain bc) (difficulty bc) (pendingTransactions bc) (miningReward bc) (accounts bc)
     (targetBlockTime bc) (difficultyAdjustmentInterval bc) (faucetAmount bc)
     (faucetCooldown bc) (faucetHistory bc) (faucetAddress bc) (autoMining bc) (miners bc)
     (miningInterval bc) (minTransactionsToMine bc) (maxBlockTime bc) (lastBlockTime bc)
     (miningStats bc) v.

(** *** The monad of a method body: it reads and writes [this], and it
    may throw; what was written before a throw stays written. *)

Definition M (A : Type) : Type := t -> JS.Completion A * t.

Definition ret {A} (a : A) : M A := fun bc => (JS.Normal a, bc).
Definition throw {A} (msg : string) : M A := fun bc => (JS.Throw msg, bc).
Definition bind {A B} (m : M A) (k : A -> M B) : M B :=
  fun bc =>
    match m bc with
    | (JS.Normal a, bc') => k a bc'
    | (JS.Throw msg, bc') => (JS.Throw msg, bc')
    | (JS.OutOfFuel, bc') => (JS.OutOfFuel, bc')
    end.
Definition this : M t := fun bc => (JS.Normal bc, bc).
Definition update (f : t -> t) : M unit := fun bc => (JS.Normal tt, f bc).
Definition lift {A} (c : JS.Completion A) : M A := fun bc => (c, bc).

Notation "x <- m ;; k" := (bind m (fun x => k))
  (at level 100, m at next level, right associativity).
Notation "m ;;; k" := (bind m (fun _ => k))
  (at level 100, right associativity).

(** A method that reports [{ success: true, ... }] or
    [{ success: false, error }]. *)
Inductive Reply (A : Type) : Type :=
| Success (a : A)
| Failure (error : string).
Arguments Success {A} a.
Arguments Failure {A} error.

(** [Date.parse("2024-01-01")] *)
Definition genesis_time : Z := 1704067200000.

Definition createGenesisBlock (uuid : string) (now : Z) : Block.t :=
  let genesisTransaction := Transaction.new uuid now None (Some "genesis") 1000000 "genesis" in
  Block.new genesis_time [genesisTransaction] "0".

(** [new Blockchain()]: [uuid] and [now] go to the genesis transaction,
    [now'] is the later [Date.now()] stored in lastBlockTime. *)
Definition new (uuid : string) (now now' : Z) : t :=
  mk [createGenesisBlock uuid now] 2 [] 10 [] 10000 5 100 (24 * 60 * 60 * 1000) ∅ "genesis"
     false [] None 1 30000 now' (MiningStats.mk 0 0 0 0) None.

(** [this.chain[this.chain.length - 1]], undefined on an empty chain. *)
Definition getLatestBlock (bc : t) : option Block.t := last (chain bc).

(** [timestamp] is [Date.now()] and [randomBytes] is
    [Math.random().toString(36).substring(2)]. *)
Definition generateAddress (alias : string) (timestamp : Z) (randomBytes : string) : string :=
  let input := (if String.eqb alias "" then "account" else alias)
               ++ "_" ++ JS.Number_toString timestamp ++ "_" ++ randomBytes in
  let hash := CryptoJS.SHA256 input in
  "0x" ++ String.substring 0 40 hash.

(** [createAccount(aliasOrAddress, isAlias)].  [now] and [randomBytes] are
    consumed by generateAddress (only when [isAlias]); [now'] is createdAt. *)
Definition createAccount (aliasOrAddress : string) (isAlias : bool)
    (now : Z) (randomBytes : string) (now' : Z) : M (Reply (string * option string)) :=
  let '(address, alias) :=
    if isAlias then (generateAddress aliasOrAddress now randomBytes, Some aliasOrAddress)
    else (aliasOrAddress, None) in
  bc <- this ;;
  if negb (JSMap.has address (accounts bc)) then
    update (set_accounts (JSMap.set address (Account.mk address alias 0 [] now') (accounts bc))) ;;;
    ret (Success (address, alias))
  else ret (Failure "Account already exists").

Definition findAccount (aliasOrAddress : string) (bc : t) : option Account.t :=
  if JSMap.has aliasOrAddress (accounts bc) then JSMap.get aliasOrAddress (accounts bc)
  else
    snd <$> find (fun kv => bool_decide (Account.alias (snd kv) = Some aliasOrAddress))
                 (accounts bc).

Definition resolveAddress (aliasOrAddress : string) (bc : t) : string :=
  match findAccount aliasOrAddress bc with
  | Some account => Account.address account
  | None => aliasOrAddress
  end.

(** The inner loop of getAccountBalance over one block's transactions. *)
Definition tx_effect (address : string) (balance : Z) (trans : Transaction.t) : Z :=
  let balance := if bool_decide (Transaction.from trans = Some address)
                 then balance - Transaction.amount trans else balance in
  if bool_decide (Transaction.to trans = Some address)
  then balance + Transaction.amount trans else balance.

Definition block_effect (address : string) (balance : Z) (block : Block.t) : Z :=
  let balance := fold_left (tx_effect address) (Block.transactions block) balance in
  if bool_decide (Block.miner block = Some address) then balance + Block.reward block
  else balance.

(** [getAccountBalance(aliasOrAddress)].  The amounts are whole numbers,
    added exactly; the code adds doubles, which is the same while every
    sum stays within 2^53 in magnitude. *)
Definition getAccountBalance (aliasOrAddress : string) (bc : t) : Z :=
  let address := resolveAddress aliasOrAddress bc in
  if negb (JSMap.has address (accounts bc)) then 0
  else fold_left (block_effect address) (chain bc) 0.

Definition MissingAddress : string := "Transaction must include from and to address".
Definition UnknownAccount : string := "Invalid account address".
Definition InsufficientBalance : string := "Not enough balance".
Definition InvalidMinerAddress : string := "Invalid miner address".
Definition FaucetEmpty : string := "Faucet is empty, please contact administrator".

(** [createTransaction(transaction)].  The method returns nothing; the
    model returns the caller's transaction object as the call leaves it. *)
Definition createTransaction (transaction : Transaction.t) : M Transaction.t :=
  if negb (JS.truthy_str (Transaction.from transaction))
     || negb (JS.truthy_str (Transaction.to transaction))
  then throw MissingAddress
  else
    let from := JS.or_empty (Transaction.from transaction) in
    let to := JS.or_empty (Transaction.to transaction) in
    bc <- this ;;
    let fromAddress := resolveAddress from bc in
    let toAddress := resolveAddress to bc in
    if negb (JSMap.has fromAddress (accounts bc)) || negb (JSMap.has toAddress (accounts bc))
    then throw UnknownAccount
    else
      let balance := getAccountBalance from bc in
      if balance <? Transaction.amount transaction then throw InsufficientBalance
      else
        let transaction := Transaction.set_from (Some fromAddress) transaction in
        let transaction := Transaction.set_to (Some toAddress) transaction in
        let transaction := Transaction.signTransaction fromAddress transaction in
        update (set_pendingTransactions (pendingTransactions bc ++ [transaction])) ;;;
        ret transaction.

(** *** Difficulty retargeting *)

Definition TypeError : string := "Cannot read properties of undefined".

(** [this.chain[i]] for a JS index [i]. *)
Definition chain_at (i : Z) (bc : t) : option Block.t :=
  if i <? 0 then None else chain bc !! Z.to_nat i.

(** The for loop of adjustDifficulty over chain[first .. length-1]:
    (totalMiningTime, count). *)
Definition window_totals (window : list Block.t) : Z * Z :=
  fold_left
    (fun '(totalMiningTime, count) block =>
       if JS.truthy_num (Block.miningTime block)
       then (totalMiningTime + default 0 (Block.miningTime block), count + 1)
       else (totalMiningTime, count))
    window (0, 0).

(** The durations that the loop counts: those on record and not zero,
    in chain order. *)
Definition counted_durations (window : list Block.t) : list Z :=
  filter (fun d => d <> 0) (omap Block.miningTime window).

Definition adjustDifficulty : M unit :=
  bc <- this ;;
  let len := Z.of_nat (length (chain bc)) in
  if len <? difficultyAdjustmentInterval bc then ret tt
  else
    let first := len - difficultyAdjustmentInterval bc in
    match chain_at first bc, getLatestBlock bc with
    | Some adjustmentBlock, Some lastBlock =>
        if negb (JS.truthy_num (Block.miningTime adjustmentBlock))
           || negb (JS.truthy_num (Block.miningTime lastBlock))
        then ret tt
        else
          let '(totalMiningTime, count) := window_totals (drop (Z.to_nat first) (chain bc)) in
          if count =? 0 then ret tt
          else
            let averageMiningTime := (inject_Z totalMiningTime / inject_Z count)%Q in
            let timeRatio := JS.div averageMiningTime (inject_Z (targetBlockTime bc)) in
            if JS.lt timeRatio (1 # 2) then update (set_difficulty (difficulty bc + 1))
            else if JS.gt timeRatio 2 then update (set_difficulty (Z.max 1 (difficulty bc - 1)))
            else ret tt
    | _, _ => throw TypeError
    end.

(** *** Mining *)

(** [fuel] bounds the proof-of-work loop; [now] is the block's timestamp,
    [startTime] and [endTime] the two clock readings around mineBlock. *)
Definition minePendingTransactions (fuel : nat) (miningRewardAddress : string)
    (now startTime endTime : Z) : M unit :=
  bc <- this ;;
  let resolvedAddress := resolveAddress miningRewardAddress bc in
  if negb (JSMap.has resolvedAddress (accounts bc)) then throw InvalidMinerAddress
  else
    adjustDifficulty ;;;
    bc <- this ;;
    match getLatestBlock bc with
    | None => throw TypeError
    | Some latest =>
        let block := Block.new now (pendingTransactions bc) (Block.hash latest) in
        block <- lift (Block.mineBlock fuel (difficulty bc) resolvedAddress block) ;;
        let miningTime := endTime - startTime in
        let hashRate :=
          JS.div (inject_Z (Block.nonce block)) (inject_Z miningTime / 1000)%Q in
        let block := Block.set_stats miningTime hashRate block in
        update (set_chain (chain bc ++ [block])) ;;;
        update (set_pendingTransactions [])
    end.

(** *** The mining scheduler.  The class body defines startAutoMining,
    stopAutoMining, addMiner, removeMiner and startMiningCompetition
    twice; a later method definition replaces the earlier one, so the
    second definitions are the ones modelled. *)

Record Config : Type := mkConfig {
  cfg_autoMineInterval : option Z;
  cfg_minTransactionsToMine : option Z;
  cfg_maxBlockTime : option Z
}.

(** [x || d] for a number-or-undefined [x]. *)
Definition or_default (x : option Z) (d : Z) : Z :=
  if JS.truthy_num x then default d x else d.

Record StartedConfig : Type := mkStarted {
  started_autoMineInterval : Z;
  started_minTransactionsToMine : Z;
  started_maxBlockTime : Z;
  started_totalMiners : Z
}.

Definition startAutoMining (config : Config) : M (Reply StartedConfig) :=
  bc <- this ;;
  if autoMining bc then ret (Failure "Auto mining is already running")
  else
    let interval := or_default (cfg_autoMineInterval config) 10000 in
    let minTx := or_default (cfg_minTransactionsToMine config) 1 in
    let maxTime := or_default (cfg_maxBlockTime config) 30000 in
    update (set_autoMineInterval (Some interval)) ;;;
    update (set_minTransactionsToMine minTx) ;;;
    update (set_maxBlockTime maxTime) ;;;
    update (set_autoMining true) ;;;
    (* setInterval(..., this.autoMineInterval): the timer is armed *)
    update (set_miningInterval (Some interval)) ;;;
    bc <- this ;;
    ret (Success (mkStarted interval minTx maxTime (Z.of_nat (length (miners bc))))).

Definition stopAutoMining : M (Reply (Z * Z * Z)) :=
  bc <- this ;;
  if negb (autoMining bc) then ret (Failure "Auto mining is not running")
  else
    update (set_autoMining false) ;;;
    update (set_miningInterval None) ;;;
    ret (Success (MiningStats.totalBlocksMined (miningStats bc),
                  MiningStats.totalRewardsPaid (miningStats bc),
                  MiningStats.averageMiningTime (miningStats bc))).

(** [Math.max(0.1, Math.min(10.0, hashPower))] for a hashPower that is a
    number.  NaN, which Math.min and Math.max hand on, is not a value of
    the model. *)
Definition clamp_hashPower (hashPower : Q) : Q :=
  let m := if Qle_bool hashPower 10 then hashPower else 10%Q in
  if Qle_bool (1 # 10) m then m else (1 # 10)%Q.

Definition addMiner (minerAddress : string) (hashPower : Q) (now : Z) : M (Reply Miner.t) :=
  bc <- this ;;
  let resolvedAddress := resolveAddress minerAddress bc in
  if String.eqb resolvedAddress "" then ret (Failure "Address not found")
  else
    match find (fun m => String.eqb (Miner.address m) resolvedAddress) (miners bc) with
    | Some _ => ret (Failure "Address is already a miner")
    | None =>
        let alias :=
          match JSMap.get resolvedAddress (accounts bc) with
          | Some account =>
              if JS.truthy_str (Account.alias account) then Account.alias account else None
          | None => None
          end in
        let miner := Miner.mk resolvedAddress alias (clamp_hashPower hashPower) true now 0 0 in
        update (set_miners (miners bc ++ [miner])) ;;;
        ret (Success miner)
    end.

(** [findIndex] then [splice(index, 1)]: the first match is removed. *)
Fixpoint remove_first (address : string) (ms : list Miner.t) : option (list Miner.t) :=
  match ms with
  | [] => None
  | m :: r =>
      if String.eqb (Miner.address m) address then Some r
      else cons m <$> remove_first address r
  end.

Definition removeMiner (minerAddress : string) : M (Reply unit) :=
  bc <- this ;;
  let resolvedAddress := resolveAddress minerAddress bc in
  if String.eqb resolvedAddress "" then ret (Failure "Address not found")
  else
    match remove_first resolvedAddress (miners bc) with
    | None => ret (Failure "Address is not a miner")
    | Some rest => update (set_miners rest) ;;; ret (Success tt)
    end.

(** The weighted draw: the index of the first miner whose cumulative
    weight reaches [random].  The weights are added as exact rationals;
    the code adds doubles, whose rounding can move the draw to a
    neighbouring miner. *)
Fixpoint draw (random currentWeight : Q) (i : nat) (ms : list Miner.t) : option nat :=
  match ms with
  | [] => None
  | miner :: r =>
      let currentWeight := (currentWeight + Miner.hashPower miner)%Q in
      if Qle_bool random currentWeight then Some i else draw random currentWeight (S i) r
  end.

Definition credit (reward : Z) (m : Miner.t) : Miner.t :=
  Miner.mk (Miner.address m) (Miner.alias m) (Miner.hashPower m) (Miner.isActive m)
           (Miner.joinedAt m) (Miner.blocksMined m + 1) (Miner.totalRewards m + reward).

(** [rnd] is what [Math.random()] returns; the clock readings are those of
    minePendingTransactions. *)
Definition startMiningCompetition (fuel : nat) (rnd : Q) (now startTime endTime : Z)
    : M unit :=
  bc <- this ;;
  if (length (miners bc) =? 0)%nat then ret tt
  else if (length (pendingTransactions bc) =? 0)%nat then ret tt
  else
    let totalHashPower := fold_left (fun sum miner => (sum + Miner.hashPower miner)%Q)
                                    (miners bc) 0%Q in
    let random := (rnd * totalHashPower)%Q in
    match draw random 0 0 (miners bc) with
    | None => ret tt
    | Some i =>
        match miners bc !! i with
        | None => ret tt
        | Some winningMiner =>
            minePendingTransactions fuel (Miner.address winningMiner) now startTime endTime ;;;
            bc <- this ;;
            update (set_miners (alter (credit (miningReward bc)) i (miners bc))) ;;;
            bc <- this ;;
            let stats := miningStats bc in
            update (set_miningStats
                      (MiningStats.mk (MiningStats.totalBlocksMined stats + 1)
                                      (MiningStats.totalRewardsPaid stats + miningReward bc)
                                      (MiningStats.averageMiningTime stats)
                                      (MiningStats.networkHashRate stats)))
        end
    end.

(** The periodic check armed by startAutoMining; [clock] is its
    [Date.now()]. *)
Definition checkAndStartMining (fuel : nat) (clock : Z) (rnd : Q) (now startTime endTime : Z)
    : M unit :=
  bc <- this ;;
  if negb (autoMining bc) then ret tt
  else
    match getLatestBlock bc with
    | None => throw TypeError
    | Some lastBlock =>
        let timeSinceLastBlock := clock - Block.timestamp lastBlock in
        let hasEnoughTransactions :=
          minTransactionsToMine bc <=? Z.of_nat (length (pendingTransactions bc)) in
        let timeForced := maxBlockTime bc <=? timeSinceLastBlock in
        if hasEnoughTransactions || timeForced
        then startMiningCompetition fuel rnd now startTime endTime
        else ret tt
    end.

(** *** The faucet *)

Record FaucetCheck : Type := mkCheck {
  canUse : bool;
  reason : string;
  remainingTime : option Z
}.

(** [Math.ceil(a / b)] for integers [a] and [b > 0]. *)
Definition ceil_div (a b : Z) : Z := - ((- a) / b).

(** [clock] is the [Date.now()] read when a previous claim is on record. *)
Definition canUseFaucet (aliasOrAddress : string) (clock : Z) (bc : t) : FaucetCheck :=
  let address := resolveAddress aliasOrAddress bc in
  if negb (JSMap.has address (accounts bc)) then mkCheck false "Account not found" None
  else
    let lastUsedTime := faucetHistory bc !! address in
    if negb (JS.truthy_num lastUsedTime) then mkCheck true "First time use" None
    else
      let timeSinceLastUse := clock - default 0 lastUsedTime in
      if faucetCooldown bc <=? timeSinceLastUse then mkCheck true "Cooldown expired" None
      else
        let remainingTime := faucetCooldown bc - timeSinceLastUse in
        let hours := ceil_div remainingTime (60 * 60 * 1000) in
        mkCheck false
          ("Please wait " ++ JS.Number_toString hours ++ " hours before using faucet again")
          (Some remainingTime).

Record FaucetReceipt : Type := mkReceipt {
  receipt_amount : Z;
  receipt_transactionId : string;
  receipt_recipient : string
}.

(** [clock] is read by canUseFaucet, [uuid] and [now] by the new
    transaction, [now'] is the claim time written to the history. *)
Definition useFaucet (aliasOrAddress : string) (clock : Z) (uuid : string) (now now' : Z)
    : M FaucetReceipt :=
  bc <- this ;;
  let address := resolveAddress aliasOrAddress bc in
  let canUseResult := canUseFaucet aliasOrAddress clock bc in
  if negb (canUse canUseResult) then throw (reason canUseResult)
  else
    let faucetBalance := getAccountBalance (faucetAddress bc) bc in
    if faucetBalance <? faucetAmount bc then throw FaucetEmpty
    else
      let faucetTransaction :=
        Transaction.new uuid now (Some (faucetAddress bc)) (Some address)
                        (faucetAmount bc) "faucet" in
      update (set_faucetHistory (<[address := now']> (faucetHistory bc))) ;;;
      update (set_pendingTransactions (pendingTransactions bc ++ [faucetTransaction])) ;;;
      ret (mkReceipt (faucetAmount bc) (Transaction.id faucetTransaction) address).

(** *** Chain validation *)

(** The for loop of isChainValid from index i on; [previousBlock] is
    chain[i-1] and [rest] is chain[i..]. *)
Fixpoint check_links (previousBlock : Block.t) (rest : list Block.t) : JS.Completion bool :=
  match rest with
  | [] => JS.Normal true
  | currentBlock :: rest' =>
      if negb (String.eqb (Block.hash previousBlock) (Block.previousHash currentBlock))
      then JS.Normal false
      else
        match Block.hasValidTransactions currentBlock with
        | JS.Normal true =>
            if negb (String.eqb (Block.hash currentBlock) (Block.calculateHash currentBlock))
            then JS.Normal false
            else check_links currentBlock rest'
        | JS.Normal false => JS.Normal false
        | JS.Throw msg => JS.Throw msg
        | JS.OutOfFuel => JS.OutOfFuel
        end
  end.

(** [uuid] and [now] are consumed by the call to createGenesisBlock;
    [fmt] prints a non-integral number (see [JS.JSON_number]).
    JSON.stringify(undefined) is undefined, which no string equals. *)
Definition isChainValid (fmt : Q -> string) (uuid : string) (now : Z) (bc : t)
    : JS.Completion bool :=
  let realGenesis := Block.toJSON fmt (createGenesisBlock uuid now) in
  match chain bc with
  | [] => JS.Normal false
  | first :: rest =>
      if negb (String.eqb realGenesis (Block.toJSON fmt first)) then JS.Normal false
      else check_links first rest
  end.

(** *** Reachable ledgers: what the public mutators can produce from a
    new ledger.  A call whose proof-of-work search does not end has no
    state after it. *)

Definition finished {A} (r : JS.Completion A * t) : Prop :=
  match fst r with JS.OutOfFuel => False | _ => True end.

Inductive step (bc : t) : t -> Prop :=
| step_createAccount a isAlias now rnd now' :
    step bc (snd (createAccount a isAlias now rnd now' bc))
| step_createTransaction tx :
    step bc (snd (createTransaction tx bc))
| step_useFaucet a clock uuid now now' :
    step bc (snd (useFaucet a clock uuid now now' bc))
| step_minePendingTransactions fuel a now t0 t1 :
    finished (minePendingTransactions fuel a now t0 t1 bc) ->
    step bc (snd (minePendingTransactions fuel a now t0 t1 bc))
| step_addMiner a hp now :
    step bc (snd (addMiner a hp now bc))
| step_removeMiner a :
    step bc (snd (removeMiner a bc))
| step_startAutoMining config :
    step bc (snd (startAutoMining config bc))
| step_stopAutoMining :
    step bc (snd (stopAutoMining bc))
| step_startMiningCompetition fuel rnd now t0 t1 :
    finished (startMiningCompetition fuel rnd now t0 t1 bc) ->
    step bc (snd (startMiningCompetition fuel rnd now t0 t1 bc))
| step_checkAndStartMining fuel clock rnd now t0 t1 :
    finished (checkAndStartMining fuel clock rnd now t0 t1 bc) ->
    step bc (snd (checkAndStartMining fuel clock rnd now t0 t1 bc)).

Inductive reachable : t -> Prop :=
| reachable_new uuid now now' : reachable (new uuid now now')
| reachable_step bc bc' : reachable bc -> step bc bc' -> reachable bc'.

(** Ledgers on which nothing but account creation has happened. *)
Inductive registrations_only : t -> Prop :=
| registrations_new uuid now now' : registrations_only (new uuid now now')
| registrations_createAccount bc a isAlias now rnd now' :
    registrations_only bc ->
    registrations_only (snd (createAccount a isAlias now rnd now' bc)).

(** The hash-linkage invariant: chain[i].previousHash = chain[i-1].hash. *)
Definition hash_linked (chain : list Block.t) : Prop :=
  forall (i : nat) (previousBlock currentBlock : Block.t),
    chain !! i = Some previousBlock ->
    chain !! S i = Some currentBlock ->
    Block.previousHash currentBlock = Block.hash previousBlock.

(** *** Queries *)

Record FaucetInfo : Type := mkFaucetInfo {
  info_faucetAmount : Z;
  info_faucetBalance : Z;
  info_cooldownHours : Q;
  info_totalClaims : Z
}.

Definition getFaucetInfo (bc : t) : FaucetInfo :=
  let faucetBalance := getAccountBalance (faucetAddress bc) bc in
  mkFaucetInfo (faucetAmount bc) faucetBalance
    (inject_Z (faucetCooldown bc) / inject_Z (60 * 60 * 1000))%Q
    (Z.of_nat (size (faucetHistory bc))).

(** Each account as stored, with [balance] replaced by the derived one. *)
Definition getAllAccounts (bc : t) : list Account.t :=
  map (fun '(address, account) =>
         Account.mk (Account.address account) (Account.alias account)
                    (getAccountBalance address bc)
                    (Account.transactions account) (Account.createdAt account))
      (accounts bc).

Record Info : Type := mkInfo {
  info_height : Z;
  info_difficulty : Z;
  info_totalTransactions : Z;
  info_totalAccounts : Z;
  info_pendingTransactions : Z;
  info_targetBlockTime : Z;
  info_difficultyAdjustmentInterval : Z;
  info_miningReward : Z;
  info_consensusAlgorithm : string
}.

Definition getBlockchainInfo (bc : t) : Info :=
  mkInfo (Z.of_nat (length (chain bc))) (difficulty bc)
    (fold_left (fun sum block => sum + Z.of_nat (length (Block.transactions block)))
               (chain bc) 0)
    (Z.of_nat (length (accounts bc)))
    (Z.of_nat (length (pendingTransactions bc)))
    (targetBlockTime bc) (difficultyAdjustmentInterval bc) (miningReward bc) "POW".

(** [getBlock(index)] for an integer index; [None] is null. *)
Definition getBlock (index : Z) (bc : t) : option Block.t :=
  if (0 <=? index) && (index <? Z.of_nat (length (chain bc)))
  then chain bc !! Z.to_nat index
  else None.

End Blockchain.

(* ===================================================================== *)
(** ** The HTTP handlers that drive the ledger (server.js)                *)
(* ===================================================================== *)

Module Server.
Import Blockchain.

(** What a handler sends: [res.json({ success: true, ... })], which goes
    out with status 200, or [res.status(code).json({ success: false,
    error, remainingTime })]; only the faucet sets [remainingTime]. *)
Inductive Response (A : Type) : Type :=
| Ok (data : A)
| Error (code : Z) (error : string) (remainingTime : option Z).
Arguments Ok {A} data.
Arguments Error {A} code error remainingTime.

(** [try { body } catch (error) { handler(error.message) }] *)
Definition try_catch {A} (body : M A) (handler : string -> M A) : M A :=
  fun bc =>
    match body bc with
    | (JS.Throw msg, bc') => handler msg bc'
    | r => r
    end.


Record Mined : Type := mkMined {
  mined_minerAddress : string;
  mined_newBalance : Z;
  mined_blockHeight : Z
}.

(** POST /api/mine *)
Definition post_mine (minerAddress : option string) (fuel : nat) (now startTime endTime : Z)
    : M (Response Mined) :=
  try_catch
    (if negb (JS.truthy_str minerAddress)
     then ret (Error 400 "Miner address is required" None)
     else
       bc <- this ;;
       if (length (pendingTransactions bc) =? 0)%nat
       then ret (Error 400 "No pending transactions to mine" None)
       else
         let minerAddress := JS.or_empty minerAddress in
         minePendingTransactions fuel minerAddress now startTime endTime ;;;
         bc <- this ;;
         let newBalance := getAccountBalance minerAddress bc in
         ret (Ok (mkMined minerAddress newBalance (Z.of_nat (length (chain bc))))))
    (fun msg => ret (Error 400 msg None)).

(** POST /api/faucet/claim.  [clock] is read by the handler's own
    canUseFaucet, the other readings by useFaucet. *)
Definition post_faucet_claim (address : option string) (clock clock' : Z) (uuid : string)
    (now now' : Z) : M (Response FaucetReceipt) :=
  try_catch
    (if negb (JS.truthy_str address)
     then ret (Error 400 "Address or alias is required" None)
     else
       let address := JS.or_empty address in
       bc <- this ;;
       let canUse := canUseFaucet address clock bc in
       if negb (Blockchain.canUse canUse)
       then ret (Error 400 (reason canUse) (remainingTime canUse))
       else
         result <- useFaucet address clock' uuid now now' ;;
         ret (Ok result))
    (fun msg => ret (Error 400 msg None)).

(** POST /api/mining/auto/stop: the handler does not look at
    [result.success]; [stats] is undefined when the engine refused. *)
Definition post_mining_auto_stop : M (Response (option (Z * Z * Z))) :=
  try_catch
    (result <- stopAutoMining ;;
     ret (Ok (match result with Success stats => Some stats | Failure _ => None end)))
    (fun msg => ret (Error 500 msg None)).

(** The callback of [app.listen]: the accounts every server starts with.
    Each alias consumes a clock reading and random digits for its address
    and a clock reading for createdAt; the literal address only the last. *)
Definition listening (now1 : Z) (rnd1 : string) (now1' : Z) (now2 : Z) (rnd2 : string)
    (now2' : Z) (now3 : Z) (rnd3 : string) (now3' : Z) (now4' : Z) : M unit :=
  createAccount "user1" true now1 rnd1 now1' ;;;
  createAccount "user2" true now2 rnd2 now2' ;;;
  createAccount "miner1" true now3 rnd3 now3' ;;;
  createAccount "genesis" false 0 "" now4' ;;;
  ret tt.

End Server.

(* ===================================================================== *)
(** ** The retargeting rule in the words of the specification            *)
(* ===================================================================== *)

Module Spec.

(** "Computes the mean mining duration over the most recent
    retargetWindow blocks (blocks lacking a recorded duration are
    skipped; if none have durations, no-op)", then the three-way rule on
    ratio = meanDuration / targetInterval; a no-op below retargetWindow
    blocks.  The result is the difficulty after the call. *)
Definition adjustDifficulty (bc : Blockchain.t) : Z :=
  let len := Z.of_nat (length (Blockchain.chain bc)) in
  let retargetWindow := Blockchain.difficultyAdjustmentInterval bc in
  if len <? retargetWindow then Blockchain.difficulty bc
  else
    let recent := drop (Z.to_nat (len - retargetWindow)) (Blockchain.chain bc) in
    let durations := omap Block.miningTime recent in
    match durations with
    | [] => Blockchain.difficulty bc
    | _ =>
        let meanDuration :=
          (inject_Z (foldr Z.add 0%Z durations) / inject_Z (Z.of_nat (length durations)))%Q in
        let ratio := (meanDuration / inject_Z (Blockchain.targetBlockTime bc))%Q in
        if JS.Qlt_bool ratio (1 # 2) then Blockchain.difficulty bc + 1
        else if JS.Qlt_bool 2 ratio then Z.max 1 (Blockchain.difficulty bc - 1)
        else Blockchain.difficulty bc
    end.

End Spec.

(* ===================================================================== *)
(** ** A run of the ledger, step by step                                  *)
(* ===================================================================== *)

Module Scenario.
Import Blockchain.

Definition exec {A} (m : M A) (bc : t) : t := snd (m bc).

(** No number printed by these runs has a fractional part. *)
Definition fmt (q : Q) : string := JS.Number_toString (Qnum q / Zpos (Qden q)).

Definition uuid0 : string := "6f1c1d0e-8a47-4c58-9b7e-3d2f9a5b1c01".
Definition uuid1 : string := "0b9d4a52-77e1-4d0c-a3f6-5e1c2b3a4d02".
Definition uuid2 : string := "c2a6e7f1-1b3d-4e5f-8a9b-0c1d2e3f4a03".
Definition uuid3 : string := "d3b7f802-2c4e-4f60-9bac-1d2e3f405b04".

Definition fresh : t := new uuid0 1730000000000 1730000000001.

(** The reserve, then alice, bob and carol by alias. *)
Definition with_reserve : t :=
  exec (createAccount "genesis" false 0 "" 1730000000010) fresh.
Definition with_alice : t :=
  exec (createAccount "alice" true 1730000000020 "k3j2h1g0f9" 1730000000021) with_reserve.
Definition with_bob : t :=
  exec (createAccount "bob" true 1730000000030 "z9y8x7w6v5" 1730000000031) with_alice.
Definition with_carol : t :=
  exec (createAccount "carol" true 1730000000040 "m4n5b6v7c8" 1730000000041) with_bob.

(** alice claims from the faucet; carol mines the claim.  The clock
    readings of the mining calls are such that each search ends within
    three iterations. *)
Definition claim : M FaucetReceipt :=
  useFaucet "alice" 1730000000050 uuid1 1730000000051 1730000000052.
Definition claimed : t := exec claim with_carol.
Definition mine_claim : M unit :=
  minePendingTransactions 16 "carol" 1730000000124 1730000000125 1730000000163.
Definition funded : t := exec mine_claim claimed.

(** alice sends her whole balance to bob, twice; carol mines both. *)
Definition transfer1 : Transaction.t :=
  Transaction.new uuid2 1730000001000 (Some "alice") (Some "bob") 100 "transfer".
Definition transfer2 : Transaction.t :=
  Transaction.new uuid3 1730000002000 (Some "alice") (Some "bob") 100 "transfer".
Definition paid_once : t := exec (createTransaction transfer1) funded.
Definition paid_twice : t := exec (createTransaction transfer2) paid_once.
Definition mine_transfers : M unit :=
  minePendingTransactions 16 "carol" 1730000003226 1730000003227 1730000003265.
Definition overdrawn : t := exec mine_transfers paid_twice.

(** alice alone on a new ledger: the reserve was never registered. *)
Definition alice_only : t :=
  exec (createAccount "alice" true 1730000000020 "k3j2h1g0f9" 1730000000021) fresh.

(** A second account asks for the alias alice. *)
Definition alice_again : M (Reply (string * option string)) :=
  createAccount "alice" true 1730000000025 "q1w2e3r4t5" 1730000000026.

(** Five blocks, each mined in one second, on top of the genesis block. *)
Definition mine_quick (now : Z) : M unit :=
  minePendingTransactions 16 "carol" now (now + 1) (now + 1001).
Definition quick1 : t := exec (mine_quick 1730000010026) with_carol.
Definition quick2 : t := exec (mine_quick 1730000012032) quick1.
Definition quick3 : t := exec (mine_quick 1730000014032) quick2.
Definition quick4 : t := exec (mine_quick 1730000016047) quick3.
Definition quick5 : t := exec (mine_quick 1730000018071) quick4.
(** The ends of the retarget window of [quick5]. *)
Definition quick5_oldest : Block.t := default (Block.new 0 [] "") (chain quick5 !! 1%nat).
Definition quick5_newest : Block.t := default (Block.new 0 [] "") (last (chain quick5)).

(** The scheduler started on a ledger without miners, then started again. *)
Definition config0 : Config := mkConfig (Some 5000) (Some 3) (Some 20000).
Definition started : t := exec (startAutoMining config0) fresh.

(** carol registered as a miner of weight 1. *)
Definition with_miner : t := exec (addMiner "carol" 1 1730000000045) with_carol.

(** A candidate block as minePendingTransactions builds it. *)
Definition candidate : Block.t :=
  Block.new 1730000000124 (pendingTransactions claimed)
            (Block.hash (default (Block.new 0 [] "") (getLatestBlock claimed))).
Definition carol_address : string := resolveAddress "carol" claimed.


End Scenario.

(* ===================================================================== *)
(** ** Predicates of the statements                                       *)
(* ===================================================================== *)

(** An endpoint that [!x] rejects: null or the empty string. *)
Definition absent (o : option string) : Prop := o = None \/ o = Some "".

(** Every key of the directory is the address of its account. *)
Definition keyed (m : JSMap.t Account.t) : Prop :=
  Forall (fun kv => Account.address (snd kv) = fst kv) m.

(** A duration is on record when the property is set and not zero. *)
Definition recorded (b : Block.t) : Prop :=
  exists d, Block.miningTime b = Some d /\ d <> 0.

(** A chain either stays as it is or gets one block whose previousHash
    is the hash of the block that was last. *)
Definition extends (c c' : list Block.t) : Prop :=
  c' = c \/
  exists latest b,
    last c = Some latest /\ Block.previousHash b = Block.hash latest /\ c' = (c ++ [b])%list.

(** *** What one call can do to a ledger *)

(** The three outcomes of a retarget. *)
Definition retargeted (bc bc1 : Blockchain.t) : Prop :=
  bc1 = bc \/
  bc1 = Blockchain.set_difficulty (Blockchain.difficulty bc + 1) bc \/
  bc1 = Blockchain.set_difficulty (Z.max 1 (Blockchain.difficulty bc - 1)) bc.

(** The transfer that createTransaction enqueues for [tx]. *)
Definition submitted (bc : Blockchain.t) (tx signed : Transaction.t) : Prop :=
  let fromAddress := Blockchain.resolveAddress (JS.or_empty (Transaction.from tx)) bc in
  let toAddress := Blockchain.resolveAddress (JS.or_empty (Transaction.to tx)) bc in
  JSMap.has fromAddress (Blockchain.accounts bc) = true /\
  JSMap.has toAddress (Blockchain.accounts bc) = true /\
  Transaction.amount tx <= Blockchain.getAccountBalance (JS.or_empty (Transaction.from tx)) bc /\
  signed = Transaction.signTransaction fromAddress
             (Transaction.set_to (Some toAddress)
                (Transaction.set_from (Some fromAddress) tx)).

(** The block that minePendingTransactions appends for the miner [a] at
    difficulty [d]. *)
Definition mined (bc : Blockchain.t) (d : Z) (a : string) (now t0 t1 : Z) (block : Block.t)
    : Prop :=
  exists latest,
    last (Blockchain.chain bc) = Some latest /\
    JSMap.has (Blockchain.resolveAddress a bc) (Blockchain.accounts bc) = true /\
    Block.previousHash block = Block.hash latest /\
    Block.timestamp block = now /\
    Block.transactions block = Blockchain.pendingTransactions bc /\
    Block.miner block = Some (Blockchain.resolveAddress a bc) /\
    Block.reward block = 10 /\
    Block.miningTime block = Some (t1 - t0) /\
    JS.zeros d = JS.Normal (JS.substring0 d (Block.hash block)).

(** The ledger after [block] was appended to the retargeted ledger [bc1]. *)
Definition appended (block : Block.t) (bc1 : Blockchain.t) : Blockchain.t :=
  Blockchain.set_pendingTransactions []
    (Blockchain.set_chain (Blockchain.chain bc1 ++ [block])%list bc1).

(** The ledger after the miner at index [i] was credited with a block. *)
Definition credited (i : nat) (bc : Blockchain.t) : Blockchain.t :=
  let stats := Blockchain.miningStats bc in
  Blockchain.set_miningStats
    (MiningStats.mk (MiningStats.totalBlocksMined stats + 1)
                    (MiningStats.totalRewardsPaid stats + Blockchain.miningReward bc)
                    (MiningStats.averageMiningTime stats)
                    (MiningStats.networkHashRate stats))
    (Blockchain.set_miners
       (alter (Blockchain.credit (Blockchain.miningReward bc)) i (Blockchain.miners bc)) bc).

(** Every way in which a public mutator can leave the ledger. *)
Inductive change (bc : Blockchain.t) : Blockchain.t -> Prop :=
| change_nothing : change bc bc
| change_account address account :
    JSMap.has address (Blockchain.accounts bc) = false ->
    Account.address account = address ->
    change bc (Blockchain.set_accounts
                 (Blockchain.accounts bc ++ [(address, account)])%list bc)
| change_submit tx signed :
    submitted bc tx signed ->
    change bc (Blockchain.set_pendingTransactions
                 (Blockchain.pendingTransactions bc ++ [signed])%list bc)
| change_claim address uuid now now' :
    JSMap.has address (Blockchain.accounts bc) = true ->
    Blockchain.faucetAmount bc
      <= Blockchain.getAccountBalance (Blockchain.faucetAddress bc) bc ->
    change bc (Blockchain.set_pendingTransactions
                 (Blockchain.pendingTransactions bc
                    ++ [Transaction.new uuid now (Some (Blockchain.faucetAddress bc))
                          (Some address) (Blockchain.faucetAmount bc) "faucet"])%list
                 (Blockchain.set_faucetHistory
                    (<[address := now']> (Blockchain.faucetHistory bc)) bc))
| change_retarget bc1 :
    retargeted bc bc1 -> change bc bc1
| change_mine bc1 a now t0 t1 block :
    retargeted bc bc1 ->
    mined bc (Blockchain.difficulty bc1) a now t0 t1 block ->
    change bc (appended block bc1)
| change_compete bc1 i winner now t0 t1 block :
    retargeted bc bc1 ->
    Blockchain.miners bc !! i = Some winner ->
    mined bc (Blockchain.difficulty bc1) (Miner.address winner) now t0 t1 block ->
    change bc (credited i (appended block bc1))
| change_addMiner miner :
    Miner.address miner <> "" ->
    Forall (fun m => Miner.address m <> Miner.address miner) (Blockchain.miners bc) ->
    (1 # 10 <= Miner.hashPower miner)%Q /\ (Miner.hashPower miner <= 10)%Q ->
    Miner.isActive miner = true ->
    Miner.blocksMined miner = 0 ->
    Miner.totalRewards miner = 0 ->
    change bc (Blockchain.set_miners (Blockchain.miners bc ++ [miner])%list bc)
| change_removeMiner address rest :
    Blockchain.remove_first address (Blockchain.miners bc) = Some rest ->
    change bc (Blockchain.set_miners rest bc)
| change_start interval minTx maxTime :
    Blockchain.autoMining bc = false ->
    interval <> 0 -> minTx <> 0 -> maxTime <> 0 ->
    change bc (Blockchain.set_miningInterval (Some interval)
                 (Blockchain.set_autoMining true
                    (Blockchain.set_maxBlockTime maxTime
                       (Blockchain.set_minTransactionsToMine minTx
                          (Blockchain.set_autoMineInterval (Some interval) bc)))))
| change_stop :
    Blockchain.autoMining bc = true ->
    change bc (Blockchain.set_miningInterval None (Blockchain.set_autoMining false bc)).

(** *** The proof-of-work search *)

(** The digest of [b] with its nonce set to [n]. *)
Definition hash_at (n : Z) (b : Block.t) : string :=
  Block.calculateHash (Block.set_nonce n b).

(** The hash [h] has the prefix that difficulty [d] asks for. *)
Definition meets (d : Z) (h : string) : Prop :=
  JS.zeros d = JS.Normal (JS.substring0 d h).

(** *** The miners *)

(** A miner as addMiner and the competition leave it. *)
Definition registered_miner (m : Miner.t) : Prop :=
  Miner.address m <> "" /\
  (1 # 10 <= Miner.hashPower m)%Q /\ (Miner.hashPower m <= 10)%Q /\
  Miner.isActive m = true /\
  0 <= Miner.blocksMined m /\
  Miner.totalRewards m = 10 * Miner.blocksMined m.

(** The blocks that the miners on the list have won between them. *)
Definition blocks_won (ms : list Miner.t) : Z :=
  foldr Z.add 0 (map Miner.blocksMined ms).

(** *** Where the tokens are *)

(** 1 when the endpoint is one of [keys], else 0. *)
Definition listed (keys : list string) (o : option string) : Z :=
  match o with
  | Some a => if bool_decide (a ∈ keys) then 1 else 0
  | None => 0
  end.

(** What a transaction and a block add to the balances of [keys] taken
    together. *)
Definition tx_net (keys : list string) (tx : Transaction.t) : Z :=
  Transaction.amount tx * (listed keys (Transaction.to tx) - listed keys (Transaction.from tx)).

Definition block_net (keys : list string) (block : Block.t) : Z :=
  foldr Z.add 0 (map (tx_net keys) (Block.transactions block))
  + Block.reward block * listed keys (Block.miner block).

(** A transaction between accounts on record; the sender may also be
    the faucet address [reserve]. *)
Definition settled (accounts : JSMap.t Account.t) (reserve : string) (tx : Transaction.t)
    : Prop :=
  exists f t,
    Transaction.from tx = Some f /\ Transaction.to tx = Some t /\
    (JSMap.has f accounts = true \/ f = reserve) /\
    JSMap.has t accounts = true.

(** A mined block: settled transactions, a miner on record, reward 10. *)
Definition rewarded (accounts : JSMap.t Account.t) (reserve : string) (block : Block.t)
    : Prop :=
  Block.reward block = 10 /\
  (exists m, Block.miner block = Some m /\ JSMap.has m accounts = true) /\
  Forall (settled accounts reserve) (Block.transactions block).

Definition accounted (bc : Blockchain.t) : Prop :=
  (exists uuid now rest,
     Blockchain.chain bc = Blockchain.createGenesisBlock uuid now :: rest /\
     Forall (rewarded (Blockchain.accounts bc) (Blockchain.faucetAddress bc)) rest) /\
  Forall (settled (Blockchain.accounts bc) (Blockchain.faucetAddress bc))
         (Blockchain.pendingTransactions bc).

(** The sum of the balances that getAllAccounts reports. *)
Definition supply (bc : Blockchain.t) : Z :=
  foldr Z.add 0 (map Account.balance (Blockchain.getAllAccounts bc)).

(** The tokens that a block and a chain move, signs dropped.  The amounts
    of the model are whole numbers; the code adds them as doubles.  A
    running balance is a sum of some of these amounts and rewards, each
    with a sign, so while the volume of the chain is at most 2^53 every
    sum that getAccountBalance forms is a whole number of magnitude at
    most 2^53, and such sums a double forms without rounding. *)
Definition block_volume (block : Block.t) : Z :=
  foldr Z.add 0 (map (fun tx => Z.abs (Transaction.amount tx)) (Block.transactions block))
  + Z.abs (Block.reward block).

Definition volume (chain : list Block.t) : Z :=
  foldr Z.add 0 (map block_volume chain).

(* ===================================================================== *)
(** * Theorems                                                            *)
(* ===================================================================== *)

(** The digest is only ever evaluated on closed inputs; in symbolic proofs
    it stays folded. *)
Opaque CryptoJS.digest.
Arguments CryptoJS.SHA256 : simpl never.
Arguments CryptoJS.HmacSHA256 : simpl never.
Arguments JS.Number_toString : simpl never.

(** ** crypto-js against the published test vectors *)

Example sha256_abc :
  CryptoJS.SHA256 "abc" = "ba7816bf8f01cfea414140de5dae2223b00361a396177a9cb410ff61f20015ad".
Proof. vm_compute. reflexivity. Qed.

Example sha256_two_blocks :
  CryptoJS.SHA256 "abcdbcdecdefdefgefghfghighijhijkijkljklmklmnlmnomnopnopq"
  = "248d6a61d20638b8e5c026930c3e6039a33ce45964ff2167f6ecedd419db06c1".
Proof. vm_compute. reflexivity. Qed.

Example hmac_sha256_fox :
  CryptoJS.HmacSHA256 "The quick brown fox jumps over the lazy dog" "key"
  = "f7bc83f430538424b13298e6aa6fb143ef4d59a14946175997479dbc2d1a3cd8".
Proof. vm_compute. reflexivity. Qed.



(** ** The run of the scenario, evaluated *)

Example scenario_addresses :
  map fst (Blockchain.accounts Scenario.with_carol)
  = ["genesis"; "0x5cbbe5968468d75c13342b670d1f7d33bed9cdd1";
     "0x8d3e4b509ae47827760b8297e2f76e8e851bcbba";
     "0xb471905f3cae78dcef8dfd3e766e13445f9856ad"].
Proof. vm_compute. reflexivity. Qed.

Example scenario_nonces :
  map Block.nonce (Blockchain.chain Scenario.overdrawn) = [0; 3; 1] /\
  map Block.nonce (Blockchain.chain Scenario.quick5) = [0; 3; 1; 1; 3; 1].
Proof. split; vm_compute; reflexivity. Qed.

Example scenario_balances :
  map (fun a => Blockchain.getAccountBalance a Scenario.with_carol) ["genesis"; "alice"; "bob"]
  = [1000000; 0; 0] /\
  map (fun a => Blockchain.getAccountBalance a Scenario.funded)
      ["genesis"; "alice"; "bob"; "carol"]
  = [999900; 100; 0; 10].
Proof. split; vm_compute; reflexivity. Qed.

(** ** Strings and their JSON form *)

Section Strings.

Lemma append_nil (s : string) : "" ++ s = s.
Proof. reflexivity. Qed.

Lemma append_cons (c : ascii) (a b : string) : String c a ++ b = String c (a ++ b).
Proof. reflexivity. Qed.

Lemma append_assoc (a b c : string) : (a ++ b) ++ c = a ++ b ++ c.
Proof.
  induction a as [|x a IH]; [reflexivity|].
  rewrite !append_cons. by rewrite IH.
Qed.

Lemma eqb_false_iff (a b : string) : String.eqb a b = false <-> a <> b.
Proof.
  split.
  - intros H E. apply String.eqb_eq in E. congruence.
  - intros H. destruct (String.eqb a b) eqn:E; [|reflexivity].
    apply String.eqb_eq in E. contradiction.
Qed.

(** One escaped character is read back as that character. *)
Lemma unquote_escape_char (c : ascii) (rest : string) :
  JS.unquote (JS.escape_char c ++ rest) = JS.push c (JS.unquote rest).
Proof.
  destruct c as [[] [] [] [] [] [] [] []]; reflexivity.
Qed.

(** Reading back an escaped text yields the text and what followed it. *)
Lemma unquote_escape (body after : string) :
  JS.unquote (JS.escape body ++ JS.dquote ++ after) = Some (body, after).
Proof.
  induction body as [|c body IH]; [reflexivity|].
  change (JS.escape (String c body)) with (JS.escape_char c ++ JS.escape body).
  rewrite append_assoc, unquote_escape_char, IH. reflexivity.
Qed.

(** JSON strings are uniquely readable, whatever follows them. *)
Lemma JSON_string_inj (a b r1 r2 : string) :
  JS.JSON_string a ++ r1 = JS.JSON_string b ++ r2 -> a = b /\ r1 = r2.
Proof.
  unfold JS.JSON_string, JS.dquote. rewrite !append_assoc, !append_cons, !append_nil.
  intros H. injection H as H. apply (f_equal JS.unquote) in H.
  change (String (ascii_of_nat 34) ?r) with (JS.dquote ++ r) in H.
  rewrite !unquote_escape in H. by simplify_eq.
Qed.

End Strings.

(** ** Transactions: signing and verification *)

Section Signing.

Lemma hex_state_nonempty (st : CryptoJS.state) : CryptoJS.hex_state st <> "".
Proof. unfold CryptoJS.hex_state, CryptoJS.hex_word. discriminate. Qed.

Lemma HmacSHA256_nonempty (message key : string) : CryptoJS.HmacSHA256 message key <> "".
Proof. unfold CryptoJS.HmacSHA256. apply hex_state_nonempty. Qed.

Opaque CryptoJS.SHA256 CryptoJS.HmacSHA256.

(** The signature is not part of what is signed. *)
Lemma calculateHash_set_signature (v : option string) (tx : Transaction.t) :
  Transaction.calculateHash (Transaction.set_signature v tx) = Transaction.calculateHash tx.
Proof. reflexivity. Qed.

Lemma isValid_signed (key : string) (tx : Transaction.t) :
  Transaction.from tx = Some key ->
  Transaction.isValid (Transaction.signTransaction key tx) = JS.Normal true.
Proof.
  intros Hfrom. unfold Transaction.isValid, Transaction.signTransaction.
  rewrite calculateHash_set_signature.
  cbn [Transaction.from Transaction.signature Transaction.set_signature].
  rewrite Hfrom.
  destruct (String.eqb _ "") eqn:E.
  - apply String.eqb_eq in E. by apply HmacSHA256_nonempty in E.
  - by rewrite String.eqb_refl.
Qed.

End Signing.



(** ** The genesis check of isChainValid *)

Section Genesis.

Variable fmt : Q -> string.

(** The serialised genesis block determines the id its transaction got. *)
Lemma genesis_JSON_id (uuid1 uuid2 : string) (now1 now2 : Z) :
  Block.toJSON fmt (Blockchain.createGenesisBlock uuid1 now1)
  = Block.toJSON fmt (Blockchain.createGenesisBlock uuid2 now2) ->
  uuid1 = uuid2.
Proof.
  unfold Block.toJSON, Blockchain.createGenesisBlock, Block.new, Block.JSON_transactions,
    JS.JSON_array, Transaction.toJSON, Transaction.new.
  cbn [Block.timestamp Block.transactions Transaction.id map JS.join].
  rewrite !append_assoc. intros H.
  do 11 apply (inj (String.app _)) in H.
  by apply JSON_string_inj in H as [-> _].
Qed.

(** When the environment hands out the same id and the same clock
    reading again, the recomputed block is the stored one. *)
Lemma isChainValid_replay (uuid : string) (now now' : Z) :
  Blockchain.isChainValid fmt uuid now (Blockchain.new uuid now now') = JS.Normal true.
Proof.
  unfold Blockchain.isChainValid, Blockchain.new. cbn [Blockchain.chain].
  by rewrite String.eqb_refl.
Qed.

End Genesis.

(** C1 (the code departs from it).  On a ledger that was just constructed,
    isChainValid() answers false as soon as the uuid drawn for the
    recomputed genesis transaction differs from the one drawn by the
    constructor: the genesis block is not a function of fixed constants. *)
Theorem isChainValid_fresh_ledger (fmt : Q -> string) (uuid uuid' : string) (now now' now'' : Z) :
  uuid' <> uuid ->
  Blockchain.isChainValid fmt uuid' now'' (Blockchain.new uuid now now') = JS.Normal false.
Proof.
  intros Hne. unfold Blockchain.isChainValid, Blockchain.new. cbn [Blockchain.chain].
  destruct (String.eqb _ _) eqn:E; [|reflexivity].
  apply String.eqb_eq, genesis_JSON_id in E. contradiction.
Qed.

Lemma isChainValid_fresh_ledger_witness :
  Blockchain.isChainValid Scenario.fmt Scenario.uuid1 1730000000002 Scenario.fresh
  = JS.Normal false.
Proof.
  apply (isChainValid_fresh_ledger Scenario.fmt Scenario.uuid0 Scenario.uuid1).
  discriminate.
Defined.

(** ** Proof of work *)

Section ProofOfWork.

(** calculateHash does not read the stored hash, the reward or the
    mining statistics. *)
Lemma calculateHash_set_hash (h : string) (b : Block.t) :
  Block.calculateHash (Block.set_hash h b) = Block.calculateHash b.
Proof. reflexivity. Qed.

(** The search only touches nonce and hash; once it has iterated, the
    stored hash is the digest of the block it returns. *)
Lemma search_inv (fuel : nat) (difficulty : Z) (target : string) (b found : Block.t) :
  Block.search fuel difficulty target b = Some found ->
  JS.substring0 difficulty (Block.hash found) = target /\
  Block.previousHash found = Block.previousHash b /\
  Block.miner found = Block.miner b /\
  (found = b \/ Block.hash found = Block.calculateHash found).
Proof.
  revert b. induction fuel as [|fuel IH]; intros b; simpl;
    destruct (String.eqb _ target) eqn:E.
  - intros [= <-]. apply String.eqb_eq in E. auto.
  - discriminate.
  - intros [= <-]. apply String.eqb_eq in E. auto.
  - intros H. apply IH in H as (Ht & Hp & Hm & Hh). repeat split; try done.
    right. destruct Hh as [-> | Hh]; [reflexivity | done].
Qed.

(** What mineBlock guarantees when it returns: the prefix, the miner and
    the reward; the hash is the one the search stored, before the miner
    was written. *)
Lemma mineBlock_result (fuel : nat) (difficulty : Z) (minerAddress : string)
    (b mined : Block.t) :
  Block.mineBlock fuel difficulty minerAddress b = JS.Normal mined ->
  JS.zeros difficulty = JS.Normal (JS.substring0 difficulty (Block.hash mined)) /\
  Block.miner mined = Some minerAddress /\
  Block.reward mined = 10 /\
  Block.previousHash mined = Block.previousHash b /\
  (Block.hash mined = Block.hash b \/
   Block.hash mined
   = Block.calculateHash (Block.set_miner (Block.miner b) mined)).
Proof.
  unfold Block.mineBlock. destruct (JS.zeros difficulty) as [target| |] eqn:Hz; try discriminate.
  destruct (Block.search _ _ _ _) as [found|] eqn:Hs; [|discriminate].
  intros [= <-]. apply search_inv in Hs as (Ht & Hp & Hm & Hh).
  cbn. split; [rewrite <- Ht; reflexivity|].
  do 3 (split; [congruence|]).
  destruct Hh as [-> | Hh]; [left; reflexivity | right].
  rewrite Hh. unfold Block.calculateHash. cbn. rewrite Hm. reflexivity.
Qed.

End ProofOfWork.

(** C2 (the code departs from it).  The candidate block of the scenario,
    mined at difficulty 2 for carol: mineBlock returns, the hash starts
    with two zeros, miner and reward are set; but the stored hash is the
    digest taken while miner was still null, and recomputing calculateHash
    over the block as mineBlock leaves it gives another value. *)
Theorem mineBlock_leaves_hash_stale :
  exists mined : Block.t,
    Block.mineBlock 16 2 Scenario.carol_address Scenario.candidate = JS.Normal mined /\
    JS.substring0 2 (Block.hash mined) = "00" /\
    Block.miner mined = Some Scenario.carol_address /\
    Block.reward mined = 10 /\
    Block.hash mined = Block.calculateHash (Block.set_miner None mined) /\
    Block.hash mined <> Block.calculateHash mined.
Proof.
  eexists. split; [vm_compute; reflexivity|].
  do 4 (split; [vm_compute; reflexivity|]).
  apply eqb_false_iff. vm_compute. reflexivity.
Qed.

(** ** Submitting a transaction *)

(** Unfolds the monad of method bodies. *)
Ltac run :=
  unfold Blockchain.bind, Blockchain.this, Blockchain.throw, Blockchain.ret,
    Blockchain.update, Blockchain.lift; cbn beta iota.

Section Submission.


Lemma truthy_str_false (o : option string) : JS.truthy_str o = false <-> absent o.
Proof.
  unfold absent. destruct o as [s|]; simpl.
  - rewrite negb_false_iff, String.eqb_eq. split; [intros ->; by right|].
    intros [|[= ->]]; [discriminate | reflexivity].
  - split; [by left | reflexivity].
Qed.

Lemma truthy_str_true (o : option string) : JS.truthy_str o = true <-> ~ absent o.
Proof.
  rewrite <- truthy_str_false. destruct (JS.truthy_str o); split; done.
Qed.

(** The balance check reads the chain and the accounts, never the
    pending pool. *)
Lemma getAccountBalance_pending (a : string) (pool : list Transaction.t) (bc : Blockchain.t) :
  Blockchain.getAccountBalance a (Blockchain.set_pendingTransactions pool bc)
  = Blockchain.getAccountBalance a bc.
Proof. reflexivity. Qed.

End Submission.



(** ** The account directory *)

Section Directory.

Context {V : Type}.

Lemma JSMap_has_get (k : string) (m : JSMap.t V) :
  JSMap.has k m = true <-> exists v, JSMap.get k m = Some v.
Proof.
  unfold JSMap.has. destruct (JSMap.get k m) as [v|]; split; try done.
  - eauto.
  - intros [v [=]].
Qed.

Lemma JSMap_get_cons (k k' : string) (v' : V) (m : JSMap.t V) :
  JSMap.get k ((k', v') :: m) = if String.eqb k' k then Some v' else JSMap.get k m.
Proof. unfold JSMap.get. cbn. by destruct (String.eqb k' k). Qed.

(** Setting a key that is not there appends the entry. *)
Lemma JSMap_set_fresh (k : string) (v : V) (m : JSMap.t V) :
  JSMap.has k m = false -> JSMap.set k v m = (m ++ [(k, v)])%list.
Proof.
  unfold JSMap.has. induction m as [|[k' v'] m IH]; [reflexivity|].
  rewrite JSMap_get_cons. cbn. destruct (String.eqb k' k); [discriminate|].
  intros H. by rewrite IH.
Qed.

End Directory.

(** C10 (as amended).  createAccount is rejected exactly when the address
    of the new account, the literal address given or the address generated
    for the alias, is already a key of the directory, and a rejected call
    leaves the directory (and the ledger) unchanged; otherwise the account
    is appended.  The alias plays no part in the decision. *)
Theorem createAccount_spec (aliasOrAddress : string) (isAlias : bool)
    (now : Z) (randomBytes : string) (now' : Z) (bc : Blockchain.t) :
  let address :=
    if isAlias then Blockchain.generateAddress aliasOrAddress now randomBytes
    else aliasOrAddress in
  let alias := if isAlias then Some aliasOrAddress else None in
  (JSMap.has address (Blockchain.accounts bc) = true ->
     Blockchain.createAccount aliasOrAddress isAlias now randomBytes now' bc
     = (JS.Normal (Blockchain.Failure "Account already exists"), bc)) /\
  (JSMap.has address (Blockchain.accounts bc) = false ->
     Blockchain.createAccount aliasOrAddress isAlias now randomBytes now' bc
     = (JS.Normal (Blockchain.Success (address, alias)),
        Blockchain.set_accounts
          (Blockchain.accounts bc ++ [(address, Account.mk address alias 0 [] now')])%list bc)).
Proof.
  cbv zeta. unfold Blockchain.createAccount.
  destruct isAlias; run; split; intros H; rewrite H; cbn [negb]; try reflexivity;
    by rewrite (JSMap_set_fresh _ _ _ H).
Qed.

(** Registering the literal address genesis a second time is refused and
    changes nothing. *)
Lemma createAccount_spec_witness :
  Blockchain.createAccount "genesis" false 0 "" 1730000000011 Scenario.with_reserve
  = (JS.Normal (Blockchain.Failure "Account already exists"), Scenario.with_reserve).
Proof.
  apply (proj1 (createAccount_spec "genesis" false 0 "" 1730000000011 Scenario.with_reserve)).
  vm_compute. reflexivity.
Defined.

(** C10 as stated fails: with alice registered, a second request for the
    alias alice succeeds, and the directory then holds two accounts under
    that alias. *)
Lemma createAccount_alias_collision :
  map (fun kv => Account.alias (snd kv)) (Blockchain.accounts Scenario.with_carol)
  = [None; Some "alice"; Some "bob"; Some "carol"] /\
  fst (Scenario.alice_again Scenario.with_carol)
  = JS.Normal (Blockchain.Success ("0x23b95da0464eb96bd0d102102894a99fd17bf186", Some "alice")) /\
  map (fun kv => Account.alias (snd kv))
      (Blockchain.accounts (snd (Scenario.alice_again Scenario.with_carol)))
  = [None; Some "alice"; Some "bob"; Some "carol"; Some "alice"].
Proof. repeat split; vm_compute; reflexivity. Qed.

(** ** The mining scheduler *)

(** C8 (as amended).  startAutoMining fails, changing nothing, when the
    scheduler is already running.  When it is stopped and a miner is
    registered, it stores the three settings of the configuration, each
    replaced by its default (10000, 1, 30000) when absent or zero, arms
    the timer and switches to Running. *)
Theorem startAutoMining_spec (config : Blockchain.Config) (bc : Blockchain.t) :
  (Blockchain.autoMining bc = true ->
     Blockchain.startAutoMining config bc
     = (JS.Normal (Blockchain.Failure "Auto mining is already running"), bc)) /\
  (Blockchain.autoMining bc = false -> Blockchain.miners bc <> [] ->
     let interval := Blockchain.or_default (Blockchain.cfg_autoMineInterval config) 10000 in
     let minTx := Blockchain.or_default (Blockchain.cfg_minTransactionsToMine config) 1 in
     let maxTime := Blockchain.or_default (Blockchain.cfg_maxBlockTime config) 30000 in
     let bc' := snd (Blockchain.startAutoMining config bc) in
     fst (Blockchain.startAutoMining config bc)
     = JS.Normal (Blockchain.Success
         (Blockchain.mkStarted interval minTx maxTime
            (Z.of_nat (length (Blockchain.miners bc))))) /\
     bc' = Blockchain.set_miningInterval (Some interval)
             (Blockchain.set_autoMining true
                (Blockchain.set_maxBlockTime maxTime
                   (Blockchain.set_minTransactionsToMine minTx
                      (Blockchain.set_autoMineInterval (Some interval) bc)))) /\
     Blockchain.autoMining bc' = true /\
     Blockchain.autoMineInterval bc' = Some interval /\
     Blockchain.minTransactionsToMine bc' = minTx /\
     Blockchain.maxBlockTime bc' = maxTime) /\
  (forall v d, v <> 0 -> Blockchain.or_default (Some v) d = v) /\
  (forall d, Blockchain.or_default None d = d /\ Blockchain.or_default (Some 0) d = d).
Proof.
  unfold Blockchain.startAutoMining. run.
  split; [|split; [|split]].
  - intros ->. reflexivity.
  - intros -> _. cbv zeta. cbn. repeat split.
  - intros v d Hv. unfold Blockchain.or_default. cbn.
    apply Z.eqb_neq in Hv. by rewrite Hv.
  - intros d. split; reflexivity.
Qed.

(** With carol registered as a miner, the scheduler starts and stores the
    three settings it was given. *)
Lemma startAutoMining_spec_witness :
  fst (Blockchain.startAutoMining Scenario.config0 Scenario.with_miner)
  = JS.Normal (Blockchain.Success
      (Blockchain.mkStarted (Blockchain.or_default (Some 5000) 10000)
         (Blockchain.or_default (Some 3) 1) (Blockchain.or_default (Some 20000) 30000)
         (Z.of_nat (length (Blockchain.miners Scenario.with_miner))))).
Proof.
  apply (proj1 (proj2 (startAutoMining_spec Scenario.config0 Scenario.with_miner))).
  - vm_compute. reflexivity.
  - vm_compute. discriminate.
Defined.

(** C8 as stated fails twice over: on a new ledger, with no miner
    registered, the scheduler starts; and a second start, which is refused,
    leaves it running, not stopped. *)
Lemma startAutoMining_without_miners :
  Blockchain.miners Scenario.fresh = [] /\
  Blockchain.autoMining Scenario.fresh = false /\
  fst (Blockchain.startAutoMining Scenario.config0 Scenario.fresh)
  = JS.Normal (Blockchain.Success (Blockchain.mkStarted 5000 3 20000 0)) /\
  Blockchain.autoMining Scenario.started = true /\
  Blockchain.startAutoMining Scenario.config0 Scenario.started
  = (JS.Normal (Blockchain.Failure "Auto mining is already running"), Scenario.started) /\
  Blockchain.autoMining (snd (Blockchain.startAutoMining Scenario.config0 Scenario.started))
  = true.
Proof. repeat split. Qed.

(** ** The faucet *)

(** A call to createAccount changes nothing, or adds one account under a
    fresh key that is the account's address. *)
Lemma createAccount_step (a : string) (isAlias : bool) (now : Z) (rnd : string) (now' : Z)
    (bc : Blockchain.t) :
  snd (Blockchain.createAccount a isAlias now rnd now' bc) = bc \/
  exists address account,
    JSMap.has address (Blockchain.accounts bc) = false /\
    Account.address account = address /\
    snd (Blockchain.createAccount a isAlias now rnd now' bc)
    = Blockchain.set_accounts (JSMap.set address account (Blockchain.accounts bc)) bc.
Proof.
  unfold Blockchain.createAccount.
  destruct isAlias; run;
    match goal with |- context [negb (JSMap.has ?k ?m)] => destruct (JSMap.has k m) eqn:E end;
    cbn [negb]; try (by left);
    right; eexists _, _; (split; [exact E|]); (split; [|reflexivity]); reflexivity.
Qed.

Section Faucet.


Lemma keyed_get (k : string) (m : JSMap.t Account.t) (account : Account.t) :
  keyed m -> JSMap.get k m = Some account -> Account.address account = k.
Proof.
  unfold keyed. induction 1 as [|[k' v'] m Hk Hm IH]; [discriminate|].
  rewrite JSMap_get_cons. destruct (String.eqb k' k) eqn:E.
  - apply String.eqb_eq in E. intros [= <-]. by rewrite <- E.
  - exact IH.
Qed.

(** A registered address resolves to itself. *)
Lemma resolveAddress_registered (a : string) (bc : Blockchain.t) :
  keyed (Blockchain.accounts bc) ->
  JSMap.has a (Blockchain.accounts bc) = true ->
  Blockchain.resolveAddress a bc = a.
Proof.
  intros Hk Hhas. unfold Blockchain.resolveAddress, Blockchain.findAccount. rewrite Hhas.
  apply JSMap_has_get in Hhas as [account Hget]. rewrite Hget.
  by apply (keyed_get _ _ _ Hk).
Qed.

(** What account creation leaves alone, and what it keeps true. *)
Lemma registrations_only_inv (bc : Blockchain.t) :
  Blockchain.registrations_only bc ->
  (exists uuid now, Blockchain.chain bc = [Blockchain.createGenesisBlock uuid now]) /\
  Blockchain.pendingTransactions bc = [] /\
  Blockchain.faucetHistory bc = ∅ /\
  Blockchain.faucetAmount bc = 100 /\
  Blockchain.faucetAddress bc = "genesis" /\
  keyed (Blockchain.accounts bc).
Proof.
  induction 1 as [uuid now now'|bc a isAlias now rnd now' _ IH].
  - cbn. repeat split; eauto. constructor.
  - destruct IH as (Hc & Hp & Hh & Ha & Hf & Hk).
    pose proof (createAccount_step a isAlias now rnd now' bc) as [-> | (address & account & Hfresh & Haddr & ->)];
      [done|].
    cbn. repeat split; try done.
    rewrite (JSMap_set_fresh _ _ _ Hfresh). apply Forall_app. split; [done|].
    by repeat constructor.
Qed.

(** With the reserve registered and the chain still at its genesis
    block, the reserve holds the whole initial supply. *)
Lemma reserve_balance (bc : Blockchain.t) :
  Blockchain.registrations_only bc ->
  JSMap.has "genesis" (Blockchain.accounts bc) = true ->
  Blockchain.getAccountBalance "genesis" bc = 1000000.
Proof.
  intros Hreg Hhas. destruct (registrations_only_inv bc Hreg) as ([uuid [now Hc]] & _ & _ & _ & _ & Hk).
  unfold Blockchain.getAccountBalance.
  rewrite (resolveAddress_registered _ _ Hk Hhas), Hhas, Hc. reflexivity.
Qed.

(** With the reserve address not on record the reserve reads empty:
    the genesis block pays the literal address genesis, whatever account
    the name may resolve to. *)
Lemma reserve_unregistered (bc : Blockchain.t) :
  Blockchain.registrations_only bc ->
  JSMap.has "genesis" (Blockchain.accounts bc) = false ->
  Blockchain.getAccountBalance "genesis" bc = 0.
Proof.
  intros Hreg Hhas. destruct (registrations_only_inv bc Hreg) as ([uuid [now Hc]] & _).
  unfold Blockchain.getAccountBalance.
  destruct (JSMap.has (Blockchain.resolveAddress "genesis" bc) (Blockchain.accounts bc)) eqn:E;
    [|reflexivity].
  assert (Hne : Some "genesis" <> Some (Blockchain.resolveAddress "genesis" bc)).
  { intros [= H]. rewrite <- H in E. congruence. }
  cbn [negb]. rewrite Hc.
  cbn [fold_left]. unfold Blockchain.block_effect, Blockchain.createGenesisBlock.
  cbn [fold_left Block.new Block.transactions Block.miner Block.reward].
  unfold Blockchain.tx_effect.
  cbn [Transaction.new Transaction.from Transaction.to Transaction.amount].
  rewrite (bool_decide_eq_false_2 _ Hne).
  reflexivity.
Qed.

End Faucet.

(** C3 (as amended).  On a ledger on which only accounts have been
    registered, the claimant among them, a first claim goes one of two
    ways.  With the reserve address genesis registered it succeeds: the
    reserve's derived balance is the initial supply, the call returns a
    receipt for the faucet amount, records the claim time under the
    claimant's address and appends one unsigned faucet transaction,
    reserve to claimant, to the pending pool; the chain is untouched.
    With the reserve address not registered the reserve's balance reads 0
    and the claim throws FaucetEmpty, leaving the ledger as it was. *)
Theorem useFaucet_first_claim (claimant : string) (clock : Z) (uuid : string) (now now' : Z)
    (bc : Blockchain.t) :
  Blockchain.registrations_only bc ->
  JSMap.has (Blockchain.resolveAddress claimant bc) (Blockchain.accounts bc) = true ->
  let address := Blockchain.resolveAddress claimant bc in
  let faucetTransaction :=
    Transaction.new uuid now (Some "genesis") (Some address) 100 "faucet" in
  let bc' := snd (Blockchain.useFaucet claimant clock uuid now now' bc) in
  (JSMap.has "genesis" (Blockchain.accounts bc) = true ->
     Blockchain.getAccountBalance "genesis" bc = 1000000 /\
     fst (Blockchain.useFaucet claimant clock uuid now now' bc)
     = JS.Normal (Blockchain.mkReceipt 100 uuid address) /\
     bc' = Blockchain.set_pendingTransactions [faucetTransaction]
             (Blockchain.set_faucetHistory {[address := now']} bc) /\
     Blockchain.faucetHistory bc' !! address = Some now' /\
     Blockchain.pendingTransactions bc'
     = (Blockchain.pendingTransactions bc ++ [faucetTransaction])%list /\
     Blockchain.chain bc' = Blockchain.chain bc) /\
  (JSMap.has "genesis" (Blockchain.accounts bc) = false ->
     Blockchain.getAccountBalance "genesis" bc = 0 /\
     Blockchain.useFaucet claimant clock uuid now now' bc
     = (JS.Throw Blockchain.FaucetEmpty, bc)).
Proof.
  intros Hreg Hclaimant. cbv zeta.
  destruct (registrations_only_inv bc Hreg) as (_ & Hp & Hh & Ha & Hf & _).
  split; intros Hreserve.
  - pose proof (reserve_balance bc Hreg Hreserve) as Hbal.
    unfold Blockchain.useFaucet, Blockchain.canUseFaucet. run.
    rewrite Hclaimant, Hh, lookup_empty, Hf, Hbal, Ha, Hp.
    cbn. rewrite insert_empty, lookup_singleton_eq. repeat split.
  - pose proof (reserve_unregistered bc Hreg Hreserve) as Hbal.
    split; [exact Hbal|].
    unfold Blockchain.useFaucet, Blockchain.canUseFaucet. run.
    rewrite Hclaimant, Hh, lookup_empty, Hf, Hbal, Ha.
    reflexivity.
Qed.

Lemma registrations_only_with_carol : Blockchain.registrations_only Scenario.with_carol.
Proof.
  unfold Scenario.with_carol, Scenario.with_bob, Scenario.with_alice, Scenario.with_reserve,
    Scenario.exec.
  do 4 apply Blockchain.registrations_createAccount. apply Blockchain.registrations_new.
Qed.

Lemma with_carol_alice :
  JSMap.has (Blockchain.resolveAddress "alice" Scenario.with_carol)
            (Blockchain.accounts Scenario.with_carol) = true.
Proof. vm_compute. reflexivity. Qed.

(** alice claims on the ledger of the scenario, where the reserve, alice,
    bob and carol are registered. *)
Lemma useFaucet_first_claim_witness :
  fst (Scenario.claim Scenario.with_carol)
  = JS.Normal (Blockchain.mkReceipt 100 Scenario.uuid1
                 (Blockchain.resolveAddress "alice" Scenario.with_carol)).
Proof.
  apply (proj1 (useFaucet_first_claim "alice" 1730000000050 Scenario.uuid1 1730000000051
                  1730000000052 Scenario.with_carol registrations_only_with_carol
                  with_carol_alice)).
  vm_compute. reflexivity.
Defined.

(** C3 as stated fails: on a new ledger with alice registered and nothing
    else done, the reserve address is not an account, its balance reads 0,
    and alice's first claim throws FaucetEmpty. *)
Lemma useFaucet_without_reserve :
  Blockchain.registrations_only Scenario.alice_only /\
  JSMap.has (Blockchain.resolveAddress "alice" Scenario.alice_only)
            (Blockchain.accounts Scenario.alice_only) = true /\
  Blockchain.faucetHistory Scenario.alice_only = ∅ /\
  Blockchain.getAccountBalance "genesis" Scenario.alice_only = 0 /\
  Blockchain.useFaucet "alice" 1730000000050 Scenario.uuid1 1730000000051 1730000000052
                       Scenario.alice_only
  = (JS.Throw Blockchain.FaucetEmpty, Scenario.alice_only).
Proof.
  split.
  { unfold Scenario.alice_only, Scenario.exec.
    apply Blockchain.registrations_createAccount, Blockchain.registrations_new. }
  do 3 (split; [vm_compute; reflexivity|]).
  vm_compute. reflexivity.
Qed.

(** ** Difficulty retargeting *)

Section Retarget.

Lemma window_totals_from (window : list Block.t) (total count : Z) :
  fold_left
    (fun '(totalMiningTime, count) block =>
       if JS.truthy_num (Block.miningTime block)
       then (totalMiningTime + default 0 (Block.miningTime block), count + 1)
       else (totalMiningTime, count))
    window (total, count)
  = (total + foldr Z.add 0 (Blockchain.counted_durations window),
     count + Z.of_nat (length (Blockchain.counted_durations window))).
Proof.
  revert total count. induction window as [|b window IH]; intros total count.
  - unfold Blockchain.counted_durations. cbn. f_equal; lia.
  - cbn [fold_left]. unfold Blockchain.counted_durations in *. cbn [omap list_omap].
    destruct (Block.miningTime b) as [d|] eqn:Hd; cbn [JS.truthy_num default option_bind].
    + rewrite filter_cons. unfold id.
      destruct (Z.eqb_spec d 0) as [->|Hne]; cbn [negb].
      * rewrite decide_False by (intros H; by apply H). apply IH.
      * rewrite decide_True by done. rewrite IH. cbn [foldr length].
        f_equal; lia.
    + apply IH.
Qed.

(** The loop computes the sum and the number of the counted durations. *)
Lemma window_totals_counted (window : list Block.t) :
  Blockchain.window_totals window
  = (foldr Z.add 0 (Blockchain.counted_durations window),
     Z.of_nat (length (Blockchain.counted_durations window))).
Proof. unfold Blockchain.window_totals. rewrite window_totals_from. f_equal. Qed.

Lemma Qlt_bool_iff (a b : Q) : JS.Qlt_bool a b = true <-> (a < b)%Q.
Proof.
  unfold JS.Qlt_bool. rewrite negb_true_iff. split.
  - intros H. apply Qnot_le_lt. intros Hle. apply Qle_bool_iff in Hle. congruence.
  - intros H. destruct (Qle_bool b a) eqn:E; [|reflexivity].
    apply Qle_bool_iff in E. by apply Qlt_not_le in H.
Qed.

Lemma div_positive (a : Q) (target : Z) :
  0 < target -> JS.div a (inject_Z target) = JS.Finite (a / inject_Z target).
Proof.
  intros H. unfold JS.div.
  destruct (Qeq_bool (inject_Z target) 0) eqn:E; [|reflexivity].
  apply Qeq_bool_iff in E. unfold Qeq, inject_Z in E. cbn in E. lia.
Qed.


Lemma truthy_num_recorded (b : Block.t) :
  JS.truthy_num (Block.miningTime b) = true <-> recorded b.
Proof.
  unfold recorded. destruct (Block.miningTime b) as [d|]; cbn.
  - rewrite negb_true_iff, Z.eqb_neq. split; [eauto|]. by intros (? & [= <-] & ?).
  - split; [discriminate|]. by intros (? & [=] & _).
Qed.

Lemma counted_durations_recorded (b : Block.t) (window : list Block.t) :
  recorded b -> Blockchain.counted_durations (b :: window) <> [].
Proof.
  intros (d & Hd & Hne). unfold Blockchain.counted_durations.
  cbn [omap list_omap]. rewrite Hd.
  rewrite filter_cons, decide_True by done. discriminate.
Qed.

End Retarget.

(** C5 (as amended).  Below retargetWindow blocks adjustDifficulty is a
    no-op.  From retargetWindow blocks on, it is a no-op when the oldest or
    the newest block of the window has no non-zero duration on record;
    otherwise it takes the mean of the non-zero recorded durations of the
    window (the other blocks are skipped) and, with ratio = mean /
    targetInterval, adds exactly 1 to the difficulty when ratio < 1/2,
    subtracts exactly 1, not going below 1, when ratio > 2, and leaves it
    unchanged in between. *)
Theorem adjustDifficulty_spec (bc : Blockchain.t) :
  let len := Z.of_nat (length (Blockchain.chain bc)) in
  let retargetWindow := Blockchain.difficultyAdjustmentInterval bc in
  (len < retargetWindow -> Blockchain.adjustDifficulty bc = (JS.Normal tt, bc)) /\
  (0 < retargetWindow <= len -> 0 < Blockchain.targetBlockTime bc ->
   forall oldest newest,
     Blockchain.chain bc !! Z.to_nat (len - retargetWindow) = Some oldest ->
     last (Blockchain.chain bc) = Some newest ->
     (~ recorded oldest \/ ~ recorded newest ->
        Blockchain.adjustDifficulty bc = (JS.Normal tt, bc)) /\
     (recorded oldest -> recorded newest ->
        let durations :=
          Blockchain.counted_durations
            (drop (Z.to_nat (len - retargetWindow)) (Blockchain.chain bc)) in
        let meanDuration :=
          (inject_Z (foldr Z.add 0%Z durations) / inject_Z (Z.of_nat (length durations)))%Q in
        let ratio := (meanDuration / inject_Z (Blockchain.targetBlockTime bc))%Q in
        durations <> [] /\
        ((ratio < 1 # 2)%Q ->
           Blockchain.adjustDifficulty bc
           = (JS.Normal tt, Blockchain.set_difficulty (Blockchain.difficulty bc + 1) bc)) /\
        ((2 < ratio)%Q ->
           Blockchain.adjustDifficulty bc
           = (JS.Normal tt,
              Blockchain.set_difficulty (Z.max 1 (Blockchain.difficulty bc - 1)) bc)) /\
        ((1 # 2 <= ratio)%Q -> (ratio <= 2)%Q ->
           Blockchain.adjustDifficulty bc = (JS.Normal tt, bc)))).
Proof.
  cbv zeta. unfold Blockchain.adjustDifficulty. run. cbv zeta. split.
  - intros H. apply Z.ltb_lt in H. rewrite H. reflexivity.
  - intros [Hw Hlen] Htarget oldest newest Hold Hnew.
    apply Z.ltb_ge in Hlen. rewrite Hlen.
    unfold Blockchain.chain_at, Blockchain.getLatestBlock.
    apply Z.ltb_ge in Hlen.
    replace (_ - _ <? 0) with false by (symmetry; apply Z.ltb_ge; lia).
    rewrite Hold, Hnew. split.
    + intros Hmiss.
      assert (JS.truthy_num (Block.miningTime oldest) = false
              \/ JS.truthy_num (Block.miningTime newest) = false) as [-> | ->].
      { rewrite <- !truthy_num_recorded in Hmiss.
        destruct Hmiss as [H|H]; [left|right]; by apply not_true_is_false. }
      * reflexivity.
      * rewrite orb_true_r. reflexivity.
    + intros Ho Hn.
      pose proof (counted_durations_recorded oldest
                    (drop (S (Z.to_nat (Z.of_nat (length (Blockchain.chain bc))
                                        - Blockchain.difficultyAdjustmentInterval bc)))
                          (Blockchain.chain bc)) Ho) as Hne.
      rewrite <- (drop_S _ _ _ Hold) in Hne.
      apply truthy_num_recorded in Ho, Hn. rewrite Ho, Hn. cbn [negb orb].
      rewrite window_totals_counted.
      set (durations := Blockchain.counted_durations _) in *.
      assert ((Z.of_nat (length durations) =? 0) = false) as ->.
      { apply Z.eqb_neq. destruct durations; [done | cbn; lia]. }
      rewrite (div_positive _ _ Htarget). cbn [JS.lt JS.gt].
      set (ratio := (_ / _ / _)%Q).
      split; [exact Hne|]. split; [|split].
      * intros H. apply Qlt_bool_iff in H. rewrite H. reflexivity.
      * intros H.
        assert (JS.Qlt_bool ratio (1 # 2) = false) as ->.
        { apply not_true_is_false. rewrite Qlt_bool_iff. lra. }
        apply Qlt_bool_iff in H. rewrite H. reflexivity.
      * intros H1 H2.
        assert (JS.Qlt_bool ratio (1 # 2) = false) as ->.
        { apply not_true_is_false. rewrite Qlt_bool_iff. lra. }
        assert (JS.Qlt_bool 2 ratio = false) as ->.
        { apply not_true_is_false. rewrite Qlt_bool_iff. lra. }
        reflexivity.
Qed.

(** Six blocks, the last five mined in one second each against a target
    of ten: the next retarget raises the difficulty from 2 to 3. *)
Lemma quick5_window :
  0 < Blockchain.difficultyAdjustmentInterval Scenario.quick5
    <= Z.of_nat (length (Blockchain.chain Scenario.quick5)).
Proof. vm_compute. split; [reflexivity | discriminate]. Qed.

Lemma quick5_target : 0 < Blockchain.targetBlockTime Scenario.quick5.
Proof. vm_compute. reflexivity. Qed.

Lemma quick5_oldest_lookup :
  Blockchain.chain Scenario.quick5
    !! Z.to_nat (Z.of_nat (length (Blockchain.chain Scenario.quick5))
                 - Blockchain.difficultyAdjustmentInterval Scenario.quick5)
  = Some Scenario.quick5_oldest.
Proof. vm_compute. reflexivity. Qed.

Lemma quick5_newest_last :
  last (Blockchain.chain Scenario.quick5) = Some Scenario.quick5_newest.
Proof. vm_compute. reflexivity. Qed.

Lemma quick5_oldest_recorded : recorded Scenario.quick5_oldest.
Proof. exists 1000. split; [vm_compute; reflexivity | discriminate]. Qed.

Lemma quick5_newest_recorded : recorded Scenario.quick5_newest.
Proof. exists 1000. split; [vm_compute; reflexivity | discriminate]. Qed.

Lemma quick5_ratio :
  let durations :=
    Blockchain.counted_durations
      (drop (Z.to_nat (Z.of_nat (length (Blockchain.chain Scenario.quick5))
                       - Blockchain.difficultyAdjustmentInterval Scenario.quick5))
            (Blockchain.chain Scenario.quick5)) in
  let meanDuration :=
    (inject_Z (foldr Z.add 0%Z durations) / inject_Z (Z.of_nat (length durations)))%Q in
  let ratio := (meanDuration / inject_Z (Blockchain.targetBlockTime Scenario.quick5))%Q in
  (ratio < 1 # 2)%Q.
Proof. vm_compute. reflexivity. Qed.

Lemma adjustDifficulty_spec_witness :
  Blockchain.adjustDifficulty Scenario.quick5
  = (JS.Normal tt,
     Blockchain.set_difficulty (Blockchain.difficulty Scenario.quick5 + 1) Scenario.quick5).
Proof.
  exact (proj1 (proj2 (proj2 (proj2 (adjustDifficulty_spec Scenario.quick5)
                                quick5_window quick5_target
                                Scenario.quick5_oldest Scenario.quick5_newest
                                quick5_oldest_lookup quick5_newest_last)
                         quick5_oldest_recorded quick5_newest_recorded))
           quick5_ratio).
Defined.

(** C5 as stated fails: with exactly retargetWindow blocks the window
    starts at the genesis block, which has no duration on record.  The
    other four blocks took one second each, so skipping the genesis block
    gives a ratio of 1/10 and the difficulty should go from 2 to 3; the
    code returns without touching it. *)
Lemma adjustDifficulty_window_at_genesis :
  Z.of_nat (length (Blockchain.chain Scenario.quick4))
  = Blockchain.difficultyAdjustmentInterval Scenario.quick4 /\
  map Block.miningTime (Blockchain.chain Scenario.quick4)
  = [None; Some 1000; Some 1000; Some 1000; Some 1000] /\
  Blockchain.difficulty Scenario.quick4 = 2 /\
  Spec.adjustDifficulty Scenario.quick4 = 3 /\
  Blockchain.adjustDifficulty Scenario.quick4 = (JS.Normal tt, Scenario.quick4).
Proof.
  do 4 (split; [vm_compute; reflexivity|]).
  vm_compute. reflexivity.
Qed.

(** ** Hash linkage *)

Section Linkage.


Lemma hash_linked_singleton (b : Block.t) : Blockchain.hash_linked [b].
Proof. intros [|i] previousBlock currentBlock H1 H2; cbn in *; discriminate. Qed.

Lemma hash_linked_extends (c c' : list Block.t) :
  Blockchain.hash_linked c -> extends c c' -> Blockchain.hash_linked c'.
Proof.
  intros Hc [-> | (latest & b & Hlast & Hprev & ->)]; [exact Hc|].
  intros i previousBlock currentBlock H1 H2.
  destruct (decide (S i < length c)%nat) as [Hlt|Hge].
  - rewrite lookup_app_l in H1 by lia. rewrite lookup_app_l in H2 by lia.
    exact (Hc i _ _ H1 H2).
  - destruct (decide (S i = length c)) as [Heq|Hne].
    + rewrite lookup_app_l in H1 by lia.
      rewrite lookup_app_r in H2 by lia.
      replace (S i - length c)%nat with 0%nat in H2 by lia. cbn in H2.
      rewrite last_lookup in Hlast. replace (pred (length c)) with i in Hlast by lia.
      congruence.
    + apply lookup_lt_Some in H2. rewrite length_app in H2. cbn in H2. lia.
Qed.

(** Retargeting writes the difficulty and nothing else. *)
Lemma adjustDifficulty_frame (bc : Blockchain.t) :
  Blockchain.chain (snd (Blockchain.adjustDifficulty bc)) = Blockchain.chain bc /\
  Blockchain.pendingTransactions (snd (Blockchain.adjustDifficulty bc))
  = Blockchain.pendingTransactions bc.
Proof.
  unfold Blockchain.adjustDifficulty. run.
  repeat case_match; split; reflexivity.
Qed.

Lemma minePendingTransactions_extends (fuel : nat) (a : string) (now t0 t1 : Z)
    (bc : Blockchain.t) :
  extends (Blockchain.chain bc)
          (Blockchain.chain (snd (Blockchain.minePendingTransactions fuel a now t0 t1 bc))).
Proof.
  unfold Blockchain.minePendingTransactions. run.
  destruct (negb _); [by left|].
  pose proof (adjustDifficulty_frame bc) as [Hchain _].
  destruct (Blockchain.adjustDifficulty bc) as [[[]| |] bc1]; cbn [snd] in Hchain;
    [|left; exact Hchain|left; exact Hchain].
  unfold Blockchain.getLatestBlock. rewrite Hchain.
  destruct (last (Blockchain.chain bc)) as [latest|] eqn:Hlast; [|left; exact Hchain].
  destruct (Block.mineBlock _ _ _ _) as [mined| |] eqn:Hmine;
    [|left; exact Hchain|left; exact Hchain].
  right. exists latest, (Block.set_stats (t1 - t0)
    (JS.div (inject_Z (Block.nonce mined)) (inject_Z (t1 - t0) / 1000)) mined).
  split; [exact Hlast|]. split; [|reflexivity].
  apply mineBlock_result in Hmine as (_ & _ & _ & Hprev & _). exact Hprev.
Qed.

Lemma startMiningCompetition_extends (fuel : nat) (rnd : Q) (now t0 t1 : Z)
    (bc : Blockchain.t) :
  extends (Blockchain.chain bc)
          (Blockchain.chain (snd (Blockchain.startMiningCompetition fuel rnd now t0 t1 bc))).
Proof.
  unfold Blockchain.startMiningCompetition. run.
  destruct (_ =? _)%nat; [by left|]. destruct (_ =? _)%nat; [by left|].
  destruct (Blockchain.draw _ _ _ _) as [i|]; [|by left].
  destruct (Blockchain.miners bc !! i) as [winningMiner|]; [|by left].
  pose proof (minePendingTransactions_extends fuel (Miner.address winningMiner) now t0 t1 bc)
    as Hext.
  destruct (Blockchain.minePendingTransactions _ _ _ _ _ _) as [[[]| |] bc1]; exact Hext.
Qed.

Lemma checkAndStartMining_extends (fuel : nat) (clock : Z) (rnd : Q) (now t0 t1 : Z)
    (bc : Blockchain.t) :
  extends (Blockchain.chain bc)
    (Blockchain.chain (snd (Blockchain.checkAndStartMining fuel clock rnd now t0 t1 bc))).
Proof.
  unfold Blockchain.checkAndStartMining. run.
  destruct (negb _); [by left|].
  destruct (Blockchain.getLatestBlock bc); [|by left].
  destruct (_ || _); [|by left]. apply startMiningCompetition_extends.
Qed.

(** The other mutators leave the chain alone. *)
Lemma chain_frame (bc : Blockchain.t) :
  (forall a isAlias now rnd now',
     Blockchain.chain (snd (Blockchain.createAccount a isAlias now rnd now' bc))
     = Blockchain.chain bc) /\
  (forall tx,
     Blockchain.chain (snd (Blockchain.createTransaction tx bc)) = Blockchain.chain bc) /\
  (forall a clock uuid now now',
     Blockchain.chain (snd (Blockchain.useFaucet a clock uuid now now' bc))
     = Blockchain.chain bc) /\
  (forall a hp now,
     Blockchain.chain (snd (Blockchain.addMiner a hp now bc)) = Blockchain.chain bc) /\
  (forall a, Blockchain.chain (snd (Blockchain.removeMiner a bc)) = Blockchain.chain bc) /\
  (forall config,
     Blockchain.chain (snd (Blockchain.startAutoMining config bc)) = Blockchain.chain bc) /\
  Blockchain.chain (snd (Blockchain.stopAutoMining bc)) = Blockchain.chain bc.
Proof.
  repeat apply conj; intros;
    unfold Blockchain.createAccount, Blockchain.createTransaction, Blockchain.useFaucet,
      Blockchain.addMiner, Blockchain.removeMiner, Blockchain.startAutoMining,
      Blockchain.stopAutoMining;
    run; repeat case_match; reflexivity.
Qed.

(** Every public mutator extends the chain in this sense. *)
Lemma step_extends (bc bc' : Blockchain.t) :
  Blockchain.step bc bc' -> extends (Blockchain.chain bc) (Blockchain.chain bc').
Proof.
  pose proof (chain_frame bc) as (H1 & H2 & H3 & H4 & H5 & H6 & H7).
  destruct 1; try (left; auto; fail).
  - apply minePendingTransactions_extends.
  - apply startMiningCompetition_extends.
  - apply checkAndStartMining_extends.
Qed.

End Linkage.

(** C7.  Hash linkage, chain[i].previousHash = chain[i-1].hash for all
    i > 0, holds on a new ledger, is preserved by every public operation
    (account creation, transaction submission, faucet claims, mining, and
    the scheduler's operations), and so holds in every reachable ledger.
    The hashes compared are the stored ones. *)
Theorem hash_linkage_invariant :
  (forall uuid now now', Blockchain.hash_linked (Blockchain.chain (Blockchain.new uuid now now'))) /\
  (forall bc bc', Blockchain.step bc bc' ->
     Blockchain.hash_linked (Blockchain.chain bc) ->
     Blockchain.hash_linked (Blockchain.chain bc')) /\
  (forall bc, Blockchain.reachable bc -> Blockchain.hash_linked (Blockchain.chain bc)).
Proof.
  assert (forall bc bc', Blockchain.step bc bc' ->
            Blockchain.hash_linked (Blockchain.chain bc) ->
            Blockchain.hash_linked (Blockchain.chain bc')) as Hstep.
  { intros bc bc' Hs Hl. exact (hash_linked_extends _ _ Hl (step_extends _ _ Hs)). }
  split; [intros; apply hash_linked_singleton|]. split; [exact Hstep|].
  induction 1 as [uuid now now'|bc bc' _ IH Hs].
  - apply hash_linked_singleton.
  - exact (Hstep _ _ Hs IH).
Qed.

Section Run.

Lemma claimed_finished : Blockchain.finished (Scenario.mine_claim Scenario.claimed).
Proof. vm_compute. exact I. Qed.

Lemma paid_twice_finished :
  Blockchain.finished (Scenario.mine_transfers Scenario.paid_twice).
Proof. vm_compute. exact I. Qed.

Lemma reachable_with_carol : Blockchain.reachable Scenario.with_carol.
Proof.
  unfold Scenario.with_carol, Scenario.with_bob, Scenario.with_alice, Scenario.with_reserve,
    Scenario.exec.
  do 4 (eapply Blockchain.reachable_step; [|apply Blockchain.step_createAccount]).
  apply Blockchain.reachable_new.
Qed.

Lemma reachable_funded : Blockchain.reachable Scenario.funded.
Proof.
  unfold Scenario.funded, Scenario.exec.
  eapply Blockchain.reachable_step;
    [|apply Blockchain.step_minePendingTransactions, claimed_finished].
  unfold Scenario.claimed, Scenario.claim, Scenario.exec.
  eapply Blockchain.reachable_step; [|apply Blockchain.step_useFaucet].
  exact reachable_with_carol.
Qed.

Lemma reachable_overdrawn : Blockchain.reachable Scenario.overdrawn.
Proof.
  unfold Scenario.overdrawn, Scenario.exec.
  eapply Blockchain.reachable_step;
    [|apply Blockchain.step_minePendingTransactions, paid_twice_finished].
  unfold Scenario.paid_twice, Scenario.paid_once, Scenario.exec.
  do 2 (eapply Blockchain.reachable_step; [|apply Blockchain.step_createTransaction]).
  exact reachable_funded.
Qed.

End Run.

(** The three blocks of the scenario (genesis, the faucet claim, the two
    transfers) are linked. *)
Lemma hash_linkage_invariant_witness :
  Blockchain.hash_linked (Blockchain.chain Scenario.overdrawn).
Proof. exact (proj2 (proj2 hash_linkage_invariant) Scenario.overdrawn reachable_overdrawn). Defined.

(** ** Spending the same balance twice *)

(** C9.  The balance that createTransaction checks is computed from the
    chain alone, whatever the pending pool holds.  So, in the scenario:
    alice's derived balance is 100; two transfers of 100 from alice, neither
    above that balance, are both accepted into the pool; once the pool is
    mined her derived balance is -100. *)
Theorem pending_pool_double_spend :
  (forall a pool bc,
     Blockchain.getAccountBalance a (Blockchain.set_pendingTransactions pool bc)
     = Blockchain.getAccountBalance a bc) /\
  exists (bc : Blockchain.t) (sender : string) (tx1 tx2 : Transaction.t),
    let r1 := Blockchain.createTransaction tx1 bc in
    let r2 := Blockchain.createTransaction tx2 (snd r1) in
    let r3 := Scenario.mine_transfers (snd r2) in
    Blockchain.reachable bc /\
    Transaction.from tx1 = Some sender /\
    Transaction.from tx2 = Some sender /\
    Transaction.amount tx1 <= Blockchain.getAccountBalance sender bc /\
    Transaction.amount tx2 <= Blockchain.getAccountBalance sender bc /\
    (exists signed1, fst r1 = JS.Normal signed1) /\
    (exists signed2, fst r2 = JS.Normal signed2) /\
    length (Blockchain.pendingTransactions (snd r2)) = 2%nat /\
    fst r3 = JS.Normal tt /\
    Blockchain.pendingTransactions (snd r3) = [] /\
    Blockchain.getAccountBalance sender (snd r3) = -100.
Proof.
  split; [exact getAccountBalance_pending|].
  exists Scenario.funded, "alice", Scenario.transfer1, Scenario.transfer2.
  cbv zeta. split; [exact reachable_funded|].
  do 2 (split; [reflexivity|]).
  do 2 (split; [vm_compute; discriminate|]).
  do 2 (split; [eexists; vm_compute; reflexivity|]).
  do 3 (split; [vm_compute; reflexivity|]).
  vm_compute. reflexivity.
Qed.

(* ===================================================================== *)
(** * Further properties of the ledger                                    *)
(* ===================================================================== *)
(** ** What each mutator does to the ledger *)

Section Effects.

Lemma adjustDifficulty_retargeted (bc : Blockchain.t) :
  retargeted bc (snd (Blockchain.adjustDifficulty bc)).
Proof.
  unfold retargeted, Blockchain.adjustDifficulty. run.
  repeat case_match; cbn [snd]; auto.
Qed.

(** Retargeting throws only on an empty chain, and then writes nothing. *)
Lemma adjustDifficulty_completes (bc : Blockchain.t) :
  fst (Blockchain.adjustDifficulty bc) = JS.Normal tt \/
  Blockchain.adjustDifficulty bc = (JS.Throw Blockchain.TypeError, bc).
Proof.
  unfold Blockchain.adjustDifficulty. run.
  repeat case_match; cbn [fst]; auto.
Qed.

(** The search writes nonce and hash only. *)
Lemma search_frame (fuel : nat) (difficulty : Z) (target : string) (b found : Block.t) :
  Block.search fuel difficulty target b = Some found ->
  Block.timestamp found = Block.timestamp b /\
  Block.transactions found = Block.transactions b /\
  Block.reward found = Block.reward b /\
  Block.miningTime found = Block.miningTime b /\
  Block.hashRate found = Block.hashRate b.
Proof.
  revert b. induction fuel as [|fuel IH]; intros b; simpl;
    destruct (String.eqb _ target); try discriminate.
  - intros [= <-]. auto.
  - intros [= <-]. auto.
  - intros H. apply IH in H. exact H.
Qed.

Lemma mineBlock_frame (fuel : nat) (difficulty : Z) (minerAddress : string)
    (b mined : Block.t) :
  Block.mineBlock fuel difficulty minerAddress b = JS.Normal mined ->
  Block.timestamp mined = Block.timestamp b /\
  Block.transactions mined = Block.transactions b.
Proof.
  unfold Block.mineBlock. destruct (JS.zeros difficulty); try discriminate.
  destruct (Block.search _ _ _ _) as [found|] eqn:Hs; [|discriminate].
  intros [= <-]. apply search_frame in Hs as (Ht & Htx & _). auto.
Qed.

(** minePendingTransactions: it refuses an unregistered miner and writes
    nothing; otherwise it retargets, and then either stops there (the
    search did not end, or threw) or appends the mined block and empties
    the pool. *)
Lemma minePendingTransactions_effect (fuel : nat) (a : string) (now t0 t1 : Z)
    (bc : Blockchain.t) :
  let r := Blockchain.minePendingTransactions fuel a now t0 t1 bc in
  let bc1 := snd (Blockchain.adjustDifficulty bc) in
  (JSMap.has (Blockchain.resolveAddress a bc) (Blockchain.accounts bc) = false /\
   r = (JS.Throw Blockchain.InvalidMinerAddress, bc)) \/
  (JSMap.has (Blockchain.resolveAddress a bc) (Blockchain.accounts bc) = true /\
   ((fst r <> JS.Normal tt /\ (snd r = bc \/ snd r = bc1)) \/
    exists block,
      mined bc (Blockchain.difficulty bc1) a now t0 t1 block /\
      r = (JS.Normal tt, appended block bc1))).
Proof.
  cbv zeta. unfold Blockchain.minePendingTransactions. run.
  destruct (JSMap.has _ _) eqn:Hhas; cbn [negb]; [right|left; auto].
  split; [reflexivity|].
  pose proof (adjustDifficulty_frame bc) as [Hchain Hpool].
  destruct (Blockchain.adjustDifficulty bc) as [[[]| |] bc1]; cbn [snd] in *;
    [|left; split; [discriminate|auto]..].
  unfold Blockchain.getLatestBlock. rewrite Hchain.
  destruct (last (Blockchain.chain bc)) as [latest|] eqn:Hlast;
    [|left; split; [discriminate|auto]].
  destruct (Block.mineBlock _ _ _ _) as [found| |] eqn:Hmine;
    [|left; split; [discriminate|auto]..].
  right. eexists. split; [|unfold appended; rewrite Hchain; reflexivity].
  pose proof (mineBlock_frame _ _ _ _ _ Hmine) as (Ht & Htx).
  apply mineBlock_result in Hmine as (Hz & Hm & Hr & Hprev & _).
  exists latest. cbn. rewrite Hpool in Htx. auto 10.
Qed.

End Effects.

Section Changes.

Lemma createTransaction_effect (tx : Transaction.t) (bc : Blockchain.t) :
  (exists msg, Blockchain.createTransaction tx bc = (JS.Throw msg, bc)) \/
  exists signed,
    submitted bc tx signed /\
    Blockchain.createTransaction tx bc
    = (JS.Normal signed,
       Blockchain.set_pendingTransactions
         (Blockchain.pendingTransactions bc ++ [signed])%list bc).
Proof.
  unfold submitted, Blockchain.createTransaction. run. cbv zeta.
  destruct (negb (JS.truthy_str (Transaction.from tx))
            || negb (JS.truthy_str (Transaction.to tx))); [left; eauto|].
  destruct (JSMap.has _ _) eqn:Hf; cbn [negb orb]; [|left; eauto].
  destruct (JSMap.has _ _) eqn:Ht in |- *; cbn [negb]; [|left; eauto].
  destruct (_ <? _) eqn:Hb; [left; eauto|].
  apply Z.ltb_ge in Hb. right. eexists. split; [|reflexivity]. auto.
Qed.

Lemma useFaucet_effect (a : string) (clock : Z) (uuid : string) (now now' : Z)
    (bc : Blockchain.t) :
  let address := Blockchain.resolveAddress a bc in
  (exists msg, Blockchain.useFaucet a clock uuid now now' bc = (JS.Throw msg, bc)) \/
  (JSMap.has address (Blockchain.accounts bc) = true /\
   Blockchain.faucetAmount bc
     <= Blockchain.getAccountBalance (Blockchain.faucetAddress bc) bc /\
   Blockchain.useFaucet a clock uuid now now' bc
   = (JS.Normal (Blockchain.mkReceipt (Blockchain.faucetAmount bc) uuid address),
      Blockchain.set_pendingTransactions
        (Blockchain.pendingTransactions bc
           ++ [Transaction.new uuid now (Some (Blockchain.faucetAddress bc))
                 (Some address) (Blockchain.faucetAmount bc) "faucet"])%list
        (Blockchain.set_faucetHistory
           (<[address := now']> (Blockchain.faucetHistory bc)) bc))).
Proof.
  cbv zeta. unfold Blockchain.useFaucet, Blockchain.canUseFaucet. run.
  destruct (JSMap.has _ _) eqn:Hhas; cbn [negb]; [|left; eauto].
  destruct (negb (Blockchain.canUse _)) eqn:Hcan; [left; eauto|].
  destruct (_ <? _) eqn:Hb; [left; eauto|].
  apply Z.ltb_ge in Hb. right. auto.
Qed.

Lemma clamp_hashPower_bounds (hashPower : Q) :
  (1 # 10 <= Blockchain.clamp_hashPower hashPower)%Q /\
  (Blockchain.clamp_hashPower hashPower <= 10)%Q.
Proof.
  unfold Blockchain.clamp_hashPower.
  destruct (Qle_bool hashPower 10) eqn:H1.
  - destruct (Qle_bool (1 # 10) hashPower) eqn:H2.
    + apply Qle_bool_iff in H1, H2. auto.
    + split; [apply Qle_refl | discriminate].
  - split; discriminate.
Qed.

Lemma addMiner_effect (a : string) (hashPower : Q) (now : Z) (bc : Blockchain.t) :
  (exists error, Blockchain.addMiner a hashPower now bc
                 = (JS.Normal (Blockchain.Failure error), bc)) \/
  exists miner,
    Miner.address miner = Blockchain.resolveAddress a bc /\
    Miner.address miner <> "" /\
    Forall (fun m => Miner.address m <> Miner.address miner) (Blockchain.miners bc) /\
    Miner.hashPower miner = Blockchain.clamp_hashPower hashPower /\
    Miner.isActive miner = true /\
    Miner.blocksMined miner = 0 /\
    Miner.totalRewards miner = 0 /\
    Blockchain.addMiner a hashPower now bc
    = (JS.Normal (Blockchain.Success miner),
       Blockchain.set_miners (Blockchain.miners bc ++ [miner])%list bc).
Proof.
  unfold Blockchain.addMiner. run.
  destruct (String.eqb _ "") eqn:He; [left; eauto|].
  destruct (find _ _) as [m|] eqn:Hfind; [left; eauto|].
  right. eexists (Miner.mk _ _ _ _ _ _ _).
  cbn [Miner.address Miner.hashPower Miner.isActive Miner.blocksMined Miner.totalRewards].
  split; [reflexivity|].
  split; [by apply eqb_false_iff|].
  split; [|repeat split].
  apply Forall_forall. intros m Hin.
  apply list_elem_of_In in Hin.
  apply (find_none _ _ Hfind) in Hin. by apply eqb_false_iff.
Qed.

Lemma removeMiner_effect (a : string) (bc : Blockchain.t) :
  (exists error, Blockchain.removeMiner a bc = (JS.Normal (Blockchain.Failure error), bc)) \/
  exists rest,
    Blockchain.remove_first (Blockchain.resolveAddress a bc) (Blockchain.miners bc)
    = Some rest /\
    Blockchain.removeMiner a bc
    = (JS.Normal (Blockchain.Success tt), Blockchain.set_miners rest bc).
Proof.
  unfold Blockchain.removeMiner. run.
  destruct (String.eqb _ ""); [left; eauto|].
  destruct (Blockchain.remove_first _ _) as [rest|]; [right; eauto | left; eauto].
Qed.

Lemma or_default_nonzero (x : option Z) (d : Z) : d <> 0 -> Blockchain.or_default x d <> 0.
Proof.
  intros Hd. unfold Blockchain.or_default.
  destruct x as [n|]; cbn; [|exact Hd].
  destruct (Z.eqb_spec n 0); cbn; [exact Hd | assumption].
Qed.

(** The second half of startMiningCompetition, after the block was
    appended. *)
Lemma startMiningCompetition_effect (fuel : nat) (rnd : Q) (now t0 t1 : Z)
    (bc : Blockchain.t) :
  let r := Blockchain.startMiningCompetition fuel rnd now t0 t1 bc in
  let bc1 := snd (Blockchain.adjustDifficulty bc) in
  r = (JS.Normal tt, bc) \/
  exists i winner,
    Blockchain.miners bc <> [] /\ Blockchain.pendingTransactions bc <> [] /\
    Blockchain.miners bc !! i = Some winner /\
    (r = (JS.Throw Blockchain.InvalidMinerAddress, bc) \/
     (fst r <> JS.Normal tt /\ (snd r = bc \/ snd r = bc1)) \/
     exists block,
       mined bc (Blockchain.difficulty bc1) (Miner.address winner) now t0 t1 block /\
       r = (JS.Normal tt, credited i (appended block bc1))).
Proof.
  cbv zeta. unfold Blockchain.startMiningCompetition. run.
  destruct (Blockchain.miners bc) as [|m0 ms] eqn:Hms; [by left|]. rewrite <- Hms.
  replace (length (Blockchain.miners bc) =? 0)%nat with false by (by rewrite Hms).
  destruct (Blockchain.pendingTransactions bc) as [|p0 ps] eqn:Hps; [by left|].
  rewrite <- Hps.
  replace (length (Blockchain.pendingTransactions bc) =? 0)%nat with false
    by (by rewrite Hps).
  destruct (Blockchain.draw _ _ _ _) as [i|]; [|by left].
  destruct (Blockchain.miners bc !! i) as [winner|] eqn:Hi; [|by left].
  right. exists i, winner.
  split; [by rewrite Hms|]. split; [by rewrite Hps|]. split; [exact Hi|].
  pose proof (minePendingTransactions_effect fuel (Miner.address winner) now t0 t1 bc) as H.
  cbv zeta in H.
  destruct H as [[_ ->] | [_ [[Hne Hsnd] | (block & Hmined & ->)]]].
  - by left.
  - right; left.
    destruct (Blockchain.minePendingTransactions _ _ _ _ _ _) as [[[]| |] bc2];
      cbn [fst snd] in *; [done| |]; (split; [discriminate|exact Hsnd]).
  - right; right. exists block. split; [exact Hmined|]. reflexivity.
Qed.

(** Every public mutator changes the ledger in one of the listed ways. *)
Lemma step_change (bc bc' : Blockchain.t) : Blockchain.step bc bc' -> change bc bc'.
Proof.
  assert (Hretarget : forall x, x = bc \/ x = snd (Blockchain.adjustDifficulty bc) ->
                                change bc x).
  { intros x [-> | ->]; [apply change_nothing|].
    apply change_retarget, adjustDifficulty_retargeted. }
  assert (Hcompete : forall fuel rnd now t0 t1,
            change bc (snd (Blockchain.startMiningCompetition fuel rnd now t0 t1 bc))).
  { intros. pose proof (startMiningCompetition_effect fuel rnd now t0 t1 bc) as H.
    cbv zeta in H.
    destruct H as [-> | (i & winner & _ & _ & Hi & [-> | [[_ Hsnd] | (block & Hm & ->)]])].
    - apply change_nothing.
    - apply change_nothing.
    - by apply Hretarget.
    - eapply change_compete; [apply adjustDifficulty_retargeted | exact Hi | exact Hm]. }
  destruct 1 as [a isAlias now rnd now'|tx|a clock uuid now now'|fuel a now t0 t1 _
                |a hp now|a|config| |fuel rnd now t0 t1 _|fuel clock rnd now t0 t1 _].
  - destruct (createAccount_step a isAlias now rnd now' bc)
      as [-> | (address & account & Hfresh & Haddr & ->)]; [apply change_nothing|].
    rewrite (JSMap_set_fresh _ _ _ Hfresh). by apply change_account.
  - destruct (createTransaction_effect tx bc) as [[msg ->] | (signed & Hs & ->)];
      [apply change_nothing|]. by eapply change_submit.
  - pose proof (useFaucet_effect a clock uuid now now' bc) as H. cbv zeta in H.
    destruct H as [[msg ->] | (Hhas & Hbal & ->)]; [apply change_nothing|].
    by apply change_claim.
  - pose proof (minePendingTransactions_effect fuel a now t0 t1 bc) as H. cbv zeta in H.
    destruct H as [[_ ->] | [_ [[_ Hsnd] | (block & Hm & ->)]]].
    + apply change_nothing.
    + by apply Hretarget.
    + eapply change_mine; [apply adjustDifficulty_retargeted | exact Hm].
  - destruct (addMiner_effect a hp now bc)
      as [[error ->] | (miner & _ & Hne & Hnew & Hhp & Hact & Hb & Hr & ->)];
      [apply change_nothing|].
    apply change_addMiner; try done. rewrite Hhp. apply clamp_hashPower_bounds.
  - destruct (removeMiner_effect a bc) as [[error ->] | (rest & Hrest & ->)];
      [apply change_nothing|]. by eapply change_removeMiner.
  - unfold Blockchain.startAutoMining. run.
    destruct (Blockchain.autoMining bc) eqn:Hauto; [apply change_nothing|].
    cbn [snd]. apply change_start; [exact Hauto|apply or_default_nonzero; done..].
  - unfold Blockchain.stopAutoMining. run.
    destruct (Blockchain.autoMining bc) eqn:Hauto; cbn [negb snd];
      [by apply change_stop | apply change_nothing].
  - apply Hcompete.
  - unfold Blockchain.checkAndStartMining. run.
    destruct (negb _); [apply change_nothing|].
    destruct (Blockchain.getLatestBlock bc); [|apply change_nothing].
    destruct (_ || _); [apply Hcompete | apply change_nothing].
Qed.

End Changes.

(** ** What no operation ever changes *)

Section Settings.

(** The fields that only the constructor writes. *)
Lemma change_settings (bc bc' : Blockchain.t) :
  change bc bc' ->
  Blockchain.miningReward bc' = Blockchain.miningReward bc /\
  Blockchain.targetBlockTime bc' = Blockchain.targetBlockTime bc /\
  Blockchain.difficultyAdjustmentInterval bc' = Blockchain.difficultyAdjustmentInterval bc /\
  Blockchain.faucetAmount bc' = Blockchain.faucetAmount bc /\
  Blockchain.faucetCooldown bc' = Blockchain.faucetCooldown bc /\
  Blockchain.faucetAddress bc' = Blockchain.faucetAddress bc /\
  Blockchain.lastBlockTime bc' = Blockchain.lastBlockTime bc /\
  MiningStats.averageMiningTime (Blockchain.miningStats bc')
  = MiningStats.averageMiningTime (Blockchain.miningStats bc) /\
  MiningStats.networkHashRate (Blockchain.miningStats bc')
  = MiningStats.networkHashRate (Blockchain.miningStats bc).
Proof.
  destruct 1;
    repeat match goal with H : retargeted _ _ |- _ => destruct H as [-> | [-> | ->]] end;
    cbn; repeat split.
Qed.

Lemma change_difficulty (bc bc' : Blockchain.t) :
  change bc bc' -> 1 <= Blockchain.difficulty bc -> 1 <= Blockchain.difficulty bc'.
Proof.
  destruct 1;
    repeat match goal with H : retargeted _ _ |- _ => destruct H as [-> | [-> | ->]] end;
    cbn; lia.
Qed.

Lemma reachable_faucetAddress (bc : Blockchain.t) :
  Blockchain.reachable bc -> Blockchain.faucetAddress bc = "genesis".
Proof.
  induction 1 as [uuid now now'|bc bc' _ IH Hstep]; [reflexivity|].
  apply step_change, change_settings in Hstep. destruct Hstep as (_ & _ & _ & _ & _ & E & _).
  congruence.
Qed.

Lemma reachable_faucetCooldown (bc : Blockchain.t) :
  Blockchain.reachable bc -> Blockchain.faucetCooldown bc = 86400000.
Proof.
  induction 1 as [uuid now now'|bc bc' _ IH Hstep]; [reflexivity|].
  apply step_change, change_settings in Hstep. destruct Hstep as (_ & _ & _ & _ & E & _).
  congruence.
Qed.

Lemma reachable_faucetAmount (bc : Blockchain.t) :
  Blockchain.reachable bc -> Blockchain.faucetAmount bc = 100.
Proof.
  induction 1 as [uuid now now'|bc bc' _ IH Hstep]; [reflexivity|].
  apply step_change, change_settings in Hstep. destruct Hstep as (_ & _ & _ & E & _).
  congruence.
Qed.

Lemma reachable_window (bc : Blockchain.t) :
  Blockchain.reachable bc -> Blockchain.difficultyAdjustmentInterval bc = 5.
Proof.
  induction 1 as [uuid now now'|bc bc' _ IH Hstep]; [reflexivity|].
  apply step_change, change_settings in Hstep. destruct Hstep as (_ & _ & E & _).
  congruence.
Qed.

Lemma reachable_difficulty (bc : Blockchain.t) :
  Blockchain.reachable bc -> 1 <= Blockchain.difficulty bc.
Proof.
  induction 1 as [uuid now now'|bc bc' _ IH Hstep]; [cbn; lia|].
  apply step_change in Hstep. exact (change_difficulty _ _ Hstep IH).
Qed.

End Settings.

(** X1.  The settings that the constructor chooses are never written
    again: in every ledger that the public operations can reach the
    block reward is 10, the target block time 10000 ms, the retarget
    window 5, the faucet amount 100, the faucet cooldown 24 hours and the
    faucet address the string genesis.  The difficulty, which mining
    does change, never drops below 1, and the two statistics
    averageMiningTime and networkHashRate stay at 0: no method ever
    updates them. *)
Theorem reachable_settings (bc : Blockchain.t) :
  Blockchain.reachable bc ->
  Blockchain.miningReward bc = 10 /\
  Blockchain.targetBlockTime bc = 10000 /\
  Blockchain.difficultyAdjustmentInterval bc = 5 /\
  Blockchain.faucetAmount bc = 100 /\
  Blockchain.faucetCooldown bc = 86400000 /\
  Blockchain.faucetAddress bc = "genesis" /\
  1 <= Blockchain.difficulty bc /\
  MiningStats.averageMiningTime (Blockchain.miningStats bc) = 0 /\
  MiningStats.networkHashRate (Blockchain.miningStats bc) = 0.
Proof.
  induction 1 as [uuid now now'|bc bc' _ IH Hstep].
  - cbn. repeat split; lia.
  - apply step_change in Hstep.
    destruct IH as (H1 & H2 & H3 & H4 & H5 & H6 & H7 & H8 & H9).
    pose proof (change_settings _ _ Hstep) as (E1 & E2 & E3 & E4 & E5 & E6 & _ & E8 & E9).
    pose proof (change_difficulty _ _ Hstep H7).
    repeat split; congruence.
Qed.

Lemma reachable_settings_witness :
  Blockchain.miningReward Scenario.overdrawn = 10 /\
  Blockchain.targetBlockTime Scenario.overdrawn = 10000 /\
  Blockchain.difficultyAdjustmentInterval Scenario.overdrawn = 5 /\
  Blockchain.faucetAmount Scenario.overdrawn = 100 /\
  Blockchain.faucetCooldown Scenario.overdrawn = 86400000 /\
  Blockchain.faucetAddress Scenario.overdrawn = "genesis" /\
  1 <= Blockchain.difficulty Scenario.overdrawn /\
  MiningStats.averageMiningTime (Blockchain.miningStats Scenario.overdrawn) = 0 /\
  MiningStats.networkHashRate (Blockchain.miningStats Scenario.overdrawn) = 0.
Proof. exact (reachable_settings Scenario.overdrawn reachable_overdrawn). Defined.

(** ** Blocks, once on the chain, stay *)

Section AppendOnly.

Lemma change_chain (bc bc' : Blockchain.t) :
  change bc bc' ->
  Blockchain.chain bc' = Blockchain.chain bc \/
  exists block, Blockchain.chain bc' = (Blockchain.chain bc ++ [block])%list.
Proof.
  destruct 1;
    repeat match goal with H : retargeted _ _ |- _ => destruct H as [-> | [-> | ->]] end;
    cbn; try (left; reflexivity); right; eexists; reflexivity.
Qed.

Lemma steps_chain_prefix (bc bc' : Blockchain.t) :
  rtc Blockchain.step bc bc' -> Blockchain.chain bc `prefix_of` Blockchain.chain bc'.
Proof.
  induction 1 as [bc|bc bc1 bc' Hstep _ IH]; [done|].
  etrans; [|exact IH].
  apply step_change, change_chain in Hstep as [-> | [block ->]]; [done|].
  by apply prefix_app_r.
Qed.

Lemma getBlock_lookup (index : Z) (bc : Blockchain.t) (block : Block.t) :
  Blockchain.getBlock index bc = Some block <->
  0 <= index /\ Blockchain.chain bc !! Z.to_nat index = Some block.
Proof.
  unfold Blockchain.getBlock.
  destruct (Z.leb_spec 0 index) as [H0|H0]; cbn [andb].
  - destruct (Z.ltb_spec index (Z.of_nat (length (Blockchain.chain bc)))) as [H1|H1].
    + split; [by intros -> | by intros [_ ->]].
    + split; [discriminate|]. intros [_ H]. apply lookup_lt_Some in H. lia.
  - split; [discriminate|]. intros [H _]. lia.
Qed.

End AppendOnly.

(** X2.  The chain is append-only.  Whatever sequence of public operations
    leads from one ledger to a later one, the earlier chain is a prefix of
    the later chain: a block that getBlock(i) returned is returned for the
    same index ever after, unchanged, the height never decreases, and an
    index that is negative or not below the height gives null. *)
Theorem chain_append_only (bc bc' : Blockchain.t) :
  rtc Blockchain.step bc bc' ->
  Blockchain.chain bc `prefix_of` Blockchain.chain bc' /\
  Blockchain.info_height (Blockchain.getBlockchainInfo bc)
    <= Blockchain.info_height (Blockchain.getBlockchainInfo bc') /\
  (forall index block,
     Blockchain.getBlock index bc = Some block ->
     Blockchain.getBlock index bc' = Some block) /\
  (forall index,
     index < 0 \/ Blockchain.info_height (Blockchain.getBlockchainInfo bc) <= index ->
     Blockchain.getBlock index bc = None).
Proof.
  intros Hsteps. pose proof (steps_chain_prefix _ _ Hsteps) as Hprefix.
  split; [exact Hprefix|]. split; [|split].
  - cbn. apply prefix_length in Hprefix. lia.
  - intros index block. rewrite !getBlock_lookup. intros [H0 Hb]. split; [exact H0|].
    by apply (prefix_lookup_Some _ _ _ _ Hb).
  - intros index Hout. destruct (Blockchain.getBlock index bc) as [block|] eqn:Hb; [|done].
    apply getBlock_lookup in Hb as [H0 Hb]. apply lookup_lt_Some in Hb.
    cbn in Hout. lia.
Qed.

(** From the ledger with four accounts to the ledger on which the faucet
    claim was mined: the genesis block is still block 0. *)
Lemma steps_with_carol_funded : rtc Blockchain.step Scenario.with_carol Scenario.funded.
Proof.
  unfold Scenario.funded, Scenario.exec.
  eapply rtc_r; [|apply Blockchain.step_minePendingTransactions, claimed_finished].
  unfold Scenario.claimed, Scenario.claim, Scenario.exec.
  apply rtc_once, Blockchain.step_useFaucet.
Qed.

Lemma chain_append_only_witness :
  Blockchain.chain Scenario.with_carol `prefix_of` Blockchain.chain Scenario.funded.
Proof.
  exact (proj1 (chain_append_only Scenario.with_carol Scenario.funded
                  steps_with_carol_funded)).
Defined.

(** ** The account directory never loses an account *)

Section Accounts.

Lemma JSMap_has_elem {V} (k : string) (m : JSMap.t V) :
  JSMap.has k m = true <-> k ∈ map fst m.
Proof.
  unfold JSMap.has. induction m as [|[k' v'] m IH].
  - cbn. split; [discriminate|]. by intros ?%elem_of_nil.
  - rewrite JSMap_get_cons. cbn [map fst]. rewrite elem_of_cons.
    destruct (String.eqb k' k) eqn:E.
    + apply String.eqb_eq in E. split; [by left|done].
    + apply eqb_false_iff in E. rewrite IH. split; [by right|].
      by intros [->|].
Qed.

Lemma JSMap_get_app {V} (k : string) (m m' : JSMap.t V) (v : V) :
  JSMap.get k m = Some v -> JSMap.get k (m ++ m')%list = Some v.
Proof.
  induction m as [|[k' v'] m IH]; [discriminate|].
  cbn [app]. rewrite !JSMap_get_cons. by destruct (String.eqb k' k).
Qed.

Lemma JSMap_get_elem {V} (k : string) (m : JSMap.t V) (v : V) :
  JSMap.get k m = Some v -> (k, v) ∈ m.
Proof.
  induction m as [|[k' v'] m IH]; [discriminate|].
  rewrite JSMap_get_cons. destruct (String.eqb k' k) eqn:E.
  - apply String.eqb_eq in E. intros [= ->]. subst. by left.
  - intros H. right. by apply IH.
Qed.

Lemma change_accounts (bc bc' : Blockchain.t) :
  change bc bc' ->
  Blockchain.accounts bc' = Blockchain.accounts bc \/
  exists address account,
    JSMap.has address (Blockchain.accounts bc) = false /\
    Account.address account = address /\
    Blockchain.accounts bc' = (Blockchain.accounts bc ++ [(address, account)])%list.
Proof.
  destruct 1;
    repeat match goal with H : retargeted _ _ |- _ => destruct H as [-> | [-> | ->]] end;
    cbn; try (left; reflexivity).
  right. exists address, account. auto.
Qed.

Lemma reachable_steps (bc bc' : Blockchain.t) :
  Blockchain.reachable bc -> rtc Blockchain.step bc bc' -> Blockchain.reachable bc'.
Proof.
  intros Hr. induction 1 as [bc|bc bc1 bc' Hstep _ IH]; [exact Hr|].
  apply IH. by apply (Blockchain.reachable_step bc).
Qed.

Lemma reachable_accounts (bc : Blockchain.t) :
  Blockchain.reachable bc ->
  keyed (Blockchain.accounts bc) /\ NoDup (map fst (Blockchain.accounts bc)).
Proof.
  induction 1 as [uuid now now'|bc bc' _ [IHk IHn] Hstep].
  - cbn. split; constructor.
  - apply step_change, change_accounts in Hstep
      as [-> | (address & account & Hfresh & Haddr & ->)]; [done|].
    split.
    + apply Forall_app. split; [exact IHk|]. by repeat constructor.
    + rewrite map_app. apply NoDup_app. split; [exact IHn|]. split.
      * intros k Hk [->|[]%elem_of_nil]%elem_of_cons.
        apply JSMap_has_elem in Hk. cbn in Hk. congruence.
      * cbn. apply NoDup_singleton.
Qed.

Lemma steps_accounts_prefix (bc bc' : Blockchain.t) :
  rtc Blockchain.step bc bc' -> Blockchain.accounts bc `prefix_of` Blockchain.accounts bc'.
Proof.
  induction 1 as [bc|bc bc1 bc' Hstep _ IH]; [done|].
  etrans; [|exact IH].
  apply step_change, change_accounts in Hstep as [-> | (address & account & _ & _ & ->)];
    [done|]. by apply prefix_app_r.
Qed.

End Accounts.

(** X3.  Accounts are never removed or rewritten.  In a reachable ledger
    every key of the directory is the address of the account stored under
    it and no address is listed twice, so getAllAccounts reports each
    account once.  After any further sequence of public operations the
    old directory is a prefix of the new one: a registered address is still
    registered, with the same record, and the number of accounts has not
    gone down. *)
Theorem accounts_never_removed (bc bc' : Blockchain.t) :
  Blockchain.reachable bc ->
  rtc Blockchain.step bc bc' ->
  keyed (Blockchain.accounts bc') /\
  NoDup (map Account.address (Blockchain.getAllAccounts bc')) /\
  Blockchain.accounts bc `prefix_of` Blockchain.accounts bc' /\
  (forall address account,
     JSMap.get address (Blockchain.accounts bc) = Some account ->
     JSMap.get address (Blockchain.accounts bc') = Some account) /\
  Blockchain.info_totalAccounts (Blockchain.getBlockchainInfo bc)
    <= Blockchain.info_totalAccounts (Blockchain.getBlockchainInfo bc').
Proof.
  intros Hr Hsteps.
  destruct (reachable_accounts bc' (reachable_steps _ _ Hr Hsteps)) as [Hk Hn].
  pose proof (steps_accounts_prefix _ _ Hsteps) as Hprefix.
  split; [exact Hk|]. split; [|split; [exact Hprefix|split]].
  - unfold Blockchain.getAllAccounts. rewrite <- list_fmap_compose.
    erewrite list_fmap_ext; [exact Hn|].
    intros i [k account] Hi. cbn.
    apply list_elem_of_lookup_2 in Hi.
    unfold keyed in Hk. rewrite Forall_forall in Hk. exact (Hk _ Hi).
  - intros address account Hget. destruct Hprefix as [more ->].
    by apply JSMap_get_app.
  - cbn. apply prefix_length in Hprefix. lia.
Qed.

Lemma accounts_never_removed_witness :
  Blockchain.accounts Scenario.with_carol `prefix_of` Blockchain.accounts Scenario.funded.
Proof.
  exact (proj1 (proj2 (proj2 (accounts_never_removed Scenario.with_carol Scenario.funded
                                reachable_with_carol steps_with_carol_funded)))).
Defined.

(** ** Names and addresses *)

Section Resolution.

(** Whatever findAccount returns is an entry of the directory. *)
Lemma findAccount_elem (a : string) (bc : Blockchain.t) (account : Account.t) :
  Blockchain.findAccount a bc = Some account ->
  exists k, (k, account) ∈ Blockchain.accounts bc.
Proof.
  unfold Blockchain.findAccount. destruct (JSMap.has _ _).
  - intros H. exists a. by apply JSMap_get_elem.
  - destruct (find _ _) as [[k v]|] eqn:Hfind; [|discriminate].
    intros [= <-]. exists k. apply find_some in Hfind as [Hin _].
    by apply list_elem_of_In.
Qed.

Lemma findAccount_registered (a : string) (bc : Blockchain.t) (account : Account.t) :
  keyed (Blockchain.accounts bc) ->
  Blockchain.findAccount a bc = Some account ->
  JSMap.has (Account.address account) (Blockchain.accounts bc) = true.
Proof.
  intros Hk [k Hin]%findAccount_elem.
  unfold keyed in Hk. rewrite Forall_forall in Hk. specialize (Hk _ Hin). cbn in Hk.
  rewrite Hk. apply JSMap_has_elem, list_elem_of_fmap. by exists (k, account).
Qed.

Lemma resolveAddress_cases (a : string) (bc : Blockchain.t) :
  keyed (Blockchain.accounts bc) ->
  (Blockchain.findAccount a bc = None /\ Blockchain.resolveAddress a bc = a) \/
  JSMap.has (Blockchain.resolveAddress a bc) (Blockchain.accounts bc) = true.
Proof.
  intros Hk. unfold Blockchain.resolveAddress.
  destruct (Blockchain.findAccount a bc) as [account|] eqn:Hfind; [right|by left].
  by apply (findAccount_registered a).
Qed.

Lemma resolveAddress_idempotent (a : string) (bc : Blockchain.t) :
  keyed (Blockchain.accounts bc) ->
  Blockchain.resolveAddress (Blockchain.resolveAddress a bc) bc
  = Blockchain.resolveAddress a bc.
Proof.
  intros Hk. destruct (resolveAddress_cases a bc Hk) as [[_ E] | Hhas]; [by rewrite !E|].
  by apply resolveAddress_registered.
Qed.

Lemma JSMap_get_NoDup {V} (k : string) (v : V) (m : JSMap.t V) :
  NoDup (map fst m) -> (k, v) ∈ m -> JSMap.get k m = Some v.
Proof.
  induction m as [|[k' v'] m IH]; [by intros _ ?%elem_of_nil|].
  cbn [map fst]. rewrite NoDup_cons, elem_of_cons, JSMap_get_cons.
  intros [Hnot Hnd] [[= -> ->] | Hin].
  - by rewrite String.eqb_refl.
  - destruct (String.eqb k' k) eqn:E; [|by apply IH].
    apply String.eqb_eq in E. subst k'. exfalso. apply Hnot.
    apply list_elem_of_fmap. by exists (k, v).
Qed.

End Resolution.

(** X4.  Name resolution in a reachable ledger.  A registered address
    resolves to itself, also when some account carries it as an alias; a
    name resolves either to a registered address or, when it is neither an
    address nor an alias on record, to itself; resolving twice is
    resolving once; the record found for a name is the one stored under
    the address the name resolves to; and the balance asked for by alias
    is the balance asked for by the resolved address. *)
Theorem resolveAddress_spec (a : string) (bc : Blockchain.t) :
  Blockchain.reachable bc ->
  (JSMap.has a (Blockchain.accounts bc) = true -> Blockchain.resolveAddress a bc = a) /\
  ((Blockchain.findAccount a bc = None /\ Blockchain.resolveAddress a bc = a) \/
   JSMap.has (Blockchain.resolveAddress a bc) (Blockchain.accounts bc) = true) /\
  Blockchain.resolveAddress (Blockchain.resolveAddress a bc) bc
  = Blockchain.resolveAddress a bc /\
  (forall account,
     Blockchain.findAccount a bc = Some account ->
     JSMap.get (Blockchain.resolveAddress a bc) (Blockchain.accounts bc) = Some account) /\
  Blockchain.getAccountBalance (Blockchain.resolveAddress a bc) bc
  = Blockchain.getAccountBalance a bc.
Proof.
  intros [Hk Hn]%reachable_accounts.
  split; [by apply resolveAddress_registered|].
  split; [by apply resolveAddress_cases|].
  split; [by apply resolveAddress_idempotent|]. split.
  - intros account Hfind. unfold Blockchain.resolveAddress. rewrite Hfind.
    destruct (findAccount_elem _ _ _ Hfind) as [k Hin].
    unfold keyed in Hk. rewrite Forall_forall in Hk.
    pose proof (Hk _ Hin) as Hkey. cbn in Hkey. rewrite Hkey.
    by apply JSMap_get_NoDup.
  - unfold Blockchain.getAccountBalance. by rewrite resolveAddress_idempotent.
Qed.

(** The alias alice on the ledger of the scenario. *)
Lemma resolveAddress_spec_witness :
  Blockchain.getAccountBalance (Blockchain.resolveAddress "alice" Scenario.funded)
                               Scenario.funded
  = Blockchain.getAccountBalance "alice" Scenario.funded.
Proof.
  exact (proj2 (proj2 (proj2 (proj2
           (resolveAddress_spec "alice" Scenario.funded reachable_funded))))).
Defined.

Section Creation.

Lemma JSMap_has_app {V} (k : string) (m m' : JSMap.t V) :
  JSMap.has k (m ++ m')%list = JSMap.has k m || JSMap.has k m'.
Proof.
  unfold JSMap.has. induction m as [|[k' v'] m IH]; [reflexivity|].
  cbn [app]. rewrite !JSMap_get_cons. by destruct (String.eqb k' k).
Qed.

Lemma JSMap_get_app_fresh {V} (k : string) (m m' : JSMap.t V) :
  JSMap.has k m = false -> JSMap.get k (m ++ m')%list = JSMap.get k m'.
Proof.
  unfold JSMap.has. induction m as [|[k' v'] m IH]; [reflexivity|].
  cbn [app]. rewrite !JSMap_get_cons. by destruct (String.eqb k' k).
Qed.

Lemma find_app_Some {A} (f : A -> bool) (l l' : list A) (x : A) :
  find f l = Some x -> find f (l ++ l')%list = Some x.
Proof.
  induction l as [|y l IH]; [discriminate|]. cbn. by destruct (f y).
Qed.

Lemma find_app_None {A} (f : A -> bool) (l l' : list A) :
  find f l = None -> find f (l ++ l')%list = find f l'.
Proof.
  induction l as [|y l IH]; [reflexivity|]. cbn. by destruct (f y).
Qed.

(** Appending an entry under another key does not change what a name
    that was on record finds. *)
Lemma findAccount_app (x address : string) (new account : Account.t) (bc : Blockchain.t) :
  x <> address ->
  Blockchain.findAccount x bc = Some account ->
  Blockchain.findAccount x
    (Blockchain.set_accounts (Blockchain.accounts bc ++ [(address, new)])%list bc)
  = Some account.
Proof.
  intros Hne. unfold Blockchain.findAccount. cbn [Blockchain.accounts Blockchain.set_accounts].
  rewrite JSMap_has_app.
  destruct (JSMap.has x (Blockchain.accounts bc)) eqn:Hhas; cbn [orb].
  - apply JSMap_get_app.
  - assert (JSMap.has x [(address, new)] = false) as ->.
    { unfold JSMap.has. rewrite JSMap_get_cons.
      apply eqb_false_iff in Hne. rewrite String.eqb_sym in Hne. by rewrite Hne. }
    destruct (find _ (Blockchain.accounts bc)) as [kv|] eqn:Hfind; [|discriminate].
    intros H. by rewrite (find_app_Some _ _ _ _ Hfind).
Qed.

(** The ledger after createAccount. *)
Lemma createAccount_ledger (aliasOrAddress : string) (isAlias : bool)
    (now : Z) (randomBytes : string) (now' : Z) (bc : Blockchain.t) :
  let address :=
    if isAlias then Blockchain.generateAddress aliasOrAddress now randomBytes
    else aliasOrAddress in
  let alias := if isAlias then Some aliasOrAddress else None in
  let bc' := snd (Blockchain.createAccount aliasOrAddress isAlias now randomBytes now' bc) in
  (JSMap.has address (Blockchain.accounts bc) = true -> bc' = bc) /\
  (JSMap.has address (Blockchain.accounts bc) = false ->
   bc' = Blockchain.set_accounts
           (Blockchain.accounts bc ++ [(address, Account.mk address alias 0 [] now')])%list bc).
Proof.
  cbv zeta. unfold Blockchain.createAccount.
  destruct isAlias; run; split; intros H; rewrite H; cbn [negb snd]; try reflexivity;
    by rewrite (JSMap_set_fresh _ _ _ H).
Qed.

End Creation.

(** X5.  What a new account does to the names already in use.  A name
    that resolved to an account keeps resolving to that account, unless
    the name is the new account's own address: registering a literal
    address that some account carries as an alias takes the name over,
    and from then on the name resolves to the new, empty account.  An
    alias that no entry uses yet, and that is no address on record,
    resolves to the address generated for it once the account is
    created. *)
Theorem createAccount_resolution (aliasOrAddress : string) (isAlias : bool)
    (now : Z) (randomBytes : string) (now' : Z) (bc : Blockchain.t) :
  let address :=
    if isAlias then Blockchain.generateAddress aliasOrAddress now randomBytes
    else aliasOrAddress in
  let bc' := snd (Blockchain.createAccount aliasOrAddress isAlias now randomBytes now' bc) in
  (forall x account,
     x <> address ->
     Blockchain.findAccount x bc = Some account ->
     Blockchain.findAccount x bc' = Some account) /\
  (JSMap.has address (Blockchain.accounts bc) = false ->
   Blockchain.resolveAddress address bc' = address /\
   JSMap.get address (Blockchain.accounts bc')
   = Some (Account.mk address (if isAlias then Some aliasOrAddress else None) 0 [] now')) /\
  (isAlias = true ->
   JSMap.has address (Blockchain.accounts bc) = false ->
   aliasOrAddress <> address ->
   Blockchain.findAccount aliasOrAddress bc = None ->
   Blockchain.resolveAddress aliasOrAddress bc' = address).
Proof.
  cbv zeta.
  pose proof (createAccount_ledger aliasOrAddress isAlias now randomBytes now' bc) as Haux.
  cbv zeta in Haux. destruct Haux as [Hold Hnew].
  set (address := if isAlias then _ else aliasOrAddress) in *.
  set (alias := if isAlias then Some aliasOrAddress else None) in *.
  split; [|split].
  - intros x account Hne Hfind.
    destruct (JSMap.has address (Blockchain.accounts bc)) eqn:Hhas.
    + by rewrite Hold.
    + rewrite Hnew by done. by apply findAccount_app.
  - intros Hfresh. rewrite Hnew by done.
    assert (JSMap.get address (Blockchain.accounts bc ++ [(address, Account.mk address alias 0 [] now')])%list
            = Some (Account.mk address alias 0 [] now')) as Hget.
    { rewrite JSMap_get_app_fresh by done. rewrite JSMap_get_cons.
      by rewrite String.eqb_refl. }
    split; [|exact Hget].
    unfold Blockchain.resolveAddress, Blockchain.findAccount.
    cbn [Blockchain.accounts Blockchain.set_accounts].
    rewrite JSMap_has_app. unfold JSMap.has at 2. rewrite JSMap_get_cons, String.eqb_refl.
    rewrite orb_true_r, Hget. reflexivity.
  - intros -> Hfresh Hne Hnone. rewrite Hnew by done.
    unfold Blockchain.resolveAddress, Blockchain.findAccount in *.
    cbn [Blockchain.accounts Blockchain.set_accounts].
    rewrite JSMap_has_app.
    destruct (JSMap.has aliasOrAddress (Blockchain.accounts bc)) eqn:Hhas.
    { apply JSMap_has_get in Hhas as [v Hv]. rewrite Hv in Hnone. discriminate. }
    assert (JSMap.has aliasOrAddress [(address, Account.mk address alias 0 [] now')] = false)
      as ->.
    { unfold JSMap.has. rewrite JSMap_get_cons.
      apply eqb_false_iff in Hne. rewrite String.eqb_sym in Hne. by rewrite Hne. }
    cbn [orb].
    destruct (find _ (Blockchain.accounts bc)) as [kv|] eqn:Hfind; [discriminate|].
    rewrite (find_app_None _ _ _ Hfind). cbn.
    rewrite bool_decide_eq_true_2 by reflexivity. reflexivity.
Qed.

(** ** Where the tokens are *)

Section Supply.

Lemma sum_add {A} (f g : A -> Z) (l : list A) :
  foldr Z.add 0 (map (fun x => f x + g x) l)
  = foldr Z.add 0 (map f l) + foldr Z.add 0 (map g l).
Proof. induction l as [|x l IH]; cbn; lia. Qed.

Lemma sum_swap {A B} (e : A -> B -> Z) (ks : list A) (bs : list B) :
  foldr Z.add 0 (map (fun k => foldr Z.add 0 (map (e k) bs)) ks)
  = foldr Z.add 0 (map (fun b => foldr Z.add 0 (map (fun k => e k b) ks)) bs).
Proof.
  induction ks as [|k ks IH]; cbn.
  - induction bs as [|b bs IHb]; cbn; lia.
  - rewrite IH. by rewrite <- sum_add.
Qed.

Lemma sum_ext {A} (f g : A -> Z) (l : list A) :
  (forall x, x ∈ l -> f x = g x) ->
  foldr Z.add 0 (map f l) = foldr Z.add 0 (map g l).
Proof.
  induction l as [|x l IH]; [reflexivity|]. intros H. cbn.
  rewrite (H x) by by left. rewrite IH; [reflexivity|].
  intros y Hy. apply H. by right.
Qed.

(** The balance loops add to the running balance. *)
Lemma tx_effect_add (k : string) (balance : Z) (tx : Transaction.t) :
  Blockchain.tx_effect k balance tx = balance + Blockchain.tx_effect k 0 tx.
Proof. unfold Blockchain.tx_effect. repeat case_match; lia. Qed.

Lemma fold_tx_effect (k : string) (txs : list Transaction.t) (balance : Z) :
  fold_left (Blockchain.tx_effect k) txs balance
  = balance + foldr Z.add 0 (map (Blockchain.tx_effect k 0) txs).
Proof.
  revert balance. induction txs as [|tx txs IH]; intros balance; cbn; [lia|].
  rewrite IH, (tx_effect_add k balance). lia.
Qed.

Lemma block_effect_add (k : string) (balance : Z) (block : Block.t) :
  Blockchain.block_effect k balance block = balance + Blockchain.block_effect k 0 block.
Proof.
  unfold Blockchain.block_effect.
  rewrite (fold_tx_effect k _ balance), (fold_tx_effect k _ 0). case_match; lia.
Qed.

Lemma fold_block_effect (k : string) (chain : list Block.t) (balance : Z) :
  fold_left (Blockchain.block_effect k) chain balance
  = balance + foldr Z.add 0 (map (Blockchain.block_effect k 0) chain).
Proof.
  revert balance. induction chain as [|b chain IH]; intros balance; cbn; [lia|].
  rewrite IH, (block_effect_add k balance). lia.
Qed.

(** Among distinct keys at most one is the endpoint. *)
Lemma sum_listed (keys : list string) (o : option string) (v : Z) :
  NoDup keys ->
  foldr Z.add 0 (map (fun k => if bool_decide (o = Some k) then v else 0) keys)
  = v * listed keys o.
Proof.
  induction 1 as [|k keys Hnot Hnd IH]; cbn [map foldr].
  - destruct o as [a|]; cbn [listed];
      [rewrite bool_decide_eq_false_2 by apply not_elem_of_nil|]; lia.
  - rewrite IH. destruct o as [a|]; cbn [listed]; [|rewrite bool_decide_eq_false_2 by done; lia].
    destruct (decide (a = k)) as [->|Hne].
    + rewrite bool_decide_eq_true_2 by done.
      rewrite (bool_decide_eq_false_2 (k ∈ keys)) by done.
      rewrite (bool_decide_eq_true_2 (k ∈ k :: keys)) by by left. lia.
    + rewrite bool_decide_eq_false_2 by congruence.
      destruct (decide (a ∈ keys)) as [Hin|Hout].
      * rewrite !bool_decide_eq_true_2; [lia|by right|done].
      * rewrite !bool_decide_eq_false_2; [lia| |done].
        by intros [|]%elem_of_cons.
Qed.

Lemma sum_tx_effect (keys : list string) (tx : Transaction.t) :
  NoDup keys ->
  foldr Z.add 0 (map (fun k => Blockchain.tx_effect k 0 tx) keys) = tx_net keys tx.
Proof.
  intros Hnd. unfold tx_net.
  rewrite (sum_ext _ (fun k => (if bool_decide (Transaction.from tx = Some k)
                                then - Transaction.amount tx else 0)
                               + (if bool_decide (Transaction.to tx = Some k)
                                  then Transaction.amount tx else 0))).
  - rewrite sum_add, !sum_listed by done. lia.
  - intros k _. unfold Blockchain.tx_effect. repeat case_match; lia.
Qed.

Lemma sum_block_effect (keys : list string) (block : Block.t) :
  NoDup keys ->
  foldr Z.add 0 (map (fun k => Blockchain.block_effect k 0 block) keys) = block_net keys block.
Proof.
  intros Hnd. unfold block_net.
  rewrite (sum_ext _ (fun k => foldr Z.add 0 (map (Blockchain.tx_effect k 0)
                                                 (Block.transactions block))
                               + (if bool_decide (Block.miner block = Some k)
                                  then Block.reward block else 0))).
  - rewrite sum_add, sum_listed by done. f_equal.
    rewrite sum_swap. apply sum_ext. intros tx _. by apply sum_tx_effect.
  - intros k _. unfold Blockchain.block_effect. rewrite fold_tx_effect. case_match; lia.
Qed.

(** The balances of all accounts together are what the blocks add to
    them. *)
Lemma supply_block_net (bc : Blockchain.t) :
  keyed (Blockchain.accounts bc) ->
  NoDup (map fst (Blockchain.accounts bc)) ->
  supply bc
  = foldr Z.add 0 (map (block_net (map fst (Blockchain.accounts bc))) (Blockchain.chain bc)).
Proof.
  intros Hk Hnd. unfold supply, Blockchain.getAllAccounts.
  rewrite <- list_fmap_compose.
  rewrite (sum_ext _ (fun kv => foldr Z.add 0 (map (Blockchain.block_effect (fst kv) 0)
                                                  (Blockchain.chain bc)))).
  - rewrite (sum_swap (fun kv b => Blockchain.block_effect (fst kv) 0 b)).
    apply sum_ext. intros b _.
    rewrite <- (sum_block_effect _ b Hnd). by rewrite <- list_fmap_compose.
  - intros [k account] Hin. cbn.
    assert (JSMap.has k (Blockchain.accounts bc) = true) as Hhas.
    { apply JSMap_has_elem, list_elem_of_fmap. by exists (k, account). }
    unfold Blockchain.getAccountBalance.
    rewrite (resolveAddress_registered _ _ Hk Hhas), Hhas. cbn [negb].
    rewrite fold_block_effect. lia.
Qed.

End Supply.

Section Accounted.

Lemma settled_mono (m m' : JSMap.t Account.t) (reserve : string) (tx : Transaction.t) :
  (forall k, JSMap.has k m = true -> JSMap.has k m' = true) ->
  settled m reserve tx -> settled m' reserve tx.
Proof.
  intros Hm (f & t & Hf & Ht & Hfrom & Hto). exists f, t.
  split; [exact Hf|]. split; [exact Ht|]. split; [|by apply Hm].
  destruct Hfrom as [H|H]; [left; by apply Hm | by right].
Qed.

Lemma rewarded_mono (m m' : JSMap.t Account.t) (reserve : string) (block : Block.t) :
  (forall k, JSMap.has k m = true -> JSMap.has k m' = true) ->
  rewarded m reserve block -> rewarded m' reserve block.
Proof.
  intros Hm (Hr & (miner & Hminer & Hhas) & Htxs).
  split; [exact Hr|]. split; [exists miner; split; [exact Hminer | by apply Hm]|].
  eapply Forall_impl; [exact Htxs|]. intros tx. by apply settled_mono.
Qed.

(** The block that mining appends is a rewarded block when the pool is
    settled. *)
Lemma mined_rewarded (bc : Blockchain.t) (d : Z) (a : string) (now t0 t1 : Z)
    (block : Block.t) :
  mined bc d a now t0 t1 block ->
  Forall (settled (Blockchain.accounts bc) (Blockchain.faucetAddress bc))
         (Blockchain.pendingTransactions bc) ->
  rewarded (Blockchain.accounts bc) (Blockchain.faucetAddress bc) block.
Proof.
  intros (latest & _ & Hhas & _ & _ & Htxs & Hminer & Hreward & _) Hpool.
  split; [exact Hreward|]. split; [eauto|]. by rewrite Htxs.
Qed.

Lemma change_accounted (bc bc' : Blockchain.t) :
  change bc bc' -> accounted bc -> accounted bc'.
Proof.
  intros Hchange [(uuid & now & rest & Hchain & Hrest) Hpool].
  assert (Hgrow : forall block (bc1 : Blockchain.t),
            Blockchain.accounts bc1 = Blockchain.accounts bc ->
            Blockchain.faucetAddress bc1 = Blockchain.faucetAddress bc ->
            Blockchain.chain bc1 = Blockchain.chain bc ->
            rewarded (Blockchain.accounts bc) (Blockchain.faucetAddress bc) block ->
            (exists uuid now rest',
               (Blockchain.chain bc1 ++ [block])%list
               = Blockchain.createGenesisBlock uuid now :: rest' /\
               Forall (rewarded (Blockchain.accounts bc1) (Blockchain.faucetAddress bc1)) rest')).
  { intros block bc1 -> -> -> Hblock. exists uuid, now, (rest ++ [block])%list.
    rewrite Hchain. split; [reflexivity|]. apply Forall_app. split; [exact Hrest|].
    constructor; [exact Hblock | constructor]. }
  destruct Hchange;
    repeat match goal with H : retargeted _ _ |- _ => destruct H as [-> | [-> | ->]] end;
    unfold accounted, credited, appended;
    cbn [Blockchain.chain Blockchain.accounts Blockchain.faucetAddress
         Blockchain.pendingTransactions Blockchain.set_accounts
         Blockchain.set_pendingTransactions Blockchain.set_faucetHistory
         Blockchain.set_difficulty Blockchain.set_chain Blockchain.set_miners
         Blockchain.set_miningStats Blockchain.set_miningInterval Blockchain.set_autoMining
         Blockchain.set_maxBlockTime Blockchain.set_minTransactionsToMine
         Blockchain.set_autoMineInterval];
    try (split; [by exists uuid, now, rest | exact Hpool]);
    try (split; [apply (Hgrow _ bc); try reflexivity; by eapply mined_rewarded
                | by constructor]).
  - (* a new account *)
    assert (forall k, JSMap.has k (Blockchain.accounts bc) = true ->
                      JSMap.has k (Blockchain.accounts bc ++ [(address, account)])%list = true)
      as Hm.
    { intros k Hk. by rewrite JSMap_has_app, Hk. }
    split.
    + exists uuid, now, rest. split; [exact Hchain|].
      eapply Forall_impl; [exact Hrest|]. intros b. by apply rewarded_mono.
    + eapply Forall_impl; [exact Hpool|]. intros tx. by apply settled_mono.
  - (* a transfer *)
    split; [by exists uuid, now, rest|]. apply Forall_app. split; [exact Hpool|].
    repeat constructor. destruct H as (Hf & Ht & _ & ->).
    eexists _, _. split; [reflexivity|]. split; [reflexivity|]. auto.
  - (* a faucet claim *)
    split; [by exists uuid, now, rest|]. apply Forall_app. split; [exact Hpool|].
    repeat constructor. eexists _, _. split; [reflexivity|]. split; [reflexivity|]. auto.
Qed.

Lemma reachable_accounted (bc : Blockchain.t) : Blockchain.reachable bc -> accounted bc.
Proof.
  induction 1 as [uuid now now'|bc bc' _ IH Hstep].
  - split; [|constructor]. exists uuid, now, []. split; [reflexivity | constructor].
  - eapply change_accounted; [apply step_change|]; eassumption.
Qed.

Lemma listed_has (m : JSMap.t Account.t) (k : string) :
  JSMap.has k m = true -> listed (map fst m) (Some k) = 1.
Proof.
  intros H. cbn. apply JSMap_has_elem in H. by rewrite bool_decide_eq_true_2.
Qed.

Lemma tx_net_settled (m : JSMap.t Account.t) (reserve : string) (tx : Transaction.t) :
  JSMap.has reserve m = true -> settled m reserve tx -> tx_net (map fst m) tx = 0.
Proof.
  intros Hreserve (f & t & Hf & Ht & Hfrom & Hto). unfold tx_net. rewrite Hf, Ht.
  rewrite (listed_has _ _ Hto).
  destruct Hfrom as [H | ->]; rewrite listed_has by done; lia.
Qed.

Lemma block_net_rewarded (m : JSMap.t Account.t) (reserve : string) (block : Block.t) :
  JSMap.has reserve m = true -> rewarded m reserve block -> block_net (map fst m) block = 10.
Proof.
  intros Hreserve (Hr & (miner & Hminer & Hhas) & Htxs). unfold block_net.
  rewrite Hr, Hminer, (listed_has _ _ Hhas).
  assert (foldr Z.add 0 (map (tx_net (map fst m)) (Block.transactions block)) = 0) as ->; [|lia].
  induction Htxs as [|tx txs Htx _ IH]; [reflexivity|].
  cbn. rewrite IH, (tx_net_settled _ _ _ Hreserve Htx). lia.
Qed.

End Accounted.

Section Volume.

Lemma tx_effect_bound (address : string) (txs : list Transaction.t) (balance : Z) :
  Z.abs (fold_left (Blockchain.tx_effect address) txs balance)
  <= Z.abs balance + foldr Z.add 0 (map (fun tx => Z.abs (Transaction.amount tx)) txs).
Proof.
  revert balance. induction txs as [|tx txs IH]; intros balance; cbn [fold_left map foldr];
    [lia|].
  specialize (IH (Blockchain.tx_effect address balance tx)).
  assert (Z.abs (Blockchain.tx_effect address balance tx)
          <= Z.abs balance + Z.abs (Transaction.amount tx)).
  { unfold Blockchain.tx_effect. repeat case_match; lia. }
  lia.
Qed.

Lemma block_effect_bound (address : string) (chain : list Block.t) (balance : Z) :
  Z.abs (fold_left (Blockchain.block_effect address) chain balance)
  <= Z.abs balance + volume chain.
Proof.
  unfold volume. revert balance.
  induction chain as [|block chain IH]; intros balance; cbn [fold_left map foldr]; [lia|].
  specialize (IH (Blockchain.block_effect address balance block)).
  assert (Z.abs (Blockchain.block_effect address balance block)
          <= Z.abs balance + block_volume block).
  { unfold Blockchain.block_effect, block_volume.
    pose proof (tx_effect_bound address (Block.transactions block) balance).
    case_match; lia. }
  lia.
Qed.

Lemma volume_nonneg (chain : list Block.t) : 0 <= volume chain.
Proof. pose proof (block_effect_bound "" chain 0). lia. Qed.

(** No balance exceeds the volume of the chain. *)
Lemma getAccountBalance_bound (a : string) (bc : Blockchain.t) :
  Z.abs (Blockchain.getAccountBalance a bc) <= volume (Blockchain.chain bc).
Proof.
  unfold Blockchain.getAccountBalance. destruct (negb _).
  - apply volume_nonneg.
  - apply (block_effect_bound _ _ 0).
Qed.

End Volume.

(** X6.  No tokens appear or disappear except by mining.  The amounts are
    whole numbers.  In a reachable ledger on which the faucet address
    genesis is registered and whose chain has a volume of at most 2^53,
    so that the code's sums of doubles are exact, the balances that
    getAllAccounts reports add up to the initial supply of 1000000 plus
    10 for every block mined since: transfers and faucet claims move
    tokens between accounts on record, and each mined block pays its
    reward to an account on record.  Each reported balance is itself
    within 2^53 in magnitude. *)
Theorem supply_is_conserved (bc : Blockchain.t) :
  Blockchain.reachable bc ->
  JSMap.has "genesis" (Blockchain.accounts bc) = true ->
  volume (Blockchain.chain bc) <= 2 ^ 53 ->
  supply bc
  = 1000000 + 10 * (Blockchain.info_height (Blockchain.getBlockchainInfo bc) - 1) /\
  Forall (fun account => Z.abs (Account.balance account) <= 2 ^ 53)
         (Blockchain.getAllAccounts bc).
Proof.
  intros Hr Hreserve Hvolume. split.
  - destruct (reachable_accounts bc Hr) as [Hk Hnd].
    destruct (reachable_accounted bc Hr) as [(uuid & now & rest & Hchain & Hrest) _].
    pose proof (reachable_faucetAddress bc Hr) as Hfaucet.
    rewrite Hfaucet in Hrest.
    rewrite (supply_block_net bc Hk Hnd).
    cbn [Blockchain.getBlockchainInfo Blockchain.info_height].
    rewrite Hchain. cbn [map foldr length].
    assert (block_net (map fst (Blockchain.accounts bc)) (Blockchain.createGenesisBlock uuid now)
            = 1000000) as ->.
    { unfold block_net, tx_net. cbn. apply JSMap_has_elem in Hreserve.
      rewrite bool_decide_eq_true_2 by done. lia. }
    assert (foldr Z.add 0 (map (block_net (map fst (Blockchain.accounts bc))) rest)
            = 10 * Z.of_nat (length rest)) as ->; [|lia].
    clear Hchain Hvolume. induction Hrest as [|b rest' Hb _ IH]; [reflexivity|].
    cbn [map foldr length]. rewrite IH, (block_net_rewarded _ _ _ Hreserve Hb). lia.
  - unfold Blockchain.getAllAccounts. apply List.Forall_map, Forall_forall.
    intros [address account] _. cbn [Account.balance].
    pose proof (getAccountBalance_bound address bc). lia.
Qed.

Lemma funded_reserve : JSMap.has "genesis" (Blockchain.accounts Scenario.funded) = true.
Proof. vm_compute. reflexivity. Qed.

Lemma funded_volume : volume (Blockchain.chain Scenario.funded) <= 2 ^ 53.
Proof. vm_compute. discriminate. Qed.

(** After the faucet claim was mined: 999900 + 100 + 0 + 10. *)
Lemma supply_is_conserved_witness :
  supply Scenario.funded
  = 1000000 + 10 * (Blockchain.info_height (Blockchain.getBlockchainInfo Scenario.funded) - 1) /\
  Forall (fun account => Z.abs (Account.balance account) <= 2 ^ 53)
         (Blockchain.getAllAccounts Scenario.funded).
Proof.
  exact (supply_is_conserved Scenario.funded reachable_funded funded_reserve funded_volume).
Defined.

(** ** Mining the pool *)

Section MiningThePool.

Lemma retargeted_frame (bc bc1 : Blockchain.t) :
  retargeted bc bc1 ->
  Blockchain.chain bc1 = Blockchain.chain bc /\
  Blockchain.accounts bc1 = Blockchain.accounts bc /\
  Blockchain.pendingTransactions bc1 = Blockchain.pendingTransactions bc /\
  Blockchain.miners bc1 = Blockchain.miners bc /\
  Blockchain.miningStats bc1 = Blockchain.miningStats bc /\
  Blockchain.miningReward bc1 = Blockchain.miningReward bc.
Proof. intros [-> | [-> | ->]]; repeat split. Qed.

Lemma totalTransactions_app (chain : list Block.t) (block : Block.t) (n : Z) :
  fold_left (fun sum b => sum + Z.of_nat (length (Block.transactions b)))
            (chain ++ [block])%list n
  = fold_left (fun sum b => sum + Z.of_nat (length (Block.transactions b))) chain n
    + Z.of_nat (length (Block.transactions block)).
Proof. by rewrite fold_left_app. Qed.

(** Appending a block changes a balance by what the block adds to it. *)
Lemma balance_after_block (x : string) (block : Block.t) (bc bc1 : Blockchain.t) :
  retargeted bc bc1 ->
  Blockchain.getAccountBalance x (appended block bc1)
  = Blockchain.getAccountBalance x bc
    + if JSMap.has (Blockchain.resolveAddress x bc) (Blockchain.accounts bc)
      then Blockchain.block_effect (Blockchain.resolveAddress x bc) 0 block
      else 0.
Proof.
  intros (Hchain & Haccounts & _)%retargeted_frame.
  assert (Blockchain.chain (appended block bc1) = (Blockchain.chain bc ++ [block])%list)
    as Hc by (unfold appended; cbn; by rewrite Hchain).
  assert (Blockchain.accounts (appended block bc1) = Blockchain.accounts bc)
    as Ha by exact Haccounts.
  assert (Blockchain.resolveAddress x (appended block bc1) = Blockchain.resolveAddress x bc)
    as Hres by (unfold Blockchain.resolveAddress, Blockchain.findAccount; by rewrite Ha).
  unfold Blockchain.getAccountBalance. rewrite Hres, Ha, Hc.
  destruct (JSMap.has (Blockchain.resolveAddress x bc) (Blockchain.accounts bc));
    cbn [negb]; [|lia].
  rewrite fold_left_app. cbn [fold_left]. apply block_effect_add.
Qed.

End MiningThePool.

(** X7.  When minePendingTransactions returns, exactly one block was
    appended and it holds the whole pending pool, in order, also when the
    pool was empty: its timestamp is the clock reading taken for it, its
    miner the resolved and registered reward address, its reward 10, its
    mining time the difference of the two clock readings, and its stored
    hash has the zero prefix of the difficulty in force after the
    retarget.  The pool is empty afterwards, no account was added or
    removed, the height grew by one and the transaction count by the size
    of the pool.  With whole amounts and a chain whose volume is still at
    most 2^53, so that the code's sums of doubles are exact, every
    balance changed by what this one block adds to it. *)
Theorem minePendingTransactions_moves_pool (fuel : nat) (a : string) (now t0 t1 : Z)
    (bc : Blockchain.t) :
  fst (Blockchain.minePendingTransactions fuel a now t0 t1 bc) = JS.Normal tt ->
  let bc' := snd (Blockchain.minePendingTransactions fuel a now t0 t1 bc) in
  let miner := Blockchain.resolveAddress a bc in
  exists block latest,
    Blockchain.chain bc' = (Blockchain.chain bc ++ [block])%list /\
    Blockchain.pendingTransactions bc' = [] /\
    Blockchain.accounts bc' = Blockchain.accounts bc /\
    Block.transactions block = Blockchain.pendingTransactions bc /\
    Blockchain.getLatestBlock bc = Some latest /\
    Block.previousHash block = Block.hash latest /\
    Block.timestamp block = now /\
    JSMap.has miner (Blockchain.accounts bc) = true /\
    Block.miner block = Some miner /\
    Block.reward block = 10 /\
    Block.miningTime block = Some (t1 - t0) /\
    JS.zeros (Blockchain.difficulty bc')
    = JS.Normal (JS.substring0 (Blockchain.difficulty bc') (Block.hash block)) /\
    Blockchain.info_height (Blockchain.getBlockchainInfo bc')
    = Blockchain.info_height (Blockchain.getBlockchainInfo bc) + 1 /\
    Blockchain.info_totalTransactions (Blockchain.getBlockchainInfo bc')
    = Blockchain.info_totalTransactions (Blockchain.getBlockchainInfo bc)
      + Z.of_nat (length (Blockchain.pendingTransactions bc)) /\
    (volume (Blockchain.chain bc') <= 2 ^ 53 ->
     forall x,
       Blockchain.getAccountBalance x bc'
       = Blockchain.getAccountBalance x bc
         + if JSMap.has (Blockchain.resolveAddress x bc) (Blockchain.accounts bc)
           then Blockchain.block_effect (Blockchain.resolveAddress x bc) 0 block
           else 0).
Proof.
  intros Hnormal. cbv zeta.
  pose proof (minePendingTransactions_effect fuel a now t0 t1 bc) as H. cbv zeta in H.
  destruct H as [[_ E] | [_ [[Hne _] | (block & Hmined & E)]]].
  - rewrite E in Hnormal. discriminate.
  - contradiction.
  - rewrite E. cbn [snd]. clear E Hnormal.
    destruct (retargeted_frame _ _ (adjustDifficulty_retargeted bc))
      as (Hchain & Haccounts & _).
    set (bc1 := snd (Blockchain.adjustDifficulty bc)) in *.
    destruct Hmined as (latest & Hlast & Hhas & Hprev & Hts & Htxs & Hminer & Hr & Hmt & Hz).
    assert (Blockchain.chain (appended block bc1) = (Blockchain.chain bc ++ [block])%list)
      as Hc by (unfold appended; cbn; by rewrite Hchain).
    assert (Blockchain.accounts (appended block bc1) = Blockchain.accounts bc)
      as Ha by exact Haccounts.
    assert (Blockchain.difficulty (appended block bc1) = Blockchain.difficulty bc1)
      as Hd by reflexivity.
    exists block, latest.
    split; [exact Hc|]. split; [reflexivity|]. split; [exact Ha|]. split; [exact Htxs|].
    split; [exact Hlast|]. split; [exact Hprev|]. split; [exact Hts|].
    split; [exact Hhas|]. split; [exact Hminer|]. split; [exact Hr|]. split; [exact Hmt|].
    split; [rewrite Hd; exact Hz|].
    cbn [Blockchain.getBlockchainInfo Blockchain.info_height
         Blockchain.info_totalTransactions].
    rewrite Hc.
    split; [rewrite length_app; cbn; lia|].
    split; [by rewrite totalTransactions_app, Htxs|].
    intros _ x. apply balance_after_block, adjustDifficulty_retargeted.
Qed.

Lemma mine_claim_returns : fst (Scenario.mine_claim Scenario.claimed) = JS.Normal tt.
Proof. vm_compute. reflexivity. Qed.

(** carol mines the pool that holds alice's faucet claim. *)
Lemma minePendingTransactions_moves_pool_witness :
  exists block latest,
    Blockchain.chain Scenario.funded = (Blockchain.chain Scenario.claimed ++ [block])%list /\
    Blockchain.pendingTransactions Scenario.funded = [] /\
    Blockchain.accounts Scenario.funded = Blockchain.accounts Scenario.claimed /\
    Block.transactions block = Blockchain.pendingTransactions Scenario.claimed /\
    Blockchain.getLatestBlock Scenario.claimed = Some latest /\
    Block.previousHash block = Block.hash latest /\
    Block.timestamp block = 1730000000124 /\
    JSMap.has (Blockchain.resolveAddress "carol" Scenario.claimed)
              (Blockchain.accounts Scenario.claimed) = true /\
    Block.miner block = Some (Blockchain.resolveAddress "carol" Scenario.claimed) /\
    Block.reward block = 10 /\
    Block.miningTime block = Some (1730000000163 - 1730000000125) /\
    JS.zeros (Blockchain.difficulty Scenario.funded)
    = JS.Normal (JS.substring0 (Blockchain.difficulty Scenario.funded) (Block.hash block)) /\
    Blockchain.info_height (Blockchain.getBlockchainInfo Scenario.funded)
    = Blockchain.info_height (Blockchain.getBlockchainInfo Scenario.claimed) + 1 /\
    Blockchain.info_totalTransactions (Blockchain.getBlockchainInfo Scenario.funded)
    = Blockchain.info_totalTransactions (Blockchain.getBlockchainInfo Scenario.claimed)
      + Z.of_nat (length (Blockchain.pendingTransactions Scenario.claimed)) /\
    (volume (Blockchain.chain Scenario.funded) <= 2 ^ 53 ->
     forall x,
       Blockchain.getAccountBalance x Scenario.funded
       = Blockchain.getAccountBalance x Scenario.claimed
         + if JSMap.has (Blockchain.resolveAddress x Scenario.claimed)
                        (Blockchain.accounts Scenario.claimed)
           then Blockchain.block_effect (Blockchain.resolveAddress x Scenario.claimed) 0 block
           else 0).
Proof.
  exact (minePendingTransactions_moves_pool 16 "carol" 1730000000124 1730000000125
           1730000000163 Scenario.claimed mine_claim_returns).
Defined.

(** ** The proof-of-work search *)

Section Search.

Lemma hash_at_step (n m : Z) (h : string) (b : Block.t) :
  hash_at n (Block.set_hash h (Block.set_nonce m b)) = hash_at n b.
Proof. reflexivity. Qed.

(** What the search returns: the first block, counting from the one it
    was given, whose stored hash has the wanted prefix. *)
Lemma search_least (fuel : nat) (d : Z) (target : string) (b found : Block.t) :
  Block.search fuel d target b = Some found ->
  JS.substring0 d (Block.hash found) = target /\
  exists k : nat,
    (k <= fuel)%nat /\
    Block.nonce found = Block.nonce b + Z.of_nat k /\
    (k = 0%nat -> found = b) /\
    (k <> 0%nat ->
     JS.substring0 d (Block.hash b) <> target /\
     Block.hash found = hash_at (Block.nonce found) b) /\
    forall j : nat, (0 < j < k)%nat ->
      JS.substring0 d (hash_at (Block.nonce b + Z.of_nat j) b) <> target.
Proof.
  revert b. induction fuel as [|fuel IH]; intros b; simpl;
    destruct (String.eqb _ target) eqn:E; try discriminate.
  - intros [= <-]. apply String.eqb_eq in E. split; [exact E|].
    exists 0%nat. repeat split; try done; try lia.
  - intros [= <-]. apply String.eqb_eq in E. split; [exact E|].
    exists 0%nat. repeat split; try done; try lia.
  - intros H. apply IH in H as (Ht & k & Hk & Hn & H0 & Hpos & Hbelow).
    apply eqb_false_iff in E. split; [exact Ht|].
    cbn [Block.nonce Block.set_hash Block.set_nonce Block.hash] in *.
    exists (S k). split; [lia|]. split; [lia|]. split; [discriminate|]. split.
    + intros _. split; [exact E|].
      destruct k as [|k'].
      * rewrite (H0 eq_refl). reflexivity.
      * destruct Hpos as [_ Hh]; [discriminate|]. rewrite Hh. apply hash_at_step.
    + intros j Hj. destruct (decide (j = 1%nat)) as [->|Hne].
      * destruct k as [|k']; [lia|]. destruct Hpos as [Hfirst _]; [discriminate|].
        exact Hfirst.
      * specialize (Hbelow (j - 1)%nat). rewrite hash_at_step in Hbelow.
        replace (Block.nonce b + 1 + Z.of_nat (j - 1)) with (Block.nonce b + Z.of_nat j)
          in Hbelow by lia.
        apply Hbelow. lia.
Qed.

(** More fuel does not change what was found. *)
Lemma search_fuel (fuel fuel' : nat) (d : Z) (target : string) (b found : Block.t) :
  (fuel <= fuel')%nat ->
  Block.search fuel d target b = Some found ->
  Block.search fuel' d target b = Some found.
Proof.
  revert fuel' b. induction fuel as [|fuel IH]; intros fuel' b Hle; simpl;
    destruct (String.eqb _ target) eqn:E; try discriminate.
  - intros [= <-]. destruct fuel'; simpl; by rewrite E.
  - intros [= <-]. destruct fuel'; simpl; by rewrite E.
  - destruct fuel' as [|fuel']; [lia|]. simpl. rewrite E. apply IH. lia.
Qed.

(** Fuel runs out only when no nonce within its reach works. *)
Lemma search_none (fuel : nat) (d : Z) (target : string) (b : Block.t) :
  Block.search fuel d target b = None ->
  JS.substring0 d (Block.hash b) <> target /\
  forall j : nat, (0 < j <= fuel)%nat ->
    JS.substring0 d (hash_at (Block.nonce b + Z.of_nat j) b) <> target.
Proof.
  revert b. induction fuel as [|fuel IH]; intros b; simpl;
    destruct (String.eqb _ target) eqn:E; try discriminate;
    apply eqb_false_iff in E.
  - intros _. split; [exact E|]. intros j Hj. lia.
  - intros H. apply IH in H as [Hfirst Hrest]. split; [exact E|].
    cbn [Block.nonce Block.set_hash Block.set_nonce Block.hash] in *.
    intros j Hj. destruct (decide (j = 1%nat)) as [->|Hne]; [exact Hfirst|].
    specialize (Hrest (j - 1)%nat). rewrite hash_at_step in Hrest.
    replace (Block.nonce b + 1 + Z.of_nat (j - 1)) with (Block.nonce b + Z.of_nat j)
      in Hrest by lia.
    apply Hrest. lia.
Qed.

End Search.

(** X8.  mineBlock returns the first nonce that works.  If it returns a
    block, the nonce of that block is the starting nonce plus some k
    within the fuel; the stored hash has the zero prefix; for k = 0 the
    hash is the one the block came with, for k > 0 that one did not have
    the prefix and the stored hash is the digest of the block under the
    returned nonce (taken with the miner the block came with); no nonce
    strictly between had a digest with the prefix; and any larger fuel
    gives the same block.  If the fuel runs out, no nonce within its reach
    has a digest with the prefix.  So the fuel of the model bounds the
    search and never changes its result. *)
Theorem mineBlock_least_nonce (fuel : nat) (d : Z) (minerAddress : string) (b : Block.t) :
  (forall mined,
     Block.mineBlock fuel d minerAddress b = JS.Normal mined ->
     meets d (Block.hash mined) /\
     (forall fuel', (fuel <= fuel')%nat ->
        Block.mineBlock fuel' d minerAddress b = JS.Normal mined) /\
     exists k : nat,
       (k <= fuel)%nat /\
       Block.nonce mined = Block.nonce b + Z.of_nat k /\
       (k = 0%nat -> Block.hash mined = Block.hash b) /\
       (k <> 0%nat ->
        ~ meets d (Block.hash b) /\ Block.hash mined = hash_at (Block.nonce mined) b) /\
       forall n, Block.nonce b < n < Block.nonce mined -> ~ meets d (hash_at n b)) /\
  (Block.mineBlock fuel d minerAddress b = JS.OutOfFuel ->
   ~ meets d (Block.hash b) /\
   forall n, Block.nonce b < n <= Block.nonce b + Z.of_nat fuel -> ~ meets d (hash_at n b)).
Proof.
  unfold meets, Block.mineBlock.
  assert (Hzeros : (exists target, JS.zeros d = JS.Normal target)
                   \/ JS.zeros d = JS.Throw "Invalid array length").
  { unfold JS.zeros. destruct ((d + 1 <? 0) || (4294967295 <? d + 1)); [by right | left; eauto]. }
  destruct Hzeros as [[target Hz] | Hz]; rewrite Hz; [|split; [intros ?|]; discriminate].
  assert (Hmeets : forall h, JS.Normal target = JS.Normal (JS.substring0 d h) <->
                             JS.substring0 d h = target).
  { intros h. split; [by intros [= ->] | by intros ->]. }
  split.
  - intros mined.
    destruct (Block.search fuel d target b) as [found|] eqn:Hs; [|discriminate].
    intros [= <-]. cbn [Block.hash Block.nonce Block.set_reward Block.set_miner].
    split; [|split].
    + apply Hmeets. by apply search_least in Hs as [Ht _].
    + intros fuel' Hle. by rewrite (search_fuel _ _ _ _ _ _ Hle Hs).
    + apply search_least in Hs as (_ & k & Hk & Hn & H0 & Hpos & Hbelow).
      exists k. split; [exact Hk|]. split; [exact Hn|]. split; [|split].
      * intros Hk0. by rewrite (H0 Hk0).
      * intros Hk0. destruct (Hpos Hk0) as [Hfirst Hh]. by rewrite Hmeets.
      * intros n Hn'. rewrite Hmeets.
        replace n with (Block.nonce b + Z.of_nat (Z.to_nat (n - Block.nonce b))) by lia.
        apply Hbelow. lia.
  - destruct (Block.search fuel d target b) as [found|] eqn:Hs; [discriminate|].
    intros _. apply search_none in Hs as [Hfirst Hrest]. split; [by rewrite Hmeets|].
    intros n Hn. rewrite Hmeets.
    replace n with (Block.nonce b + Z.of_nat (Z.to_nat (n - Block.nonce b))) by lia.
    apply Hrest. lia.
Qed.

Section Difficulty.

Lemma hex_state_length (st : CryptoJS.state) : String.length (CryptoJS.hex_state st) = 64%nat.
Proof. reflexivity. Qed.

Lemma SHA256_length (message : string) : String.length (CryptoJS.SHA256 message) = 64%nat.
Proof. with_strategy transparent [CryptoJS.SHA256] (unfold CryptoJS.SHA256). apply hex_state_length. Qed.

Lemma substring0_length (n : Z) (s : string) :
  (String.length (JS.substring0 n s) <= String.length s)%nat.
Proof.
  unfold JS.substring0. generalize (Z.to_nat n) as m. intros m. revert s.
  induction m as [|m IH]; intros [|c s]; cbn; try lia.
  specialize (IH s). lia.
Qed.

Lemma zeros_length (d : Z) (target : string) :
  JS.zeros d = JS.Normal target -> String.length target = Z.to_nat d.
Proof.
  unfold JS.zeros. destruct ((d + 1 <? 0) || (4294967295 <? d + 1)); [discriminate|].
  intros [= <-].
  generalize (Z.to_nat d) as m. intros m.
  induction m as [|m IH]; cbn; [reflexivity | by rewrite IH].
Qed.

(** A hash of 64 characters cannot start with more than 64 zeros. *)
Lemma meets_length (d : Z) (h : string) :
  meets d h -> (Z.to_nat d <= String.length h)%nat.
Proof.
  intros H. apply zeros_length in H. pose proof (substring0_length d h). lia.
Qed.

Lemma search_hopeless (fuel : nat) (d : Z) (target : string) (b : Block.t) :
  (String.length (Block.hash b) < String.length target)%nat ->
  (64 < String.length target)%nat ->
  Block.search fuel d target b = None.
Proof.
  revert b. induction fuel as [|fuel IH]; intros b Hb Ht; simpl;
    (destruct (String.eqb _ target) eqn:E;
     [apply String.eqb_eq in E; pose proof (substring0_length d (Block.hash b)) as Hs;
      rewrite E in Hs; lia|]); [reflexivity|].
  apply IH; [|exact Ht].
  cbn [Block.hash Block.set_hash]. unfold Block.calculateHash. rewrite SHA256_length. lia.
Qed.

End Difficulty.

(** X9.  mineBlock at the ends of the difficulty range.  At difficulty 0
    or -1 the wanted prefix is empty and the block is returned at once,
    nonce and hash untouched, with the miner and the reward of 10 set.  At
    difficulty -2 or below, and from 4294967295 on, the array for the
    prefix has no valid length and building it throws a RangeError before
    any hashing.  Above 64 mineBlock never returns a block fresh from the
    constructor, whatever the fuel: a SHA-256 digest has 64 hexadecimal
    digits.  Up to a million, a prefix that every engine builds, the
    search is what fails to end: the fuel runs out, however much there
    is. *)
Theorem mineBlock_difficulty_edges (fuel : nat) (d : Z) (minerAddress : string) :
  (d = 0 \/ d = -1 ->
   forall b, Block.mineBlock fuel d minerAddress b
             = JS.Normal (Block.set_reward 10 (Block.set_miner (Some minerAddress) b))) /\
  (d <= -2 \/ 4294967295 <= d ->
   forall b, Block.mineBlock fuel d minerAddress b = JS.Throw "Invalid array length") /\
  (64 < d ->
   forall timestamp transactions previousHash mined,
     Block.mineBlock fuel d minerAddress (Block.new timestamp transactions previousHash)
     <> JS.Normal mined) /\
  (64 < d <= 1000000 ->
   forall timestamp transactions previousHash,
     Block.mineBlock fuel d minerAddress (Block.new timestamp transactions previousHash)
     = JS.OutOfFuel).
Proof.
  assert (Hnever : 64 < d -> forall timestamp transactions previousHash target,
            JS.zeros d = JS.Normal target ->
            Block.search fuel d target (Block.new timestamp transactions previousHash) = None).
  { intros Hd timestamp transactions previousHash target Hz.
    apply zeros_length in Hz. apply search_hopeless; [|lia].
    cbn [Block.hash Block.new]. rewrite SHA256_length. lia. }
  split; [|split; [|split]].
  - intros Hd b. unfold Block.mineBlock.
    assert (JS.zeros d = JS.Normal "" /\ JS.substring0 d (Block.hash b) = "") as [-> Hs].
    { destruct Hd as [-> | ->]; split; try reflexivity;
        unfold JS.substring0; cbn; by destruct (Block.hash b). }
    destruct fuel; cbn; by rewrite Hs.
  - intros Hd b. unfold Block.mineBlock, JS.zeros.
    replace ((d + 1 <? 0) || (4294967295 <? d + 1)) with true; [reflexivity|].
    symmetry. apply orb_true_iff. rewrite !Z.ltb_lt. lia.
  - intros Hd timestamp transactions previousHash mined. unfold Block.mineBlock.
    destruct (JS.zeros d) as [target| |] eqn:Hz; [|discriminate..].
    by rewrite (Hnever Hd _ _ _ _ eq_refl).
  - intros Hd timestamp transactions previousHash. unfold Block.mineBlock.
    destruct (JS.zeros d) as [target| |] eqn:Hz.
    + by rewrite (Hnever (proj1 Hd) _ _ _ _ eq_refl).
    + unfold JS.zeros in Hz.
      destruct ((d + 1 <? 0) || (4294967295 <? d + 1)) eqn:E; [|discriminate].
      apply orb_true_iff in E. rewrite !Z.ltb_lt in E. lia.
    + reflexivity.
Qed.

(** ** What the validator accepts *)

Section Validator.

Lemma isValid_cases (tx : Transaction.t) :
  (exists b, Transaction.isValid tx = JS.Normal b) \/
  Transaction.isValid tx = JS.Throw Transaction.MissingSignature.
Proof.
  unfold Transaction.isValid.
  destruct (Transaction.from tx); [|left; eauto].
  destruct (Transaction.signature tx) as [sig|]; [|by right].
  destruct (String.eqb sig ""); [by right | left; eauto].
Qed.

(** The loop of hasValidTransactions answers true exactly when every
    transaction verifies; otherwise it ends with the first one that does
    not, returning false or passing on what that one threw. *)
Lemma all_valid_true (txs : list Transaction.t) :
  Block.all_valid txs = JS.Normal true <->
  Forall (fun tx => Transaction.isValid tx = JS.Normal true) txs.
Proof.
  induction txs as [|tx txs IH]; cbn.
  - split; [constructor | reflexivity].
  - rewrite Forall_cons, <- IH.
    destruct (Transaction.isValid tx) as [[]| |]; split; try done; by intros [? ?].
Qed.

Lemma all_valid_first (valid : list Transaction.t) (tx : Transaction.t)
    (rest : list Transaction.t) :
  Forall (fun tx => Transaction.isValid tx = JS.Normal true) valid ->
  Transaction.isValid tx <> JS.Normal true ->
  Block.all_valid (valid ++ tx :: rest)%list = Transaction.isValid tx.
Proof.
  induction 1 as [|v valid Hv _ IH]; intros Htx; cbn.
  - destruct (isValid_cases tx) as [[b E] | E]; rewrite E in *; [|reflexivity].
    by destruct b.
  - rewrite Hv. by apply IH.
Qed.

Lemma hash_linked_cons (previousBlock currentBlock : Block.t) (rest : list Block.t) :
  Blockchain.hash_linked (previousBlock :: currentBlock :: rest) <->
  Block.previousHash currentBlock = Block.hash previousBlock /\
  Blockchain.hash_linked (currentBlock :: rest).
Proof.
  unfold Blockchain.hash_linked. split.
  - intros H. split; [by apply (H 0%nat)|].
    intros i p c Hp Hc. by apply (H (S i)).
  - intros [H0 H] [|i] p c Hp Hc; cbn in *.
    + by simplify_eq.
    + by apply (H i).
Qed.

Lemma check_links_true (previousBlock : Block.t) (rest : list Block.t) :
  Blockchain.check_links previousBlock rest = JS.Normal true <->
  Blockchain.hash_linked (previousBlock :: rest) /\
  Forall (fun b => Block.hasValidTransactions b = JS.Normal true /\
                   Block.hash b = Block.calculateHash b) rest.
Proof.
  revert previousBlock. induction rest as [|b rest IH]; intros previousBlock; cbn.
  - split; [|reflexivity]. intros _. split; [apply hash_linked_singleton | constructor].
  - rewrite hash_linked_cons, Forall_cons. specialize (IH b).
    destruct (String.eqb (Block.hash previousBlock) (Block.previousHash b)) eqn:E1; cbn [negb].
    + apply String.eqb_eq in E1.
      destruct (Block.hasValidTransactions b) as [[]| |].
      * destruct (String.eqb (Block.hash b) (Block.calculateHash b)) eqn:E2; cbn [negb].
        -- apply String.eqb_eq in E2. rewrite IH. split.
           ++ intros [Hl Hf]. auto.
           ++ intros [[_ Hl] [_ Hf]]. auto.
        -- apply eqb_false_iff in E2. split; [discriminate|]. by intros [_ [[_ ?] _]].
      * split; [discriminate|]. by intros [_ [[? _] _]].
      * split; [discriminate|]. by intros [_ [[? _] _]].
      * split; [discriminate|]. by intros [_ [[? _] _]].
    + apply eqb_false_iff in E1. split; [discriminate|]. intros [[? _] _]. congruence.
Qed.

Lemma isChainValid_true (fmt : Q -> string) (uuid : string) (now : Z) (bc : Blockchain.t) :
  Blockchain.isChainValid fmt uuid now bc = JS.Normal true <->
  exists first rest,
    Blockchain.chain bc = first :: rest /\
    Block.toJSON fmt first = Block.toJSON fmt (Blockchain.createGenesisBlock uuid now) /\
    Blockchain.hash_linked (Blockchain.chain bc) /\
    Forall (fun b =>
              Block.hash b = Block.calculateHash b /\
              Forall (fun tx => Transaction.isValid tx = JS.Normal true)
                     (Block.transactions b)) rest.
Proof.
  unfold Blockchain.isChainValid.
  destruct (Blockchain.chain bc) as [|first rest].
  { split; [discriminate|]. by intros (? & ? & [=] & _). }
  destruct (String.eqb _ _) eqn:E; cbn [negb].
  - apply String.eqb_eq in E. rewrite check_links_true. split.
    + intros [Hl Hb]. exists first, rest. split; [reflexivity|]. split; [done|].
      split; [exact Hl|]. eapply Forall_impl; [exact Hb|].
      intros b [Hv Hh]. split; [exact Hh|]. by apply all_valid_true.
    + intros (first' & rest' & [= <- <-] & _ & Hl & Hb). split; [exact Hl|].
      eapply Forall_impl; [exact Hb|].
      intros b [Hh Hv]. split; [by apply all_valid_true | exact Hh].
  - apply eqb_false_iff in E. split; [discriminate|].
    intros (first' & rest' & [= <- <-] & Hj & _). congruence.
Qed.

End Validator.

(** X10.  What isChainValid accepts.  It answers true exactly when the
    chain is not empty, its first block serialises to the same JSON text
    as the genesis block built anew for the comparison, every block is
    linked to its predecessor by the stored hashes, and every block after
    the first stores the digest of its current fields and holds only
    transactions that verify.  hasValidTransactions in turn answers true
    exactly when every transaction of the block verifies, and otherwise
    ends with the first that does not: false for a wrong signature, the
    exception for a missing one. *)
Theorem isChainValid_accepts (fmt : Q -> string) (uuid : string) (now : Z)
    (bc : Blockchain.t) :
  (Blockchain.isChainValid fmt uuid now bc = JS.Normal true <->
   exists first rest,
     Blockchain.chain bc = first :: rest /\
     Block.toJSON fmt first = Block.toJSON fmt (Blockchain.createGenesisBlock uuid now) /\
     Blockchain.hash_linked (Blockchain.chain bc) /\
     Forall (fun b =>
               Block.hash b = Block.calculateHash b /\
               Forall (fun tx => Transaction.isValid tx = JS.Normal true)
                      (Block.transactions b)) rest) /\
  (forall b,
     (Block.hasValidTransactions b = JS.Normal true <->
      Forall (fun tx => Transaction.isValid tx = JS.Normal true) (Block.transactions b)) /\
     (forall valid tx rest,
        Block.transactions b = (valid ++ tx :: rest)%list ->
        Forall (fun tx => Transaction.isValid tx = JS.Normal true) valid ->
        Transaction.isValid tx <> JS.Normal true ->
        Block.hasValidTransactions b = Transaction.isValid tx)).
Proof.
  split; [apply isChainValid_true|].
  intros b. split; [apply all_valid_true|].
  intros valid tx rest Htxs Hvalid Htx. unfold Block.hasValidTransactions.
  rewrite Htxs. by apply all_valid_first.
Qed.

(** X11.  Transfers are signed on the way into the pool, faucet claims
    are not.  The transaction that createTransaction appends verifies.
    The transaction that useFaucet appends has a sender and no signature,
    so verifying it throws.  And once a pool that holds a transaction
    which does not verify has been mined, isChainValid no longer answers
    true, whatever values the environment supplies: a ledger on which a
    faucet claim was mined does not validate. *)
Theorem enqueued_transactions_verify (bc : Blockchain.t) :
  (forall tx signed bc',
     Blockchain.createTransaction tx bc = (JS.Normal signed, bc') ->
     Blockchain.pendingTransactions bc' = (Blockchain.pendingTransactions bc ++ [signed])%list /\
     Transaction.isValid signed = JS.Normal true) /\
  (forall a clock uuid now now' receipt bc',
     Blockchain.useFaucet a clock uuid now now' bc = (JS.Normal receipt, bc') ->
     exists claim,
       Blockchain.pendingTransactions bc'
       = (Blockchain.pendingTransactions bc ++ [claim])%list /\
       Transaction.id claim = Blockchain.receipt_transactionId receipt /\
       Transaction.signature claim = None /\
       Transaction.isValid claim = JS.Throw Transaction.MissingSignature) /\
  (forall fuel a now t0 t1 tx,
     tx ∈ Blockchain.pendingTransactions bc ->
     Transaction.isValid tx <> JS.Normal true ->
     fst (Blockchain.minePendingTransactions fuel a now t0 t1 bc) = JS.Normal tt ->
     forall fmt uuid now',
       Blockchain.isChainValid fmt uuid now'
         (snd (Blockchain.minePendingTransactions fuel a now t0 t1 bc))
       <> JS.Normal true).
Proof.
  split; [|split].
  - intros tx signed bc' H.
    destruct (createTransaction_effect tx bc) as [[msg E] | (signed' & Hs & E)];
      rewrite E in H; [discriminate|].
    injection H as <- <-. split; [reflexivity|].
    destruct Hs as (_ & _ & _ & ->). by apply isValid_signed.
  - intros a clock uuid now now' receipt bc' H.
    pose proof (useFaucet_effect a clock uuid now now' bc) as Heff. cbv zeta in Heff.
    destruct Heff as [[msg E] | (_ & _ & E)]; rewrite E in H; [discriminate|].
    injection H as <- <-. eexists. split; [reflexivity|]. repeat split.
  - intros fuel a now t0 t1 tx Hin Htx Hnormal fmt uuid now' Hvalid.
    pose proof (minePendingTransactions_effect fuel a now t0 t1 bc) as Heff.
    cbv zeta in Heff.
    destruct Heff as [[_ E] | [_ [[Hne _] | (block & Hmined & E)]]];
      [rewrite E in Hnormal; discriminate | contradiction |].
    rewrite E in Hvalid. cbn [snd] in Hvalid.
    destruct (retargeted_frame _ _ (adjustDifficulty_retargeted bc)) as (Hchain & _).
    destruct Hmined as (latest & Hlast & _ & _ & _ & Htxs & _).
    apply isChainValid_true in Hvalid as (first & rest & Hc & _ & _ & Hblocks).
    unfold appended in Hc.
    cbn [Blockchain.chain Blockchain.set_chain Blockchain.set_pendingTransactions] in Hc.
    rewrite Hchain in Hc.
    destruct (Blockchain.chain bc) as [|genesis blocks]; [discriminate|].
    injection Hc as <- <-.
    apply Forall_app in Hblocks as [_ Hblock]. apply Forall_singleton in Hblock as [_ Hall].
    rewrite Htxs, Forall_forall in Hall. by apply Htx, Hall.
Qed.

(** ** The faucet cooldown *)

Section Cooldown.

Lemma ceil_div_hours (remainingTime : Z) :
  0 < remainingTime <= 86400000 ->
  1 <= Blockchain.ceil_div remainingTime (60 * 60 * 1000) <= 24.
Proof.
  intros H. unfold Blockchain.ceil_div.
  pose proof (Z.div_le_lower_bound (- remainingTime) 3600000 (-24)).
  pose proof (Z.div_lt_upper_bound (- remainingTime) 3600000 0).
  change (60 * 60 * 1000) with 3600000. lia.
Qed.

(** The ledger after a successful claim, and what a later check reads
    from it. *)
Lemma canUseFaucet_after_claim (a : string) (clock : Z) (uuid : string) (now now' : Z)
    (receipt : Blockchain.FaucetReceipt) (bc bc' : Blockchain.t) (clock2 : Z) :
  Blockchain.useFaucet a clock uuid now now' bc = (JS.Normal receipt, bc') ->
  now' <> 0 ->
  Blockchain.faucetCooldown bc' = Blockchain.faucetCooldown bc /\
  Blockchain.canUseFaucet a clock2 bc'
  = if Blockchain.faucetCooldown bc <=? clock2 - now'
    then Blockchain.mkCheck true "Cooldown expired" None
    else
      let remainingTime := Blockchain.faucetCooldown bc - (clock2 - now') in
      Blockchain.mkCheck false
        ("Please wait " ++ JS.Number_toString (Blockchain.ceil_div remainingTime (60 * 60 * 1000))
           ++ " hours before using faucet again")
        (Some remainingTime).
Proof.
  intros H Hnow.
  pose proof (useFaucet_effect a clock uuid now now' bc) as Heff. cbv zeta in Heff.
  destruct Heff as [[msg E] | (Hhas & _ & E)]; rewrite E in H; [discriminate|].
  injection H as _ <-. split; [reflexivity|].
  unfold Blockchain.canUseFaucet.
  change (Blockchain.resolveAddress a (Blockchain.set_pendingTransactions ?p
            (Blockchain.set_faucetHistory ?h bc)))
    with (Blockchain.resolveAddress a bc).
  cbn [Blockchain.accounts Blockchain.faucetHistory Blockchain.faucetCooldown
       Blockchain.set_pendingTransactions Blockchain.set_faucetHistory].
  rewrite Hhas, lookup_insert_eq. cbn [negb JS.truthy_num default].
  apply Z.eqb_neq in Hnow. rewrite Hnow. reflexivity.
Qed.

End Cooldown.

(** X12.  The faucet cooldown.  After a claim succeeded at a clock reading
    other than 0, the same name is refused for the next 24 hours: the check
    reports canUse false, the remaining time, which is positive, and a
    number of hours between 1 and 24 when the clock has not gone
    backwards; a claim in that window throws that reason and leaves the
    ledger as it is.  Once 24 hours have passed the check passes again
    with the reason Cooldown expired. *)
Theorem faucet_cooldown (a : string) (clock : Z) (uuid : string) (now now' : Z)
    (receipt : Blockchain.FaucetReceipt) (bc bc' : Blockchain.t) :
  Blockchain.reachable bc ->
  Blockchain.useFaucet a clock uuid now now' bc = (JS.Normal receipt, bc') ->
  now' <> 0 ->
  forall clock2,
    (clock2 < now' + 86400000 ->
     let remainingTime := now' + 86400000 - clock2 in
     let hours := Blockchain.ceil_div remainingTime (60 * 60 * 1000) in
     let reason :=
       "Please wait " ++ JS.Number_toString hours ++ " hours before using faucet again" in
     0 < remainingTime /\
     (now' <= clock2 -> 1 <= hours <= 24) /\
     Blockchain.canUseFaucet a clock2 bc' = Blockchain.mkCheck false reason (Some remainingTime) /\
     forall uuid2 now2 now2',
       Blockchain.useFaucet a clock2 uuid2 now2 now2' bc' = (JS.Throw reason, bc')) /\
    (now' + 86400000 <= clock2 ->
     Blockchain.canUseFaucet a clock2 bc' = Blockchain.mkCheck true "Cooldown expired" None).
Proof.
  intros Hr Huse Hnow clock2.
  destruct (canUseFaucet_after_claim a clock uuid now now' receipt bc bc' clock2 Huse Hnow)
    as [_ Hcheck].
  pose proof (reachable_faucetCooldown bc Hr) as Hcd. rewrite Hcd in Hcheck.
  split.
  - intros Hlt. cbv zeta.
    replace (86400000 <=? clock2 - now') with false in Hcheck
      by (symmetry; apply Z.leb_gt; lia).
    cbv zeta in Hcheck.
    replace (86400000 - (clock2 - now')) with (now' + 86400000 - clock2) in Hcheck by lia.
    split; [lia|]. split; [intros Hle; apply ceil_div_hours; lia|].
    split; [exact Hcheck|].
    intros uuid2 now2 now2'. unfold Blockchain.useFaucet. run.
    rewrite Hcheck. reflexivity.
  - intros Hge.
    replace (86400000 <=? clock2 - now') with true in Hcheck
      by (symmetry; apply Z.leb_le; lia).
    exact Hcheck.
Qed.

Lemma claim_receipt :
  Blockchain.useFaucet "alice" 1730000000050 Scenario.uuid1 1730000000051 1730000000052
                       Scenario.with_carol
  = (JS.Normal (Blockchain.mkReceipt 100 Scenario.uuid1
                  (Blockchain.resolveAddress "alice" Scenario.with_carol)),
     Scenario.claimed).
Proof. vm_compute. reflexivity. Qed.

Lemma claim_time : 1730000000052 <> 0.
Proof. discriminate. Qed.

(** alice asks again exactly 24 hours after her claim was recorded: the
    cooldown has expired. *)
Lemma faucet_cooldown_witness :
  Blockchain.canUseFaucet "alice" 1730086400052 Scenario.claimed
  = Blockchain.mkCheck true "Cooldown expired" None.
Proof.
  apply (proj2 (faucet_cooldown "alice" 1730000000050 Scenario.uuid1 1730000000051
                  1730000000052 _ Scenario.with_carol Scenario.claimed
                  reachable_with_carol claim_receipt claim_time 1730086400052)).
  discriminate.
Defined.

Section Claims.

(** Only accounts on record have a claim on record. *)
Lemma change_claimants (bc bc' : Blockchain.t) :
  change bc bc' ->
  (forall k, is_Some (Blockchain.faucetHistory bc !! k) ->
             JSMap.has k (Blockchain.accounts bc) = true) ->
  forall k, is_Some (Blockchain.faucetHistory bc' !! k) ->
            JSMap.has k (Blockchain.accounts bc') = true.
Proof.
  intros Hchange IH.
  destruct Hchange;
    repeat match goal with H : retargeted _ _ |- _ => destruct H as [-> | [-> | ->]] end;
    cbn [Blockchain.accounts Blockchain.faucetHistory appended credited
         Blockchain.set_accounts Blockchain.set_pendingTransactions
         Blockchain.set_faucetHistory Blockchain.set_difficulty Blockchain.set_chain
         Blockchain.set_miners Blockchain.set_miningStats Blockchain.set_miningInterval
         Blockchain.set_autoMining Blockchain.set_maxBlockTime
         Blockchain.set_minTransactionsToMine Blockchain.set_autoMineInterval];
    try exact IH.
  - intros k Hk. rewrite JSMap_has_app, (IH k Hk). reflexivity.
  - intros k. destruct (decide (k = address)) as [->|Hne]; [done|].
    rewrite lookup_insert_ne by done. apply IH.
Qed.

Lemma reachable_claimants (bc : Blockchain.t) :
  Blockchain.reachable bc ->
  forall k, is_Some (Blockchain.faucetHistory bc !! k) ->
            JSMap.has k (Blockchain.accounts bc) = true.
Proof.
  induction 1 as [uuid now now'|bc bc' _ IH Hstep].
  - intros k. cbn. rewrite lookup_empty. by intros [? ?].
  - eapply change_claimants; [apply step_change|]; eassumption.
Qed.

End Claims.

(** X13.  What getFaucetInfo reports.  In a reachable ledger the amount is
    100 and the cooldown 24 hours; totalClaims is the number of addresses
    with a claim on record, not the number of claims, and never exceeds
    the number of accounts.  A successful claim raises it by one when the
    recipient claims for the first time and leaves it as it is otherwise;
    the reported faucet balance does not move until the claim is mined. *)
Theorem getFaucetInfo_counts_claimants (bc : Blockchain.t) :
  Blockchain.reachable bc ->
  let info := Blockchain.getFaucetInfo bc in
  Blockchain.info_faucetAmount info = 100 /\
  (Blockchain.info_cooldownHours info == 24)%Q /\
  Blockchain.info_totalClaims info
    <= Blockchain.info_totalAccounts (Blockchain.getBlockchainInfo bc) /\
  forall a clock uuid now now' receipt bc',
    Blockchain.useFaucet a clock uuid now now' bc = (JS.Normal receipt, bc') ->
    Blockchain.info_totalClaims (Blockchain.getFaucetInfo bc')
    = Blockchain.info_totalClaims info
      + match Blockchain.faucetHistory bc !! Blockchain.receipt_recipient receipt with
        | Some _ => 0
        | None => 1
        end /\
    Blockchain.info_faucetBalance (Blockchain.getFaucetInfo bc')
    = Blockchain.info_faucetBalance info.
Proof.
  intros Hr. cbv zeta.
  destruct (reachable_accounts bc Hr) as [_ Hnd].
  pose proof (reachable_claimants bc Hr) as Hclaimants.
  unfold Blockchain.getFaucetInfo.
  cbn [Blockchain.info_faucetAmount Blockchain.info_cooldownHours
       Blockchain.info_totalClaims Blockchain.info_faucetBalance
       Blockchain.getBlockchainInfo Blockchain.info_totalAccounts].
  split; [by apply reachable_faucetAmount|].
  split; [by rewrite (reachable_faucetCooldown bc Hr)|].
  split.
  - rewrite <- (List.length_map fst (Blockchain.accounts bc)).
    rewrite <- (size_list_to_set (C := gset string) _ Hnd), <- size_dom.
    apply inj_le, subseteq_size. intros k Hk.
    apply elem_of_dom in Hk. apply elem_of_list_to_set, JSMap_has_elem. by apply Hclaimants.
  - intros a clock uuid now now' receipt bc' H.
    pose proof (useFaucet_effect a clock uuid now now' bc) as Heff. cbv zeta in Heff.
    destruct Heff as [[msg E] | (_ & _ & E)]; rewrite E in H; [discriminate|].
    injection H as <- <-.
    cbn [Blockchain.faucetHistory Blockchain.faucetAddress Blockchain.receipt_recipient
         Blockchain.set_pendingTransactions Blockchain.set_faucetHistory].
    split; [|reflexivity].
    rewrite map_size_insert. destruct (_ !! _); cbn; lia.
Qed.

(** The ledger of the scenario before alice's claim. *)
Lemma getFaucetInfo_counts_claimants_witness :
  Blockchain.info_totalClaims (Blockchain.getFaucetInfo Scenario.with_carol)
    <= Blockchain.info_totalAccounts (Blockchain.getBlockchainInfo Scenario.with_carol).
Proof.
  exact (proj1 (proj2 (proj2 (getFaucetInfo_counts_claimants Scenario.with_carol
                                reachable_with_carol)))).
Defined.

(** ** The scheduler and its miners *)

Section Scheduler.

Lemma change_timer (bc bc' : Blockchain.t) :
  change bc bc' ->
  (Blockchain.autoMining bc = true <-> Blockchain.miningInterval bc <> None) /\
  (Blockchain.autoMining bc = true ->
   Blockchain.miningInterval bc = Blockchain.autoMineInterval bc) /\
  Blockchain.minTransactionsToMine bc <> 0 /\
  Blockchain.maxBlockTime bc <> 0 /\
  (forall i, Blockchain.autoMineInterval bc = Some i -> i <> 0) ->
  (Blockchain.autoMining bc' = true <-> Blockchain.miningInterval bc' <> None) /\
  (Blockchain.autoMining bc' = true ->
   Blockchain.miningInterval bc' = Blockchain.autoMineInterval bc') /\
  Blockchain.minTransactionsToMine bc' <> 0 /\
  Blockchain.maxBlockTime bc' <> 0 /\
  (forall i, Blockchain.autoMineInterval bc' = Some i -> i <> 0).
Proof.
  intros Hchange IH.
  destruct Hchange;
    repeat match goal with H : retargeted _ _ |- _ => destruct H as [-> | [-> | ->]] end;
    try exact IH.
  - cbn. repeat split; try done. by intros i [= <-].
  - destruct IH as (_ & _ & H1 & H2 & H3). cbn. repeat split; try done.
Qed.

Lemma remove_first_split (address : string) (ms rest : list Miner.t) :
  Blockchain.remove_first address ms = Some rest ->
  exists before m after,
    ms = (before ++ m :: after)%list /\ rest = (before ++ after)%list /\
    Miner.address m = address /\
    Forall (fun m' => Miner.address m' <> address) before.
Proof.
  revert rest. induction ms as [|m ms IH]; intros rest; [discriminate|]. cbn.
  destruct (String.eqb (Miner.address m) address) eqn:E.
  - apply String.eqb_eq in E. intros [= <-]. exists [], m, ms. auto.
  - apply eqb_false_iff in E.
    destruct (Blockchain.remove_first address ms) as [rest'|]; [|discriminate].
    intros [= <-]. destruct (IH rest' eq_refl) as (before & m' & after & -> & -> & Ha & Hb).
    exists (m :: before), m', after. repeat split; try done. by constructor.
Qed.

Lemma blocks_won_app (l l' : list Miner.t) :
  blocks_won (l ++ l') = blocks_won l + blocks_won l'.
Proof.
  unfold blocks_won. induction l as [|m l IH]; [reflexivity|].
  cbn [app map foldr]. rewrite IH. lia.
Qed.

Lemma blocks_won_credit (reward : Z) (i : nat) (winner : Miner.t) (ms : list Miner.t) :
  ms !! i = Some winner ->
  blocks_won (alter (Blockchain.credit reward) i ms) = blocks_won ms + 1.
Proof.
  unfold blocks_won. revert i. induction ms as [|m ms IH]; intros [|i]; cbn; try discriminate.
  - intros _. lia.
  - intros H. rewrite (IH i H). lia.
Qed.

Lemma blocks_won_nonneg (ms : list Miner.t) :
  Forall registered_miner ms -> 0 <= blocks_won ms.
Proof.
  unfold blocks_won. induction 1 as [|m ms (_ & _ & _ & _ & H & _) _ IH]; cbn; lia.
Qed.

Lemma credit_addresses (reward : Z) (i : nat) (ms : list Miner.t) :
  map Miner.address (alter (Blockchain.credit reward) i ms) = map Miner.address ms.
Proof.
  revert i. induction ms as [|m ms IH]; intros [|i]; cbn; try reflexivity.
  f_equal. apply IH.
Qed.

Lemma credit_registered (i : nat) (ms : list Miner.t) :
  Forall registered_miner ms ->
  Forall registered_miner (alter (Blockchain.credit 10) i ms).
Proof.
  intros H. revert i. induction H as [|m ms Hm Hms IH]; intros i;
    [destruct i; constructor|].
  destruct i as [|i]; cbn; (constructor; [|first [exact Hms | apply IH]]); [|exact Hm].
  destruct Hm as (H1 & H2 & H3 & H4 & H5 & H6). unfold registered_miner. cbn.
  repeat split; try done; lia.
Qed.

(** The registry and the counters, kept together. *)
Lemma change_registry (bc bc' : Blockchain.t) :
  change bc bc' ->
  Blockchain.miningReward bc = 10 ->
  NoDup (map Miner.address (Blockchain.miners bc)) /\
  Forall registered_miner (Blockchain.miners bc) /\
  MiningStats.totalRewardsPaid (Blockchain.miningStats bc)
  = 10 * MiningStats.totalBlocksMined (Blockchain.miningStats bc) /\
  blocks_won (Blockchain.miners bc)
    <= MiningStats.totalBlocksMined (Blockchain.miningStats bc)
    <= Z.of_nat (length (Blockchain.chain bc)) - 1 ->
  NoDup (map Miner.address (Blockchain.miners bc')) /\
  Forall registered_miner (Blockchain.miners bc') /\
  MiningStats.totalRewardsPaid (Blockchain.miningStats bc')
  = 10 * MiningStats.totalBlocksMined (Blockchain.miningStats bc') /\
  blocks_won (Blockchain.miners bc')
    <= MiningStats.totalBlocksMined (Blockchain.miningStats bc')
    <= Z.of_nat (length (Blockchain.chain bc')) - 1.
Proof.
  intros Hchange Hreward (Hnd & Hall & Hpaid & Hwon).
  destruct Hchange;
    repeat match goal with H : retargeted _ _ |- _ => destruct H as [-> | [-> | ->]] end;
    unfold appended, credited;
    cbn [Blockchain.chain Blockchain.miners Blockchain.miningStats Blockchain.miningReward
         Blockchain.set_accounts Blockchain.set_pendingTransactions
         Blockchain.set_faucetHistory Blockchain.set_difficulty Blockchain.set_chain
         Blockchain.set_miners Blockchain.set_miningStats Blockchain.set_miningInterval
         Blockchain.set_autoMining Blockchain.set_maxBlockTime
         Blockchain.set_minTransactionsToMine Blockchain.set_autoMineInterval
         MiningStats.totalRewardsPaid MiningStats.totalBlocksMined];
    try (split; [exact Hnd|]; split; [exact Hall|]; split; [exact Hpaid|];
         rewrite ?length_app; cbn [length]; lia);
    try (rewrite Hreward, credit_addresses;
         split; [exact Hnd|]; split; [by apply credit_registered|]; split; [lia|];
         erewrite blocks_won_credit by eassumption;
         rewrite length_app; cbn [length]; lia).
  - (* addMiner *)
    split; [|split; [|split; [exact Hpaid|]]].
    + rewrite map_app. apply NoDup_app. split; [exact Hnd|]. split.
      * intros address Hin [->|[]%elem_of_nil]%elem_of_cons.
        apply list_elem_of_fmap in Hin as (m & Hm & Hin).
        rewrite Forall_forall in H0. by apply (H0 m Hin).
      * cbn. apply NoDup_singleton.
    + apply Forall_app. split; [exact Hall|]. constructor; [|constructor].
      destruct H1. unfold registered_miner. rewrite H3, H4. repeat split; try done.
    + rewrite blocks_won_app. unfold blocks_won at 2. cbn. lia.
  - (* removeMiner *)
    apply remove_first_split in H as (before & m & after & Hms & -> & _ & _).
    rewrite Hms in *. split; [|split; [|split; [exact Hpaid|]]].
    + rewrite map_app in *. cbn in Hnd.
      apply NoDup_app in Hnd as (H1 & H2 & H3). apply NoDup_cons in H3 as [_ H3].
      apply NoDup_app. split; [exact H1|]. split; [|exact H3].
      intros x Hx Hx'. apply (H2 x Hx). by right.
    + apply Forall_app in Hall as [H1 H2]. apply Forall_cons in H2 as [_ H2].
      apply Forall_app. by split.
    + rewrite blocks_won_app in *. unfold blocks_won at 2 in Hwon. cbn in Hwon.
      fold (blocks_won after) in Hwon.
      apply Forall_app in Hall as [_ H2]. apply Forall_cons in H2 as [(_ & _ & _ & _ & Hm & _) _].
      lia.
Qed.

Lemma reachable_miningReward (bc : Blockchain.t) :
  Blockchain.reachable bc -> Blockchain.miningReward bc = 10.
Proof.
  induction 1 as [uuid now now'|bc bc' _ IH Hstep]; [reflexivity|].
  apply step_change, change_settings in Hstep. destruct Hstep as (E & _). congruence.
Qed.

Lemma reachable_registry (bc : Blockchain.t) :
  Blockchain.reachable bc ->
  NoDup (map Miner.address (Blockchain.miners bc)) /\
  Forall registered_miner (Blockchain.miners bc) /\
  MiningStats.totalRewardsPaid (Blockchain.miningStats bc)
  = 10 * MiningStats.totalBlocksMined (Blockchain.miningStats bc) /\
  blocks_won (Blockchain.miners bc)
    <= MiningStats.totalBlocksMined (Blockchain.miningStats bc)
    <= Z.of_nat (length (Blockchain.chain bc)) - 1.
Proof.
  induction 1 as [uuid now now'|bc bc' Hr IH Hstep].
  - cbn. repeat split; try constructor; done.
  - eapply change_registry; [apply step_change; exact Hstep | | exact IH].
    by apply reachable_miningReward.
Qed.

End Scheduler.

(** X14.  The scheduler's switch and its timer agree.  In every reachable
    ledger the timer is armed exactly when autoMining is on, and then
    with the stored autoMineInterval as its period; and none of the three
    settings is ever 0, because startAutoMining replaces a 0 by the
    default. *)
Theorem scheduler_timer (bc : Blockchain.t) :
  Blockchain.reachable bc ->
  (Blockchain.autoMining bc = true <-> Blockchain.miningInterval bc <> None) /\
  (Blockchain.autoMining bc = true ->
   Blockchain.miningInterval bc = Blockchain.autoMineInterval bc) /\
  Blockchain.minTransactionsToMine bc <> 0 /\
  Blockchain.maxBlockTime bc <> 0 /\
  (forall i, Blockchain.autoMineInterval bc = Some i -> i <> 0).
Proof.
  induction 1 as [uuid now now'|bc bc' _ IH Hstep].
  - cbn. repeat split; try done.
  - eapply change_timer; [apply step_change|]; eassumption.
Qed.

Lemma reachable_started : Blockchain.reachable Scenario.started.
Proof.
  unfold Scenario.started, Scenario.exec.
  eapply Blockchain.reachable_step; [|apply Blockchain.step_startAutoMining].
  apply Blockchain.reachable_new.
Qed.

(** The scheduler started on a new ledger. *)
Lemma scheduler_timer_witness :
  Blockchain.autoMining Scenario.started = true <->
  Blockchain.miningInterval Scenario.started <> None.
Proof. exact (proj1 (scheduler_timer Scenario.started reachable_started)). Defined.

(** X15.  The miner registry.  In every reachable ledger no address is
    registered as a miner twice, no miner has the empty address, every
    miner is active, and each miner's totalRewards is 10 times its
    blocksMined, which is never negative.  A miner that addMiner
    registers with a number as hashPower gets that number as its weight
    when it lies between 0.1 and 10, and the nearer of the two bounds
    otherwise. *)
Theorem miners_registry (bc : Blockchain.t) :
  Blockchain.reachable bc ->
  NoDup (map Miner.address (Blockchain.miners bc)) /\
  Forall (fun m => Miner.address m <> "" /\
                   Miner.isActive m = true /\
                   0 <= Miner.blocksMined m /\
                   Miner.totalRewards m = 10 * Miner.blocksMined m)
         (Blockchain.miners bc) /\
  (forall a (hashPower : Q) now miner,
     fst (Blockchain.addMiner a hashPower now bc) = JS.Normal (Blockchain.Success miner) ->
     Miner.hashPower miner = Blockchain.clamp_hashPower hashPower /\
     (1 # 10 <= Miner.hashPower miner)%Q /\ (Miner.hashPower miner <= 10)%Q /\
     ((1 # 10 <= hashPower)%Q -> (hashPower <= 10)%Q -> Miner.hashPower miner = hashPower) /\
     ((hashPower < 1 # 10)%Q -> Miner.hashPower miner = (1 # 10)%Q) /\
     ((10 < hashPower)%Q -> Miner.hashPower miner = 10%Q)).
Proof.
  intros Hr. destruct (reachable_registry bc Hr) as (H1 & H2 & _).
  split; [exact H1|]. split.
  - eapply Forall_impl; [exact H2|]. intros m (Ha & _ & _ & Hact & Hb & Ht). auto.
  - intros a hashPower now miner Hadd.
    destruct (addMiner_effect a hashPower now bc)
      as [[error E] | (miner' & _ & _ & _ & Hhp & _ & _ & _ & E)];
      rewrite E in Hadd; [discriminate|].
    injection Hadd as <-. rewrite Hhp.
    split; [reflexivity|].
    destruct (clamp_hashPower_bounds hashPower) as [Hlow Hhigh].
    split; [exact Hlow|]. split; [exact Hhigh|].
    unfold Blockchain.clamp_hashPower.
    split; [|split].
    + intros Hl Hh. apply Qle_bool_iff in Hl, Hh. cbv zeta. by rewrite Hh, Hl.
    + intros Hl. cbv zeta.
      assert (Qle_bool hashPower 10 = true) as -> by (apply Qle_bool_iff; lra).
      destruct (Qle_bool (1 # 10) hashPower) eqn:H; [|reflexivity].
      apply Qle_bool_iff in H. lra.
    + intros Hh. cbv zeta.
      destruct (Qle_bool hashPower 10) eqn:H; [apply Qle_bool_iff in H; lra|].
      reflexivity.
Qed.

Lemma reachable_with_miner : Blockchain.reachable Scenario.with_miner.
Proof.
  unfold Scenario.with_miner, Scenario.exec.
  eapply Blockchain.reachable_step; [|apply Blockchain.step_addMiner].
  exact reachable_with_carol.
Qed.

(** carol registered as a miner of weight 1. *)
Lemma miners_registry_witness :
  NoDup (map Miner.address (Blockchain.miners Scenario.with_miner)) /\
  Forall (fun m => Miner.address m <> "" /\
                   Miner.isActive m = true /\
                   0 <= Miner.blocksMined m /\
                   Miner.totalRewards m = 10 * Miner.blocksMined m)
         (Blockchain.miners Scenario.with_miner).
Proof.
  exact (conj (proj1 (miners_registry Scenario.with_miner reachable_with_miner))
              (proj1 (proj2 (miners_registry Scenario.with_miner reachable_with_miner)))).
Defined.

(** X16.  The mining counters.  In every reachable ledger the total of
    rewards paid is 10 times the number of blocks counted; that number
    is at least what the miners now on the list have won between them
    (a removed miner takes its count away) and at most the number of
    blocks after the genesis block (blocks mined by a direct call to
    minePendingTransactions are not counted). *)
Theorem mining_counters (bc : Blockchain.t) :
  Blockchain.reachable bc ->
  MiningStats.totalRewardsPaid (Blockchain.miningStats bc)
  = 10 * MiningStats.totalBlocksMined (Blockchain.miningStats bc) /\
  blocks_won (Blockchain.miners bc)
    <= MiningStats.totalBlocksMined (Blockchain.miningStats bc) /\
  MiningStats.totalBlocksMined (Blockchain.miningStats bc)
    <= Blockchain.info_height (Blockchain.getBlockchainInfo bc) - 1.
Proof.
  intros Hr. destruct (reachable_registry bc Hr) as (_ & _ & H3 & H4 & H5). by repeat split.
Qed.

(** After two blocks were mined by direct calls: nothing was counted. *)
Lemma mining_counters_witness :
  MiningStats.totalRewardsPaid (Blockchain.miningStats Scenario.overdrawn)
  = 10 * MiningStats.totalBlocksMined (Blockchain.miningStats Scenario.overdrawn) /\
  blocks_won (Blockchain.miners Scenario.overdrawn)
    <= MiningStats.totalBlocksMined (Blockchain.miningStats Scenario.overdrawn) /\
  MiningStats.totalBlocksMined (Blockchain.miningStats Scenario.overdrawn)
    <= Blockchain.info_height (Blockchain.getBlockchainInfo Scenario.overdrawn) - 1.
Proof. exact (mining_counters Scenario.overdrawn reachable_overdrawn). Defined.

(** ** The weighted draw *)

Section Draw.

Lemma weight_from (ms : list Miner.t) (cw : Q) :
  (fold_left (fun sum miner => sum + Miner.hashPower miner) ms cw
   == cw + fold_left (fun sum miner => sum + Miner.hashPower miner) ms 0)%Q.
Proof.
  revert cw. induction ms as [|m ms IH]; intros cw; cbn [fold_left].
  - ring.
  - rewrite IH, (IH (0 + Miner.hashPower m)%Q). ring.
Qed.

Lemma weight_nonneg (ms : list Miner.t) :
  Forall (fun m => (0 < Miner.hashPower m)%Q) ms ->
  (0 <= fold_left (fun sum miner => sum + Miner.hashPower miner) ms 0)%Q.
Proof.
  induction 1 as [|m ms Hm _ IH]; cbn [fold_left]; [apply Qle_refl|].
  rewrite weight_from. lra.
Qed.

(** The loop of the draw, started at index [i0] with weight [cw]: it
    stops at the first miner whose running weight reaches [random]. *)
Lemma draw_first (random cw : Q) (i0 : nat) (ms : list Miner.t) :
  (random <= fold_left (fun sum miner => sum + Miner.hashPower miner) ms cw)%Q ->
  ms <> [] ->
  exists k winner,
    Blockchain.draw random cw i0 ms = Some (i0 + k)%nat /\
    ms !! k = Some winner /\
    (random <= fold_left (fun sum miner => sum + Miner.hashPower miner) (take (S k) ms) cw)%Q /\
    forall j, (j < k)%nat ->
      (fold_left (fun sum miner => sum + Miner.hashPower miner) (take (S j) ms) cw < random)%Q.
Proof.
  revert cw i0. induction ms as [|m ms IH]; intros cw i0 Htotal Hne; [done|].
  cbn [Blockchain.draw]. cbv zeta.
  destruct (Qle_bool random (cw + Miner.hashPower m)) eqn:E.
  - apply Qle_bool_iff in E. exists 0%nat, m.
    split; [f_equal; lia|]. split; [reflexivity|]. split; [exact E|]. intros j Hj. lia.
  - assert (cw + Miner.hashPower m < random)%Q as Hlt.
    { apply Qnot_le_lt. intros H. apply Qle_bool_iff in H. congruence. }
    destruct ms as [|m' ms'] eqn:Hms.
    { cbn [fold_left] in Htotal. lra. }
    rewrite <- Hms in *.
    destruct (IH (cw + Miner.hashPower m)%Q (S i0) Htotal) as (k & winner & Hd & Hw & Hle & Hbelow).
    { by rewrite Hms. }
    exists (S k), winner. split; [rewrite Hd; f_equal; lia|].
    split; [exact Hw|]. split; [exact Hle|].
    intros [|j] Hj; [exact Hlt|]. apply Hbelow. lia.
Qed.

End Draw.

(** X17.  The weighted draw always has a winner.  With at least one miner,
    all weights positive and the random number between 0 and 1, the loop
    of startMiningCompetition selects a miner on the list, so that
    winningMiner is not left null; with the random number 0 it is the
    first miner. *)
Theorem draw_has_winner (rnd : Q) (ms : list Miner.t) :
  ms <> [] ->
  Forall (fun m => (0 < Miner.hashPower m)%Q) ms ->
  (0 <= rnd)%Q /\ (rnd <= 1)%Q ->
  let totalHashPower := fold_left (fun sum miner => (sum + Miner.hashPower miner)%Q) ms 0%Q in
  let random := (rnd * totalHashPower)%Q in
  exists i winningMiner,
    Blockchain.draw random 0 0 ms = Some i /\
    ms !! i = Some winningMiner /\
    ((rnd == 0)%Q -> i = 0%nat).
Proof.
  intros Hne Hpos [H0 H1]. cbv zeta.
  pose proof (weight_nonneg ms Hpos) as Htotal.
  set (total := fold_left _ ms 0%Q) in *.
  destruct (draw_first (rnd * total) 0 0 ms) as (k & winner & Hd & Hw & Hle & Hbelow);
    [fold total; nra | exact Hne |].
  exists k, winner. split; [exact Hd|]. split; [exact Hw|].
  intros Hrnd. destruct k as [|k]; [reflexivity|]. exfalso.
  specialize (Hbelow 0%nat ltac:(lia)).
  destruct Hpos as [|m0 ms' Hm0 _]; [done|].
  cbn [take fold_left] in Hbelow. rewrite take_0 in Hbelow. cbn [fold_left] in Hbelow.
  assert (rnd * total == 0)%Q as Hzero by (rewrite Hrnd; ring).
  lra.
Qed.

Lemma with_miner_listed : Blockchain.miners Scenario.with_miner <> [].
Proof. vm_compute. discriminate. Qed.

Lemma with_miner_weights :
  Forall (fun m => (0 < Miner.hashPower m)%Q) (Blockchain.miners Scenario.with_miner).
Proof.
  destruct (reachable_registry _ reachable_with_miner) as (_ & Hall & _).
  eapply Forall_impl; [exact Hall|]. intros m (_ & H & _). lra.
Qed.

Lemma half_in_range : (0 <= 1 # 2)%Q /\ (1 # 2 <= 1)%Q.
Proof. split; discriminate. Qed.

(** One miner and the random number 1/2. *)
Lemma draw_has_winner_witness :
  let totalHashPower :=
    fold_left (fun sum miner => (sum + Miner.hashPower miner)%Q)
              (Blockchain.miners Scenario.with_miner) 0%Q in
  let random := ((1 # 2) * totalHashPower)%Q in
  exists i winningMiner,
    Blockchain.draw random 0 0 (Blockchain.miners Scenario.with_miner) = Some i /\
    Blockchain.miners Scenario.with_miner !! i = Some winningMiner /\
    ((1 # 2 == 0)%Q -> i = 0%nat).
Proof.
  exact (draw_has_winner (1 # 2) (Blockchain.miners Scenario.with_miner)
           with_miner_listed with_miner_weights half_in_range).
Defined.

(** ** The competition *)

Section Competition.

Lemma reachable_chain (bc : Blockchain.t) :
  Blockchain.reachable bc ->
  exists uuid now rest, Blockchain.chain bc = Blockchain.createGenesisBlock uuid now :: rest.
Proof.
  intros Hr. destruct (reachable_accounted bc Hr) as [(uuid & now & rest & Hc & _) _]. eauto.
Qed.

Lemma findAccount_None (a : string) (bc : Blockchain.t) :
  Blockchain.findAccount a bc = None ->
  Blockchain.resolveAddress a bc = a /\ JSMap.has a (Blockchain.accounts bc) = false.
Proof.
  intros H. split; [unfold Blockchain.resolveAddress; by rewrite H|].
  unfold Blockchain.findAccount in H.
  destruct (JSMap.has a (Blockchain.accounts bc)) eqn:E; [|reflexivity].
  apply JSMap_has_get in E as [v Hv]. congruence.
Qed.

Lemma JSMap_has_get_None {V} (k : string) (m : JSMap.t V) :
  JSMap.has k m = false -> JSMap.get k m = None.
Proof. unfold JSMap.has. by destruct (JSMap.get k m). Qed.

Lemma app_singleton_neq {A} (l : list A) (x : A) : l <> (l ++ [x])%list.
Proof. intros H. apply (f_equal length) in H. rewrite length_app in H. cbn in H. lia. Qed.

End Competition.

(** X18.  addMiner does not ask whether the address is an account.  A name
    that is neither an address nor an alias on record, and not empty, is
    accepted as a miner.  If it is the only miner, every competition over
    a pool that is not empty draws it, minePendingTransactions refuses
    its address, and the competition throws Invalid miner address; the
    pool, the chain and the counters stay as they were, and the periodic
    check throws the same way whenever it decides to mine. *)
Theorem unregistered_miner_stalls (a : string) (hashPower : Q) (joined : Z)
    (bc : Blockchain.t) :
  Blockchain.findAccount a bc = None ->
  a <> "" ->
  Blockchain.miners bc = [] ->
  Blockchain.pendingTransactions bc <> [] ->
  let miner := Miner.mk a None (Blockchain.clamp_hashPower hashPower) true joined 0 0 in
  let bc' := Blockchain.set_miners [miner] bc in
  Blockchain.addMiner a hashPower joined bc = (JS.Normal (Blockchain.Success miner), bc') /\
  forall fuel rnd now t0 t1,
    (0 <= rnd)%Q /\ (rnd <= 1)%Q ->
    Blockchain.startMiningCompetition fuel rnd now t0 t1 bc'
    = (JS.Throw Blockchain.InvalidMinerAddress, bc') /\
    forall clock lastBlock,
      Blockchain.autoMining bc = true ->
      Blockchain.getLatestBlock bc = Some lastBlock ->
      Blockchain.minTransactionsToMine bc
        <= Z.of_nat (length (Blockchain.pendingTransactions bc))
      \/ Blockchain.maxBlockTime bc <= clock - Block.timestamp lastBlock ->
      Blockchain.checkAndStartMining fuel clock rnd now t0 t1 bc'
      = (JS.Throw Blockchain.InvalidMinerAddress, bc').
Proof.
  intros Hnone Hne Hminers Hpool. cbv zeta.
  destruct (findAccount_None a bc Hnone) as [Hres Hhas].
  assert (Hcompete : forall fuel rnd now t0 t1,
            (0 <= rnd)%Q /\ (rnd <= 1)%Q ->
            Blockchain.startMiningCompetition fuel rnd now t0 t1
              (Blockchain.set_miners
                 [Miner.mk a None (Blockchain.clamp_hashPower hashPower) true joined 0 0] bc)
            = (JS.Throw Blockchain.InvalidMinerAddress,
               Blockchain.set_miners
                 [Miner.mk a None (Blockchain.clamp_hashPower hashPower) true joined 0 0] bc)).
  { intros fuel rnd now t0 t1 [H0 H1].
    unfold Blockchain.startMiningCompetition. run.
    cbn [Blockchain.miners Blockchain.pendingTransactions Blockchain.set_miners length
         Nat.eqb fold_left Miner.hashPower Blockchain.draw].
    destruct (Blockchain.pendingTransactions bc) as [|p ps] eqn:Hp; [done|].
    cbn [length Nat.eqb]. cbv zeta.
    destruct (clamp_hashPower_bounds hashPower) as [Hlow _].
    assert (Qle_bool (rnd * (0 + Blockchain.clamp_hashPower hashPower))
                     (0 + Blockchain.clamp_hashPower hashPower) = true) as ->.
    { apply Qle_bool_iff. nra. }
    cbn [lookup list_lookup Miner.address].
    unfold Blockchain.minePendingTransactions. run.
    change (Blockchain.resolveAddress a (Blockchain.set_miners ?ms bc))
      with (Blockchain.resolveAddress a bc).
    cbn [Blockchain.accounts Blockchain.set_miners]. rewrite Hres, Hhas. reflexivity. }
  split.
  - unfold Blockchain.addMiner. run. rewrite Hres, Hminers.
    apply eqb_false_iff in Hne. rewrite Hne. cbn [find].
    apply JSMap_has_get_None in Hhas. rewrite Hhas. reflexivity.
  - intros fuel rnd now t0 t1 Hrnd. split; [by apply Hcompete|].
    intros clock lastBlock Hauto Hlast Hdue.
    unfold Blockchain.checkAndStartMining. run.
    cbn [Blockchain.autoMining Blockchain.set_miners]. rewrite Hauto. cbn [negb].
    change (Blockchain.getLatestBlock (Blockchain.set_miners ?ms bc))
      with (Blockchain.getLatestBlock bc).
    rewrite Hlast.
    cbn [Blockchain.minTransactionsToMine Blockchain.maxBlockTime
         Blockchain.pendingTransactions Blockchain.set_miners].
    assert ((Blockchain.minTransactionsToMine bc
               <=? Z.of_nat (length (Blockchain.pendingTransactions bc)))
            || (Blockchain.maxBlockTime bc <=? clock - Block.timestamp lastBlock) = true) as ->.
    { apply orb_true_iff. destruct Hdue as [H|H]; [left|right]; by apply Z.leb_le. }
    by apply Hcompete.
Qed.

Lemma claimed_unknown_mallory : Blockchain.findAccount "mallory" Scenario.claimed = None.
Proof. vm_compute. reflexivity. Qed.

Lemma mallory_named : "mallory" <> "".
Proof. discriminate. Qed.

Lemma claimed_no_miners : Blockchain.miners Scenario.claimed = [].
Proof. vm_compute. reflexivity. Qed.

Lemma claimed_pool : Blockchain.pendingTransactions Scenario.claimed <> [].
Proof. vm_compute. discriminate. Qed.

(** mallory, who has no account, joins as the only miner while alice's
    claim is waiting in the pool. *)
Lemma unregistered_miner_stalls_witness :
  Blockchain.addMiner "mallory" 1 1730000000060 Scenario.claimed
  = (JS.Normal (Blockchain.Success
       (Miner.mk "mallory" None (Blockchain.clamp_hashPower 1) true 1730000000060 0 0)),
     Blockchain.set_miners
       [Miner.mk "mallory" None (Blockchain.clamp_hashPower 1) true 1730000000060 0 0]
       Scenario.claimed).
Proof.
  exact (proj1 (unregistered_miner_stalls "mallory" 1 1730000000060 Scenario.claimed
                  claimed_unknown_mallory mallory_named claimed_no_miners claimed_pool)).
Defined.

(** X19.  The scheduler never mines an empty block.  The periodic check
    does nothing while the scheduler is off, while the pool is empty
    (also when maxBlockTime has long passed) and while there is no
    miner, and nothing when neither the pool has reached
    minTransactionsToMine nor the last block is maxBlockTime old.  When it
    does append a block, the block holds the whole pool, which was not
    empty; some miner on the list won it, the block's miner is the
    registered account that this miner's address resolves to (the
    address itself when it is a key of the directory, else the account
    that carries it as alias), that miner's blocksMined and the ledger's
    totalBlocksMined have each gone up by one, and the pool is empty. *)
Theorem checkAndStartMining_skips (fuel : nat) (clock : Z) (rnd : Q) (now t0 t1 : Z)
    (bc : Blockchain.t) :
  Blockchain.reachable bc ->
  let r := Blockchain.checkAndStartMining fuel clock rnd now t0 t1 bc in
  (Blockchain.autoMining bc = false \/ Blockchain.pendingTransactions bc = []
   \/ Blockchain.miners bc = [] ->
   r = (JS.Normal tt, bc)) /\
  (forall lastBlock,
     Blockchain.getLatestBlock bc = Some lastBlock ->
     Z.of_nat (length (Blockchain.pendingTransactions bc)) < Blockchain.minTransactionsToMine bc ->
     clock - Block.timestamp lastBlock < Blockchain.maxBlockTime bc ->
     r = (JS.Normal tt, bc)) /\
  (forall block,
     Blockchain.chain (snd r) = (Blockchain.chain bc ++ [block])%list ->
     Block.transactions block = Blockchain.pendingTransactions bc /\
     Block.transactions block <> [] /\
     Blockchain.pendingTransactions (snd r) = [] /\
     MiningStats.totalBlocksMined (Blockchain.miningStats (snd r))
     = MiningStats.totalBlocksMined (Blockchain.miningStats bc) + 1 /\
     exists i winner,
       Blockchain.miners bc !! i = Some winner /\
       Block.miner block = Some (Blockchain.resolveAddress (Miner.address winner) bc) /\
       JSMap.has (Blockchain.resolveAddress (Miner.address winner) bc)
                 (Blockchain.accounts bc) = true /\
       Blockchain.miners (snd r)
       = alter (Blockchain.credit 10) i (Blockchain.miners bc)).
Proof.
  intros Hr. cbv zeta.
  destruct (reachable_chain bc Hr) as (uuid & now0 & rest & Hchain).
  pose proof (reachable_miningReward bc Hr) as Hreward.
  assert (Hlatest : exists lastBlock, Blockchain.getLatestBlock bc = Some lastBlock).
  { unfold Blockchain.getLatestBlock. rewrite Hchain.
    destruct (last (Blockchain.createGenesisBlock uuid now0 :: rest)) eqn:E; [eauto|].
    apply last_None in E. discriminate. }
  destruct Hlatest as [lastBlock Hlast].
  pose proof (startMiningCompetition_effect fuel rnd now t0 t1 bc) as Heff. cbv zeta in Heff.
  unfold Blockchain.checkAndStartMining. run. rewrite Hlast.
  split; [|split].
  - intros [Hoff | [Hpool | Hminers]].
    + by rewrite Hoff.
    + destruct (negb _); [reflexivity|]. destruct (_ || _); [|reflexivity].
      destruct Heff as [E | (i & winner & _ & Hp & _)]; [exact E | contradiction].
    + destruct (negb _); [reflexivity|]. destruct (_ || _); [|reflexivity].
      destruct Heff as [E | (i & winner & Hm & _)]; [exact E | contradiction].
  - intros lastBlock' [= <-] Hfew Hrecent.
    destruct (negb _); [reflexivity|].
    replace (_ <=? Z.of_nat _) with false by (symmetry; apply Z.leb_gt; lia).
    replace (_ <=? _ - _) with false by (symmetry; apply Z.leb_gt; lia).
    reflexivity.
  - intros block.
    assert (Hsame : Blockchain.chain bc <> (Blockchain.chain bc ++ [block])%list)
      by apply app_singleton_neq.
    destruct (negb _); [by intros ?|]. destruct (_ || _); [|by intros ?].
    destruct (retargeted_frame _ _ (adjustDifficulty_retargeted bc))
      as (Hc1 & _ & _ & Hm1 & Hs1 & Hr1).
    destruct Heff as [-> | (i & winner & _ & Hp & Hi & [-> | [[_ [-> | ->]] | (b & Hb & ->)]])];
      cbn [snd]; rewrite ?Hc1; try (by intros ?).
    unfold credited, appended.
    cbn [Blockchain.chain Blockchain.pendingTransactions Blockchain.miners
         Blockchain.miningStats Blockchain.miningReward Blockchain.set_chain
         Blockchain.set_pendingTransactions Blockchain.set_miners
         Blockchain.set_miningStats MiningStats.totalBlocksMined].
    rewrite Hc1, Hm1, Hs1, Hr1, Hreward.
    intros [_ [= <-]]%app_inj_tail.
    destruct Hb as (latest & _ & Hhas & _ & _ & Htxs & Hminer & _).
    split; [exact Htxs|]. split; [by rewrite Htxs|]. split; [reflexivity|].
    split; [reflexivity|]. by exists i, winner.
Qed.

Lemma funded_scheduler_off : Blockchain.autoMining Scenario.funded = false.
Proof. vm_compute. reflexivity. Qed.

(** On the ledger of the scenario the scheduler is off. *)
Lemma checkAndStartMining_skips_witness :
  Blockchain.checkAndStartMining 16 1730000040000 (1 # 2) 1730000040001 1730000040002
    1730000040003 Scenario.funded
  = (JS.Normal tt, Scenario.funded).
Proof.
  exact (proj1 (checkAndStartMining_skips 16 1730000040000 (1 # 2) 1730000040001
                  1730000040002 1730000040003 Scenario.funded reachable_funded)
               (or_introl funded_scheduler_off)).
Defined.

Section Registry.

Lemma remove_first_last (address : string) (ms : list Miner.t) (m : Miner.t) :
  Forall (fun m' => Miner.address m' <> address) ms ->
  Miner.address m = address ->
  Blockchain.remove_first address (ms ++ [m]) = Some ms.
Proof.
  intros Hms Hm. induction Hms as [|m' ms Hm' _ IH]; cbn.
  - rewrite Hm, String.eqb_refl. reflexivity.
  - apply eqb_false_iff in Hm'. rewrite Hm', IH. reflexivity.
Qed.

Lemma find_last (ms : list Miner.t) (m : Miner.t) :
  find (fun m' => String.eqb (Miner.address m') (Miner.address m)) (ms ++ [m])%list <> None.
Proof.
  induction ms as [|m' ms IH]; cbn.
  - by rewrite String.eqb_refl.
  - by destruct (String.eqb _ _).
Qed.

Lemma set_miners_same (bc : Blockchain.t) (ms : list Miner.t) :
  Blockchain.set_miners (Blockchain.miners bc) (Blockchain.set_miners ms bc) = bc.
Proof. by destruct bc. Qed.

End Registry.

(** X20.  Joining and leaving undo each other.  When addMiner succeeds, a
    second addMiner for the same name is refused with Address is already
    a miner, whatever weight it offers, and removeMiner for that name
    succeeds and gives back exactly the ledger from before the miner
    joined.  When addMiner is refused the ledger is unchanged. *)
Theorem addMiner_then_removeMiner (a : string) (hashPower : Q) (now : Z)
    (bc : Blockchain.t) :
  let bc' := snd (Blockchain.addMiner a hashPower now bc) in
  (forall miner,
     fst (Blockchain.addMiner a hashPower now bc) = JS.Normal (Blockchain.Success miner) ->
     Blockchain.miners bc' = (Blockchain.miners bc ++ [miner])%list /\
     (forall hashPower' now',
        Blockchain.addMiner a hashPower' now' bc'
        = (JS.Normal (Blockchain.Failure "Address is already a miner"), bc')) /\
     Blockchain.removeMiner a bc' = (JS.Normal (Blockchain.Success tt), bc)) /\
  (forall error,
     fst (Blockchain.addMiner a hashPower now bc) = JS.Normal (Blockchain.Failure error) ->
     bc' = bc).
Proof.
  cbv zeta.
  destruct (addMiner_effect a hashPower now bc)
    as [[error E] | (miner & Haddr & Hne & Hnew & _ & _ & _ & _ & E)]; rewrite E; cbn [fst snd].
  - split; [intros miner [=] | reflexivity].
  - split; [|intros error [=]]. intros miner' [= <-].
    split; [reflexivity|].
    apply eqb_false_iff in Hne.
    split.
    + intros hashPower' now'. unfold Blockchain.addMiner. run.
      change (Blockchain.resolveAddress a (Blockchain.set_miners ?ms bc))
        with (Blockchain.resolveAddress a bc).
      rewrite <- Haddr, Hne. cbn [Blockchain.miners Blockchain.set_miners].
      pose proof (find_last (Blockchain.miners bc) miner) as Hfind.
      destruct (find _ _); [reflexivity | contradiction].
    + unfold Blockchain.removeMiner. run.
      change (Blockchain.resolveAddress a (Blockchain.set_miners ?ms bc))
        with (Blockchain.resolveAddress a bc).
      rewrite <- Haddr, Hne. cbn [Blockchain.miners Blockchain.set_miners].
      rewrite (remove_first_last _ _ _ Hnew eq_refl).
      by rewrite set_miners_same.
Qed.

(* ===================================================================== *)
(** * The HTTP handlers                                                   *)
(* ===================================================================== *)

Section Handlers.

(** On a reachable ledger retargeting does not throw. *)
Lemma adjustDifficulty_returns (bc : Blockchain.t) :
  Blockchain.reachable bc -> fst (Blockchain.adjustDifficulty bc) = JS.Normal tt.
Proof.
  intros Hr. destruct (reachable_chain bc Hr) as (uuid & now & rest & Hchain).
  pose proof (reachable_window bc Hr) as Hwindow.
  unfold Blockchain.adjustDifficulty. run. rewrite Hwindow.
  destruct (_ <? 5) eqn:Hlen; [reflexivity|]. apply Z.ltb_ge in Hlen.
  unfold Blockchain.chain_at, Blockchain.getLatestBlock.
  replace (_ - 5 <? 0) with false by (symmetry; apply Z.ltb_ge; lia).
  destruct (Blockchain.chain bc !! _) as [adjustmentBlock|] eqn:Hfirst.
  - destruct (last (Blockchain.chain bc)) as [lastBlock|] eqn:Hlast.
    + repeat case_match; reflexivity.
    + apply last_None in Hlast. rewrite Hlast in Hchain. discriminate.
  - apply lookup_ge_None in Hfirst. lia.
Qed.

Lemma search_hash_length (fuel : nat) (d : Z) (target : string) (b found : Block.t) :
  Block.search fuel d target b = Some found ->
  String.length (Block.hash b) = 64%nat ->
  String.length (Block.hash found) = 64%nat.
Proof.
  intros Hs Hb. apply search_inv in Hs as (_ & _ & _ & [-> | ->]); [exact Hb|].
  unfold Block.calculateHash. apply SHA256_length.
Qed.

(** With the difficulty at 64 or below, a call of minePendingTransactions
    that ends leaves it there: a retarget to 65 is followed by a search
    that does not end.  And it throws for one reason only, the miner's
    address. *)
Lemma minePendingTransactions_ceiling (fuel : nat) (a : string) (now t0 t1 : Z)
    (bc : Blockchain.t) :
  Blockchain.reachable bc ->
  Blockchain.difficulty bc <= 64 ->
  let r := Blockchain.minePendingTransactions fuel a now t0 t1 bc in
  Blockchain.finished r ->
  Blockchain.difficulty (snd r) <= 64 /\
  (forall msg, fst r = JS.Throw msg -> r = (JS.Throw Blockchain.InvalidMinerAddress, bc)).
Proof.
  intros Hr Hmax. cbv zeta.
  pose proof (adjustDifficulty_returns bc Hr) as Hadjust.
  destruct (reachable_chain bc Hr) as (uuid & now0 & rest & Hchain).
  pose proof (adjustDifficulty_retargeted bc) as Hretarget.
  destruct (retargeted_frame _ _ Hretarget) as (Hc1 & _).
  pose proof (reachable_difficulty bc Hr) as Hmin.
  assert (1 <= Blockchain.difficulty (snd (Blockchain.adjustDifficulty bc)) <= 65) as Hd.
  { destruct Hretarget as [-> | [-> | ->]]; cbn; lia. }
  unfold Blockchain.finished, Blockchain.minePendingTransactions. run.
  destruct (negb _); [intros _; split; [exact Hmax | reflexivity]|].
  destruct (Blockchain.adjustDifficulty bc) as [[[]| |] bc1]; cbn [fst snd] in *;
    try discriminate.
  unfold Blockchain.getLatestBlock. rewrite Hc1, Hchain.
  destruct (last _) as [latest|] eqn:Hlast; [|apply last_None in Hlast; discriminate].
  unfold Block.mineBlock.
  destruct (JS.zeros (Blockchain.difficulty bc1)) as [target| |] eqn:Hz.
  - destruct (Block.search _ _ _ _) as [found|] eqn:Hs; cbn [fst snd]; [|intros []].
    intros _. split; [|discriminate].
    cbn [Blockchain.difficulty Blockchain.set_pendingTransactions Blockchain.set_chain].
    apply zeros_length in Hz.
    pose proof (search_hash_length _ _ _ _ _ Hs (SHA256_length _)) as Hlen.
    apply search_inv in Hs as (Ht & _).
    pose proof (substring0_length (Blockchain.difficulty bc1) (Block.hash found)) as Hsub.
    rewrite Ht in Hsub. lia.
  - unfold JS.zeros in Hz.
    destruct ((_ <? 0) || (_ <? _)) eqn:E; [|discriminate].
    apply orb_true_iff in E. rewrite !Z.ltb_lt in E. lia.
  - unfold JS.zeros in Hz. destruct ((_ <? 0) || (_ <? _)); discriminate.
Qed.

Lemma startMiningCompetition_ceiling (fuel : nat) (rnd : Q) (now t0 t1 : Z)
    (bc : Blockchain.t) :
  Blockchain.reachable bc ->
  Blockchain.difficulty bc <= 64 ->
  Blockchain.finished (Blockchain.startMiningCompetition fuel rnd now t0 t1 bc) ->
  Blockchain.difficulty (snd (Blockchain.startMiningCompetition fuel rnd now t0 t1 bc)) <= 64.
Proof.
  intros Hr Hmax. unfold Blockchain.finished, Blockchain.startMiningCompetition. run.
  destruct (_ =? 0)%nat; [intros _; exact Hmax|].
  destruct (_ =? 0)%nat; [intros _; exact Hmax|].
  destruct (Blockchain.draw _ _ _ _) as [i|]; [|intros _; exact Hmax].
  destruct (Blockchain.miners bc !! i) as [winner|]; [|intros _; exact Hmax].
  pose proof (minePendingTransactions_ceiling fuel (Miner.address winner) now t0 t1 bc Hr Hmax)
    as H.
  cbv zeta in H. unfold Blockchain.finished in H.
  destruct (Blockchain.minePendingTransactions _ _ _ _ _ _) as [[[]| |] bc2];
    cbn [fst snd] in *; [| |intros []]; intros _; by apply H.
Qed.

(** The difficulty never passes 64, the length of a digest: a ledger at
    65 would have to come out of a search that does not end. *)
Lemma reachable_ceiling (bc : Blockchain.t) :
  Blockchain.reachable bc -> Blockchain.difficulty bc <= 64.
Proof.
  induction 1 as [uuid now now'|bc bc' Hr IH Hstep]; [cbn; lia|].
  destruct Hstep as [a isAlias now rnd now'|tx|a clock uuid now now'|fuel a now t0 t1 Hend
                    |a hp now|a|config| |fuel rnd now t0 t1 Hend
                    |fuel clock rnd now t0 t1 Hend].
  - by destruct (createAccount_step a isAlias now rnd now' bc)
      as [-> | (address & account & _ & _ & ->)].
  - by destruct (createTransaction_effect tx bc) as [[msg ->] | (signed & _ & ->)].
  - pose proof (useFaucet_effect a clock uuid now now' bc) as H. cbv zeta in H.
    by destruct H as [[msg ->] | (_ & _ & ->)].
  - by apply minePendingTransactions_ceiling.
  - by destruct (addMiner_effect a hp now bc)
      as [[error ->] | (miner & _ & _ & _ & _ & _ & _ & _ & ->)].
  - by destruct (removeMiner_effect a bc) as [[error ->] | (rest & _ & ->)].
  - unfold Blockchain.startAutoMining. run. by destruct (Blockchain.autoMining bc).
  - unfold Blockchain.stopAutoMining. run. by destruct (Blockchain.autoMining bc).
  - by apply startMiningCompetition_ceiling.
  - revert Hend. unfold Blockchain.checkAndStartMining. run.
    destruct (negb _); [done|].
    destruct (Blockchain.getLatestBlock bc); [|done].
    destruct (_ || _); [|done].
    by apply startMiningCompetition_ceiling.
Qed.

(** On a reachable ledger minePendingTransactions throws for one reason
    only, the miner's address. *)
Lemma minePendingTransactions_throws (fuel : nat) (a : string) (now t0 t1 : Z)
    (bc : Blockchain.t) (msg : string) :
  Blockchain.reachable bc ->
  fst (Blockchain.minePendingTransactions fuel a now t0 t1 bc) = JS.Throw msg ->
  Blockchain.minePendingTransactions fuel a now t0 t1 bc
  = (JS.Throw Blockchain.InvalidMinerAddress, bc).
Proof.
  intros Hr Hthrow.
  pose proof (minePendingTransactions_ceiling fuel a now t0 t1 bc Hr (reachable_ceiling bc Hr))
    as H.
  cbv zeta in H. unfold Blockchain.finished in H. rewrite Hthrow in H.
  exact (proj2 (H I) msg eq_refl).
Qed.


End Handlers.


Section MineHandler.

(** The ways in which POST /api/mine ends on a reachable ledger. *)
Lemma post_mine_cases (minerAddress : option string) (fuel : nat) (now t0 t1 : Z)
    (bc : Blockchain.t) :
  Blockchain.reachable bc ->
  let r := Server.post_mine minerAddress fuel now t0 t1 bc in
  let bc1 := snd (Blockchain.adjustDifficulty bc) in
  (absent minerAddress /\
   r = (JS.Normal (Server.Error 400 "Miner address is required" None), bc)) \/
  (~ absent minerAddress /\
   ((Blockchain.pendingTransactions bc = [] /\
     r = (JS.Normal (Server.Error 400 "No pending transactions to mine" None), bc)) \/
    (Blockchain.pendingTransactions bc <> [] /\
     (r = (JS.Normal (Server.Error 400 Blockchain.InvalidMinerAddress None), bc) \/
      fst r = JS.OutOfFuel \/
      exists block,
        mined bc (Blockchain.difficulty bc1) (JS.or_empty minerAddress) now t0 t1 block /\
        r = (JS.Normal
               (Server.Ok
                  (Server.mkMined (JS.or_empty minerAddress)
                     (Blockchain.getAccountBalance (JS.or_empty minerAddress)
                        (appended block bc1))
                     (Z.of_nat (length (Blockchain.chain (appended block bc1)))))),
             appended block bc1))))).
Proof.
  intros Hr. cbv zeta. unfold Server.post_mine, Server.try_catch. run.
  destruct (JS.truthy_str minerAddress) eqn:Hm; cbn [negb];
    [|apply truthy_str_false in Hm; left; auto].
  apply truthy_str_true in Hm. right. split; [exact Hm|].
  destruct (Blockchain.pendingTransactions bc) as [|p ps] eqn:Hp; cbn [length Nat.eqb];
    [left; auto|].
  right. split; [done|].
  pose proof (minePendingTransactions_effect fuel (JS.or_empty minerAddress) now t0 t1 bc)
    as Heff.
  pose proof (minePendingTransactions_throws fuel (JS.or_empty minerAddress) now t0 t1 bc)
    as Hthrows.
  cbv zeta in Heff.
  destruct Heff as [[_ E] | [_ [[Hne _] | (block & Hb & E)]]].
  - rewrite E. by left.
  - destruct (Blockchain.minePendingTransactions _ _ _ _ _ _) as [[[]| |] bc2] eqn:E;
      cbn [fst snd] in *.
    + contradiction.
    + specialize (Hthrows msg Hr eq_refl). injection Hthrows as -> ->. by left.
    + right; by left.
  - rewrite E. right; right. exists block. split; [exact Hb | reflexivity].
Qed.

End MineHandler.

(** X22.  POST /api/mine on a reachable ledger.  A missing or empty miner
    address gets 400 Miner address is required; an empty pool gets 400 No
    pending transactions to mine, so no block mined through this route is
    empty; an address that is no account gets 400 Invalid miner address.
    Every refusal is a 400 and leaves the ledger as it was.  A 200 reply
    means one block was appended that holds the whole pool: the reply
    echoes the miner address, blockHeight is the old height plus one, and
    newBalance is the miner's balance as getAccountBalance derives it
    from the new chain.  With whole amounts and a chain whose volume is
    still at most 2^53, so that the code's sums of doubles are exact,
    that is the miner's old balance plus what the new block adds to
    it. *)
Theorem post_mine_spec (minerAddress : option string) (fuel : nat) (now t0 t1 : Z)
    (bc : Blockchain.t) :
  Blockchain.reachable bc ->
  let r := Server.post_mine minerAddress fuel now t0 t1 bc in
  let miner := Blockchain.resolveAddress (JS.or_empty minerAddress) bc in
  (absent minerAddress ->
   r = (JS.Normal (Server.Error 400 "Miner address is required" None), bc)) /\
  (~ absent minerAddress -> Blockchain.pendingTransactions bc = [] ->
   r = (JS.Normal (Server.Error 400 "No pending transactions to mine" None), bc)) /\
  (~ absent minerAddress -> Blockchain.pendingTransactions bc <> [] ->
   JSMap.has miner (Blockchain.accounts bc) = false ->
   r = (JS.Normal (Server.Error 400 Blockchain.InvalidMinerAddress None), bc)) /\
  (forall code error remainingTime,
     fst r = JS.Normal (Server.Error code error remainingTime) ->
     code = 400 /\ remainingTime = None /\ snd r = bc) /\
  (forall reply,
     fst r = JS.Normal (Server.Ok reply) ->
     exists block,
       Blockchain.chain (snd r) = (Blockchain.chain bc ++ [block])%list /\
       Block.transactions block = Blockchain.pendingTransactions bc /\
       Block.transactions block <> [] /\
       Block.miner block = Some miner /\
       Blockchain.pendingTransactions (snd r) = [] /\
       Server.mined_minerAddress reply = JS.or_empty minerAddress /\
       Server.mined_blockHeight reply
       = Blockchain.info_height (Blockchain.getBlockchainInfo bc) + 1 /\
       Server.mined_newBalance reply
       = Blockchain.getAccountBalance (JS.or_empty minerAddress) (snd r) /\
       (volume (Blockchain.chain (snd r)) <= 2 ^ 53 ->
        Server.mined_newBalance reply
        = Blockchain.getAccountBalance (JS.or_empty minerAddress) bc
          + Blockchain.block_effect miner 0 block)).
Proof.
  intros Hr. pose proof (post_mine_cases minerAddress fuel now t0 t1 bc Hr) as Hcases.
  cbv zeta in *.
  destruct Hcases
    as [[Habsent ->]
       | [Hpresent [[Hpool ->] | [Hpool [-> | [Hfuel | (block & Hb & ->)]]]]]];
    cbn [fst snd].
  - split; [reflexivity|]. split; [by intros ?|]. split; [by intros ?|].
    split; [by intros ? ? ? [= <- _ <-] | intros ? [=]].
  - split; [by intros ?|]. split; [reflexivity|]. split; [by intros _ ?|].
    split; [by intros ? ? ? [= <- _ <-] | intros ? [=]].
  - split; [by intros ?|]. split; [by intros _ ?|]. split; [reflexivity|].
    split; [by intros ? ? ? [= <- _ <-] | intros ? [=]].
  - rewrite Hfuel.
    split; [by intros ?|]. split; [by intros _ ?|].
    pose proof (minePendingTransactions_effect fuel (JS.or_empty minerAddress) now t0 t1 bc)
      as Heff. cbv zeta in Heff.
    split.
    { intros _ _ Hhas. exfalso.
      destruct Heff as [[_ E] | [Hhas' _]]; [|congruence].
      unfold Server.post_mine, Server.try_catch in Hfuel. revert Hfuel. run.
      apply truthy_str_true in Hpresent. rewrite Hpresent. cbn [negb].
      destruct (Blockchain.pendingTransactions bc); [done|]. cbn [length Nat.eqb].
      rewrite E. discriminate. }
    split; [intros ? ? ? [=] | intros ? [=]].
  - pose proof (adjustDifficulty_retargeted bc) as Hretarget.
    destruct (retargeted_frame _ _ Hretarget) as (Hc1 & _).
    destruct Hb as (latest & _ & Hhas & _ & _ & Htxs & Hminer & _).
    split; [by intros ?|]. split; [by intros _ ?|]. split; [intros _ _ ?; congruence|].
    split; [intros ? ? ? [=]|].
    intros reply [= <-]. exists block.
    cbn [Server.mined_minerAddress Server.mined_blockHeight Server.mined_newBalance
         Blockchain.getBlockchainInfo Blockchain.info_height].
    rewrite (balance_after_block _ _ _ _ Hretarget), Hhas.
    unfold appended.
    cbn [Blockchain.chain Blockchain.pendingTransactions Blockchain.set_chain
         Blockchain.set_pendingTransactions].
    rewrite Hc1, length_app. cbn [length].
    split; [reflexivity|]. split; [exact Htxs|]. split; [by rewrite Htxs|].
    split; [exact Hminer|]. split; [reflexivity|]. split; [reflexivity|].
    split; [lia|]. split; [reflexivity | intros _; reflexivity].
Qed.

Lemma reachable_claimed : Blockchain.reachable Scenario.claimed.
Proof.
  unfold Scenario.claimed, Scenario.claim, Scenario.exec.
  eapply Blockchain.reachable_step; [|apply Blockchain.step_useFaucet].
  exact reachable_with_carol.
Qed.

Lemma carol_named : ~ absent (Some "carol").
Proof. intros [H|H]; discriminate. Qed.

Lemma dave_unknown :
  JSMap.has (Blockchain.resolveAddress (JS.or_empty (Some "dave")) Scenario.claimed)
            (Blockchain.accounts Scenario.claimed) = false.
Proof. vm_compute. reflexivity. Qed.

Lemma dave_named : ~ absent (Some "dave").
Proof. intros [H|H]; discriminate. Qed.

(** dave, who has no account, asks to mine alice's claim. *)
Lemma post_mine_spec_witness :
  Server.post_mine (Some "dave") 16 1730000000124 1730000000125 1730000000163 Scenario.claimed
  = (JS.Normal (Server.Error 400 Blockchain.InvalidMinerAddress None), Scenario.claimed).
Proof.
  exact (proj1 (proj2 (proj2
           (post_mine_spec (Some "dave") 16 1730000000124 1730000000125 1730000000163
              Scenario.claimed reachable_claimed)))
           dave_named claimed_pool dave_unknown).
Defined.

(** X23.  POST /api/mining/auto/stop always reports success.  The handler
    does not look at what stopAutoMining answers: when the scheduler was
    not running the engine refuses with Auto mining is not running, yet
    the reply is success: true with no stats, and the ledger is as it was;
    when it was running the reply carries the three counters and the
    scheduler is off with its timer cleared.  In neither case does the
    client get an error. *)
Theorem post_mining_auto_stop_spec (bc : Blockchain.t) :
  let r := Server.post_mining_auto_stop bc in
  let stats := Blockchain.miningStats bc in
  (Blockchain.autoMining bc = false ->
   fst (Blockchain.stopAutoMining bc)
   = JS.Normal (Blockchain.Failure "Auto mining is not running") /\
   r = (JS.Normal (Server.Ok None), bc)) /\
  (Blockchain.autoMining bc = true ->
   r = (JS.Normal (Server.Ok (Some (MiningStats.totalBlocksMined stats,
                                     MiningStats.totalRewardsPaid stats,
                                     MiningStats.averageMiningTime stats))),
        Blockchain.set_miningInterval None (Blockchain.set_autoMining false bc))) /\
  (exists reply, fst r = JS.Normal (Server.Ok reply)) /\
  Blockchain.autoMining (snd r) = false.
Proof.
  cbv zeta. unfold Server.post_mining_auto_stop, Server.try_catch, Blockchain.stopAutoMining.
  run. destruct (Blockchain.autoMining bc) eqn:Hauto; cbn [negb fst snd].
  - split; [intros [=]|]. split; [reflexivity|]. split; [eauto | reflexivity].
  - split; [by split|]. split; [intros [=]|]. split; [eauto | exact Hauto].
Qed.

Section Startup.

Lemma generateAddress_prefix (alias : string) (timestamp : Z) (randomBytes : string) :
  exists rest, Blockchain.generateAddress alias timestamp randomBytes
               = String "0" (String "x" rest).
Proof. eexists. reflexivity. Qed.

(** The first account of a directory stays first, and no later key is
    the name [x], when each later account is created under a key other
    than [x]. *)
Lemma createAccount_keeps_first (a : string) (isAlias : bool) (now : Z) (rnd : string)
    (now' : Z) (bc : Blockchain.t) (x : string) (first : string * Account.t)
    (more : list (string * Account.t)) :
  (if isAlias then Blockchain.generateAddress a now rnd else a) <> x ->
  Blockchain.accounts bc = first :: more ->
  Forall (fun kv => fst kv <> x) more ->
  exists more',
    Blockchain.accounts (snd (Blockchain.createAccount a isAlias now rnd now' bc))
    = first :: more' /\
    Forall (fun kv => fst kv <> x) more'.
Proof.
  intros Hne Hacc Hmore.
  destruct (createAccount_ledger a isAlias now rnd now' bc) as [Hold Hnew].
  destruct (JSMap.has (if isAlias then Blockchain.generateAddress a now rnd else a)
                      (Blockchain.accounts bc)) eqn:Hhas.
  - rewrite Hold by done. eauto.
  - rewrite Hnew by done. cbn [Blockchain.accounts Blockchain.set_accounts].
    rewrite Hacc. eexists. split; [reflexivity|].
    apply Forall_app. split; [exact Hmore|]. by repeat constructor.
Qed.

(** A claim that passes the handler's own check is answered with what
    useFaucet returns. *)
Lemma post_faucet_claim_passes (a : string) (clock clock' : Z) (uuid : string) (now now' : Z)
    (receipt : Blockchain.FaucetReceipt) (bc bc' : Blockchain.t) :
  a <> "" ->
  Blockchain.canUse (Blockchain.canUseFaucet a clock bc) = true ->
  Blockchain.useFaucet a clock' uuid now now' bc = (JS.Normal receipt, bc') ->
  Server.post_faucet_claim (Some a) clock clock' uuid now now' bc
  = (JS.Normal (Server.Ok receipt), bc').
Proof.
  intros Hne Hcan Huse. unfold Server.post_faucet_claim, Server.try_catch. run.
  apply eqb_false_iff in Hne. cbn [JS.truthy_str JS.or_empty]. rewrite Hne. cbn [negb].
  rewrite Hcan. cbn [negb]. rewrite Huse. reflexivity.
Qed.

End Startup.

(** X24.  What every server starts with.  Whatever the clock and the
    random source return while the start-up callback runs, the ledger it
    leaves has only accounts registered on it, among them the faucet
    address genesis, whose balance reads 1000000, and user1 under the
    address generated for it, to which the alias user1 resolves.  On
    that ledger POST /api/faucet/claim for user1 answers 200 with a
    receipt for 100 tokens to that address and puts the claim into the
    pool. *)
Theorem listening_funds_faucet (uuid : string) (now now' : Z)
    (now1 : Z) (rnd1 : string) (now1' : Z) (now2 : Z) (rnd2 : string) (now2' : Z)
    (now3 : Z) (rnd3 : string) (now3' : Z) (now4' : Z) :
  let bc := snd (Server.listening now1 rnd1 now1' now2 rnd2 now2' now3 rnd3 now3' now4'
                   (Blockchain.new uuid now now')) in
  let user1 := Blockchain.generateAddress "user1" now1 rnd1 in
  Blockchain.registrations_only bc /\
  JSMap.has "genesis" (Blockchain.accounts bc) = true /\
  Blockchain.getAccountBalance "genesis" bc = 1000000 /\
  JSMap.get user1 (Blockchain.accounts bc)
  = Some (Account.mk user1 (Some "user1") 0 [] now1') /\
  Blockchain.resolveAddress "user1" bc = user1 /\
  forall clock clock' uuid' claimed claimed',
    Server.post_faucet_claim (Some "user1") clock clock' uuid' claimed claimed' bc
    = (JS.Normal (Server.Ok (Blockchain.mkReceipt 100 uuid' user1)),
       Blockchain.set_pendingTransactions
         [Transaction.new uuid' claimed (Some "genesis") (Some user1) 100 "faucet"]
         (Blockchain.set_faucetHistory {[user1 := claimed']} bc)).
Proof.
  cbv zeta. unfold Server.listening. run.
  set (bc0 := Blockchain.new uuid now now').
  set (user1 := Blockchain.generateAddress "user1" now1 rnd1).
  (* the four calls, one after the other *)
  destruct (Blockchain.createAccount "user1" true now1 rnd1 now1' bc0) as [c1 bc1] eqn:E1.
  assert (bc1 = snd (Blockchain.createAccount "user1" true now1 rnd1 now1' bc0)) as Hbc1
    by (by rewrite E1).
  assert (exists r1, c1 = JS.Normal r1) as [r1 ->].
  { revert E1. unfold Blockchain.createAccount. run. destruct (negb _); intros [= <- _]; eauto. }
  destruct (Blockchain.createAccount "user2" true now2 rnd2 now2' bc1) as [c2 bc2] eqn:E2.
  assert (bc2 = snd (Blockchain.createAccount "user2" true now2 rnd2 now2' bc1)) as Hbc2
    by (by rewrite E2).
  assert (exists r2, c2 = JS.Normal r2) as [r2 ->].
  { revert E2. unfold Blockchain.createAccount. run. destruct (negb _); intros [= <- _]; eauto. }
  destruct (Blockchain.createAccount "miner1" true now3 rnd3 now3' bc2) as [c3 bc3] eqn:E3.
  assert (bc3 = snd (Blockchain.createAccount "miner1" true now3 rnd3 now3' bc2)) as Hbc3
    by (by rewrite E3).
  assert (exists r3, c3 = JS.Normal r3) as [r3 ->].
  { revert E3. unfold Blockchain.createAccount. run. destruct (negb _); intros [= <- _]; eauto. }
  destruct (Blockchain.createAccount "genesis" false 0 "" now4' bc3) as [c4 bc4] eqn:E4.
  assert (bc4 = snd (Blockchain.createAccount "genesis" false 0 "" now4' bc3)) as Hbc4
    by (by rewrite E4).
  assert (exists r4, c4 = JS.Normal r4) as [r4 ->].
  { revert E4. unfold Blockchain.createAccount. run. destruct (negb _); intros [= <- _]; eauto. }
  cbn [snd]. clear E1 E2 E3 E4.
  (* only accounts were registered *)
  assert (Blockchain.registrations_only bc4) as Hreg.
  { rewrite Hbc4, Hbc3, Hbc2, Hbc1.
    do 4 apply Blockchain.registrations_createAccount. apply Blockchain.registrations_new. }
  destruct (registrations_only_inv bc4 Hreg) as (_ & Hpool & Hhistory & Hamount & Hfaucet & Hk).
  (* the reserve is on record *)
  assert (JSMap.has "genesis" (Blockchain.accounts bc4) = true) as Hreserve.
  { destruct (createAccount_ledger "genesis" false 0 "" now4' bc3) as [Hold Hnew].
    cbv zeta in Hold, Hnew. rewrite <- Hbc4 in Hold, Hnew.
    destruct (JSMap.has "genesis" (Blockchain.accounts bc3)) eqn:Hhas.
    - by rewrite Hold.
    - rewrite Hnew by done. cbn [Blockchain.accounts Blockchain.set_accounts].
      rewrite JSMap_has_app. unfold JSMap.has at 2. rewrite JSMap_get_cons.
      cbn. apply orb_true_r. }
  (* user1 is the first account, and no key is the name user1 *)
  assert (exists more,
            Blockchain.accounts bc4
            = (user1, Account.mk user1 (Some "user1") 0 [] now1') :: more /\
            Forall (fun kv => fst kv <> "user1") more) as (more & Hacc & Hmore).
  { assert (Blockchain.accounts bc1 = [(user1, Account.mk user1 (Some "user1") 0 [] now1')])
      as H1 by (rewrite Hbc1; reflexivity).
    assert (forall a ts rnd, Blockchain.generateAddress a ts rnd <> "user1") as Hgen.
    { intros a ts rnd. destruct (generateAddress_prefix a ts rnd) as [rest ->]. discriminate. }
    destruct (createAccount_keeps_first "user2" true now2 rnd2 now2' bc1 "user1" _ _
                (Hgen _ _ _) H1 (List.Forall_nil _)) as (m2 & H2 & F2).
    rewrite <- Hbc2 in H2.
    destruct (createAccount_keeps_first "miner1" true now3 rnd3 now3' bc2 "user1" _ _
                (Hgen _ _ _) H2 F2) as (m3 & H3 & F3).
    rewrite <- Hbc3 in H3.
    destruct (createAccount_keeps_first "genesis" false 0 "" now4' bc3 "user1" _ _
                ltac:(discriminate) H3 F3) as (m4 & H4 & F4).
    rewrite <- Hbc4 in H4. eauto. }
  assert (user1 <> "user1") as Hu.
  { unfold user1. destruct (generateAddress_prefix "user1" now1 rnd1) as [rest ->].
    discriminate. }
  assert (JSMap.get user1 (Blockchain.accounts bc4)
          = Some (Account.mk user1 (Some "user1") 0 [] now1')) as Hget.
  { rewrite Hacc, JSMap_get_cons, String.eqb_refl. reflexivity. }
  assert (JSMap.has user1 (Blockchain.accounts bc4) = true) as Hhas1.
  { unfold JSMap.has. by rewrite Hget. }
  assert (Blockchain.resolveAddress "user1" bc4 = user1) as Hres.
  { unfold Blockchain.resolveAddress, Blockchain.findAccount.
    assert (JSMap.has "user1" (Blockchain.accounts bc4) = false) as ->.
    { apply not_true_is_false. rewrite JSMap_has_elem, Hacc. cbn [map fst].
      intros [?|Hin]%elem_of_cons; [done|].
      apply list_elem_of_fmap in Hin as (kv & Hkv & Hin).
      rewrite Forall_forall in Hmore. by apply (Hmore kv Hin). }
    rewrite Hacc. cbn. rewrite bool_decide_eq_true_2 by reflexivity. reflexivity. }
  pose proof (reserve_balance bc4 Hreg Hreserve) as Hbal.
  split; [exact Hreg|]. split; [exact Hreserve|]. split; [exact Hbal|].
  split; [exact Hget|]. split; [exact Hres|].
  intros clock clock' uuid' claimed claimed'.
  apply post_faucet_claim_passes; [discriminate| |].
  - unfold Blockchain.canUseFaucet. rewrite Hres, Hhas1, Hhistory, lookup_empty. reflexivity.
  - unfold Blockchain.useFaucet, Blockchain.canUseFaucet. run.
    rewrite Hres, Hhas1, Hhistory, lookup_empty, Hfaucet, Hbal, Hamount, Hpool.
    cbn. rewrite insert_empty. reflexivity.
Qed.

(** X25.  POST /api/faucet/claim.  A missing or empty address gets 400
    Address or alias is required.  A claimant whom the handler's own
    check refuses gets 400 with the reason and, during the cooldown, the
    remaining time of that check.  Whatever the refusal, also one thrown
    by useFaucet itself such as an empty faucet, the status is 400 and
    the ledger is as it was.  A 200 reply carries the receipt of
    useFaucet: the faucet amount, the id of the new transaction and the
    resolved address of the recipient, whose claim time is now on record
    and whose claim is the last transaction of the pool. *)
Theorem post_faucet_claim_spec (address : option string) (clock clock' : Z) (uuid : string)
    (now now' : Z) (bc : Blockchain.t) :
  let r := Server.post_faucet_claim address clock clock' uuid now now' bc in
  let check := Blockchain.canUseFaucet (JS.or_empty address) clock bc in
  let recipient := Blockchain.resolveAddress (JS.or_empty address) bc in
  (absent address ->
   r = (JS.Normal (Server.Error 400 "Address or alias is required" None), bc)) /\
  (~ absent address -> Blockchain.canUse check = false ->
   r = (JS.Normal (Server.Error 400 (Blockchain.reason check)
                     (Blockchain.remainingTime check)), bc)) /\
  (exists response, fst r = JS.Normal response) /\
  (forall code error remainingTime,
     fst r = JS.Normal (Server.Error code error remainingTime) -> code = 400 /\ snd r = bc) /\
  (forall receipt,
     fst r = JS.Normal (Server.Ok receipt) ->
     receipt = Blockchain.mkReceipt (Blockchain.faucetAmount bc) uuid recipient /\
     JSMap.has recipient (Blockchain.accounts bc) = true /\
     Blockchain.faucetHistory (snd r) !! recipient = Some now' /\
     Blockchain.pendingTransactions (snd r)
     = (Blockchain.pendingTransactions bc
          ++ [Transaction.new uuid now (Some (Blockchain.faucetAddress bc)) (Some recipient)
                (Blockchain.faucetAmount bc) "faucet"])%list).
Proof.
  cbv zeta. unfold Server.post_faucet_claim, Server.try_catch. run.
  destruct (JS.truthy_str address) eqn:Ha; cbn [negb].
  - apply truthy_str_true in Ha.
    destruct (Blockchain.canUse _) eqn:Hcan; cbn [negb].
    + pose proof (useFaucet_effect (JS.or_empty address) clock' uuid now now' bc) as Heff.
      cbv zeta in Heff.
      destruct Heff as [[msg ->] | (Hhas & _ & ->)]; cbn [fst snd].
      * split; [by intros ?|]. split; [by intros _ ?|]. split; [eauto|].
        split; [by intros ? ? ? [= <- _ _] | intros ? [=]].
      * split; [by intros ?|]. split; [by intros _ ?|]. split; [eauto|].
        split; [intros ? ? ? [=]|].
        intros receipt [= <-]. split; [reflexivity|]. split; [exact Hhas|].
        split; [apply lookup_insert_eq | reflexivity].
    + split; [by intros ?|]. split; [reflexivity|]. split; [eauto|].
      split; [by intros ? ? ? [= <- _ _] | intros ? [=]].
  - apply truthy_str_false in Ha.
    split; [reflexivity|]. split; [by intros ?|]. split; [eauto|].
    split; [by intros ? ? ? [= <- _ _] | intros ? [=]].
Qed.

(** ** What a signature covers *)

Section Fingerprint.

Lemma digits_run_together :
  JS.Number_toString 11 ++ JS.Number_toString 730000000000
  = JS.Number_toString 1 ++ JS.Number_toString 1730000000000.
Proof. vm_compute. reflexivity. Qed.

End Fingerprint.

(** X26.  The fingerprint of a transaction is its fields written one
    after the other with nothing between them, and the id is not part of
    it.  So a signature made for one transaction verifies on every
    transaction of the same sender with the same fingerprint, and such
    transactions exist with different amounts: 1 token at time
    1730000000000 and 11 tokens at time 730000000000 have the same
    fingerprint, whoever sends to whomever. *)
Theorem signature_fits_same_fingerprint :
  (forall (sender : string) (tx tx' : Transaction.t),
     Transaction.from tx = Some sender ->
     Transaction.from tx' = Some sender ->
     Transaction.fingerprint_input tx' = Transaction.fingerprint_input tx ->
     Transaction.calculateHash tx' = Transaction.calculateHash tx /\
     Transaction.isValid
       (Transaction.set_signature
          (Transaction.signature (Transaction.signTransaction sender tx)) tx')
     = JS.Normal true) /\
  (forall (sender : string) (to : option string) (type id id' : string)
          (sig sig' : option string),
     Transaction.fingerprint_input
       (Transaction.mk id' (Some sender) to 11 type 730000000000 sig')
     = Transaction.fingerprint_input
         (Transaction.mk id (Some sender) to 1 type 1730000000000 sig)).
Proof.
  split.
  - intros sender tx tx' Hfrom Hfrom' Hsame.
    assert (Transaction.calculateHash tx' = Transaction.calculateHash tx) as Hhash
      by (unfold Transaction.calculateHash; by rewrite Hsame).
    split; [exact Hhash|].
    unfold Transaction.isValid, Transaction.signTransaction.
    rewrite calculateHash_set_signature.
    cbn [Transaction.from Transaction.signature Transaction.set_signature].
    rewrite Hfrom', Hhash.
    destruct (String.eqb _ "") eqn:E.
    + apply String.eqb_eq in E. by apply HmacSHA256_nonempty in E.
    + by rewrite String.eqb_refl.
  - intros sender to type id id' sig sig'. unfold Transaction.fingerprint_input.
    cbn [Transaction.from Transaction.to Transaction.amount Transaction.timestamp
         Transaction.type].
    rewrite <- !(append_assoc (JS.Number_toString _)), digits_run_together.
    reflexivity.
Qed.

(** ** Amounts below zero *)








